(** * Shiny: detection and enhancement engine

    A shallow embedding of the classes [SVGDetector] and [SVGEnhancer]
    (src/content/svg-enhancer.js), together with the fragment of the DOM
    the two classes read and write; of [ShinyStorage] and the install
    handler of the background worker; and of the methods of the content
    script (src/content/content.js) that drive the enhancer and the image
    treatment.

    Conventions of the embedding
    - a DOM node is a [tree]: identity ([nodeId]), tag, optional shadow
      root and light children; text nodes are left out, since every
      handler of the source filters on [ELEMENT_NODE];
    - tag names are kept in the lower-case form the source compares
      against ([nodeName.toLowerCase()], type selectors);
    - what the engine mutates on an element (attributes, inline style,
      class list) lives in a heap keyed by node identity; [dataset]
      entries are the corresponding [data-*] attributes;
    - CSS declarations are uninterpreted strings: the empty string is the
      value of an unset property, and assigning it unsets the property;
      assigning a value that is no string ([undefined], a function an
      object inherits) is not a declaration and leaves the property as it
      is. *)

From stdpp Require Import gmap strings list fin_maps pretty.

Open Scope string_scope.
Open Scope list_scope.

(** ** Strings as the selectors use them *)

Module Str.

(** [s.includes(p)] *)
Fixpoint includes (p s : string) : bool :=
  String.prefix p s ||
  match s with
  | EmptyString => false
  | String _ s' => includes p s'
  end.

(** [s.endsWith(p)] *)
Definition endsWith (p s : string) : bool :=
  (String.length p <=? String.length s)%nat &&
  String.eqb (String.substring (String.length s - String.length p)
                               (String.length p) s) p.

(** JavaScript truthiness of a string *)
Definition truthy (s : string) : bool := negb (String.eqb s "").

(** JavaScript truthiness of a possibly undefined string *)
Definition truthy_opt (o : option string) : bool :=
  match o with Some s => truthy s | None => false end.

(** [o || ''] *)
Definition or_empty (o : option string) : string :=
  match o with Some s => if truthy s then s else "" | None => "" end.

(** The ASCII lower-case form of a character and of a string. *)
Definition lowerChar (a : Ascii.ascii) : Ascii.ascii :=
  let n := Ascii.nat_of_ascii a in
  if (65 <=? n)%nat && (n <=? 90)%nat then Ascii.ascii_of_nat (n + 32) else a.

Fixpoint asciiLower (s : string) : string :=
  match s with
  | EmptyString => EmptyString
  | String a s' => String (lowerChar a) (asciiLower s')
  end.

(** An ASCII case-insensitive match of two strings. *)
Definition eqIgnoreCase (s t : string) : bool :=
  String.eqb (asciiLower s) (asciiLower t).

End Str.

(** ** The DOM fragment *)

Module Dom.

#[local] Unset Elimination Schemes.
Inductive tree : Type :=
  Node (nodeId : nat) (tagName : string)
       (shadowRoot : option tree) (children : list tree).
#[local] Set Elimination Schemes.

Definition nodeId (t : tree) : nat := let 'Node i _ _ _ := t in i.
Definition tagName (t : tree) : string := let 'Node _ g _ _ := t in g.
Definition shadowRoot (t : tree) : option tree := let 'Node _ _ s _ := t in s.
Definition children (t : tree) : list tree := let 'Node _ _ _ k := t in k.

(** A node followed by its light descendants, in document order. *)
Fixpoint subtrees (t : tree) : list tree :=
  match t with
  | Node _ _ _ ks => t :: flat_map subtrees ks
  end.

(** The light descendants of a node, in document order: what
    [root.querySelectorAll('*')] enumerates. *)
Definition descendants (t : tree) : list tree := flat_map subtrees (children t).

(** Every node reachable from [t], shadow trees included. *)
Fixpoint allNodes (t : tree) : list tree :=
  match t with
  | Node _ _ sh ks =>
      t :: match sh with Some s => allNodes s | None => [] end
        ++ flat_map allNodes ks
  end.

(** The node object with identity [i], read from the live tree. *)
Definition findNode (i : nat) (root : tree) : option tree :=
  head (filter (λ t, nodeId t = i) (allNodes root)).

(** [parent.appendChild(sub)] on the node with identity [parent]. *)
Fixpoint appendChild (parent : nat) (sub : tree) (t : tree) : tree :=
  match t with
  | Node i g sh ks =>
      let ks' := map (appendChild parent sub) ks in
      Node i g (option_map (appendChild parent sub) sh)
           (if decide (i = parent) then ks' ++ [sub] else ks')
  end.

(** The inclusive ancestors of the node [i] inside its own light tree,
    nearest first; the walk of [Element.closest] and [parentElement]
    stops at a shadow root. *)
Fixpoint lineage (i : nat) (t : tree) : option (list tree) :=
  match t with
  | Node j _ sh ks =>
      if decide (i = j) then Some [t]
      else
        match
          (fix first (l : list tree) : option (list tree) :=
             match l with
             | [] => None
             | k :: l' =>
                 match lineage i k with
                 | Some p => Some p
                 | None => first l'
                 end
             end) ks
        with
        | Some p => Some (p ++ [t])
        | None =>
            match sh with
            | Some s => lineage i s
            | None => None
            end
        end
  end.

(** What the engine mutates on an element. *)
Record elem : Type := Elem {
  attributes : gmap string string;
  style : gmap string string;
  classList : gset string
}.

Global Instance elem_inhabited : Inhabited elem :=
  populate (Elem ∅ ∅ ∅).

Abbreviation heap := (gmap nat elem).

(** *** Element accessors *)

Definition getAttribute (name : string) (e : elem) : option string :=
  attributes e !! name.

Definition hasAttribute (name : string) (e : elem) : bool :=
  bool_decide (is_Some (attributes e !! name)).

Definition setAttribute (name value : string) (e : elem) : elem :=
  Elem (<[name := value]> (attributes e)) (style e) (classList e).

Definition removeAttribute (name : string) (e : elem) : elem :=
  Elem (delete name (attributes e)) (style e) (classList e).

(** [el.style.prop] and [el.style.getPropertyValue(prop)] *)
Definition getStyle (prop : string) (e : elem) : string :=
  default "" (style e !! prop).

(** [el.style.prop = v], [el.style.setProperty(prop, v)] *)
Definition setStyle (prop value : string) (e : elem) : elem :=
  Elem (attributes e)
          (if Str.truthy value then <[prop := value]> (style e)
           else delete prop (style e))
          (classList e).

Definition removeProperty (prop : string) (e : elem) : elem :=
  Elem (attributes e) (delete prop (style e)) (classList e).

Definition classContains (c : string) (e : elem) : bool :=
  bool_decide (c ∈ classList e).

Definition classAdd (c : string) (e : elem) : elem :=
  Elem (attributes e) (style e) ({[c]} ∪ classList e).

Definition classRemove (c : string) (e : elem) : elem :=
  Elem (attributes e) (style e) (classList e ∖ {[c]}).

(** *** Selectors *)

(** A compound selector without combinators: a test on the tag and on the
    element's own attributes and classes. *)
Definition selector : Type := string → elem → bool.

Definition matches (h : heap) (sel : selector) (t : tree) : bool :=
  sel (tagName t) (h !!! nodeId t).

Definition querySelectorAll (h : heap) (sel : selector) (root : tree)
  : list tree :=
  filter (λ t, matches h sel t = true) (descendants root).

Definition querySelector (h : heap) (sel : selector) (root : tree)
  : option tree :=
  head (querySelectorAll h sel root).

(** [el.closest(tag)] is not null *)
Definition closestTag (root : tree) (tag : string) (el : tree) : bool :=
  match lineage (nodeId el) root with
  | Some p => existsb (λ a, String.eqb (tagName a) tag) p
  | None => String.eqb (tagName el) tag
  end.

(** [el.parentElement]: the shadow root and the document are not elements. *)
Definition parentElement (root : tree) (el : tree) : option tree :=
  match lineage (nodeId el) root with
  | Some (_ :: p :: _) =>
      if String.prefix "#" (tagName p) then None else Some p
  | _ => None
  end.

Definition sel_any : selector := λ _ _, true.
Definition sel_tag (g : string) : selector := λ tag _, String.eqb tag g.
Definition sel_class (c : string) : selector := λ _ e, classContains c e.
Definition sel_attr (a : string) : selector := λ _ e, hasAttribute a e.
Definition sel_attr_eq (a v : string) : selector :=
  λ _ e, bool_decide (getAttribute a e = Some v).
(** [[a="v"]] for an attribute whose value a selector compares ASCII
    case-insensitively on an HTML element; [type] is one of them. *)
Definition sel_attr_eq_i (a v : string) : selector :=
  λ _ e, match getAttribute a e with
         | Some x => Str.eqIgnoreCase x v
         | None => false
         end.
Definition sel_attr_ends (a v : string) : selector :=
  λ _ e, match getAttribute a e with
         | Some x => Str.endsWith v x
         | None => false
         end.
Definition sel_attr_has (a v : string) : selector :=
  λ _ e, match getAttribute a e with
         | Some x => Str.includes v x
         | None => false
         end.
Definition sel_and (s1 s2 : selector) : selector :=
  λ tag e, s1 tag e && s2 tag e.
Definition sel_not (s : selector) : selector := λ tag e, negb (s tag e).
Definition sel_or (ss : list selector) : selector :=
  λ tag e, existsb (λ s, s tag e) ss.

End Dom.

(** ** SVGDetector *)

Module Detector.
Import Dom.

Inductive svgType : Type := inline | img | object | embed | lottie.

(** [{ type, element, container }] *)
Record svgInfo : Type := SvgInfo {
  type : svgType;
  element : tree;
  container : option tree
}.

(** The two callbacks the class hands to [new MutationObserver]: the
    added-nodes loop shared by [observeDynamicContent] and
    [observeShadowRoot], and the closure of [observeLottieContainer]. *)
Inductive observerCallback : Type :=
  | AddedNodes
  | LottieRendered (container : nat).

(** A [MutationObserver] object of the page: its callback and the nodes it
    is registered on, all with [{ childList: true, subtree: true }]. *)
Record mutationObserver : Type := MutationObserver {
  callback : observerCallback;
  targets : list nat
}.

(** The fields of an [SVGDetector] instance; observers are referred to by
    their position in the page's registry, callbacks by a name. *)
Record detector : Type := DetectorState {
  observer : option nat;
  shadowObservers : gmap nat nat;
  detectedSVGs : gset nat;
  onSVGDetected : option nat
}.

(** The page together with the detector: the live document, the element
    data, every observer constructed so far, the instance, and the trace
    of the invocations of [onSVGDetected]. *)
Record world : Type := World {
  document : tree;
  elements : heap;
  registry : list mutationObserver;
  this : detector;
  calls : list (nat * svgInfo)
}.

(** [constructor()] *)
Definition constructor : detector :=
  DetectorState None ∅ ∅ None.

Definition load (doc : tree) (h : heap) : world :=
  World doc h [] constructor [].

Definition with_this (f : detector → detector) (w : world) : world :=
  World (document w) (elements w) (registry w) (f (this w)) (calls w).

Definition with_registry (f : list mutationObserver → list mutationObserver)
    (w : world) : world :=
  World (document w) (elements w) (f (registry w)) (this w) (calls w).

(** *** MutationObserver primitives *)

(** [new MutationObserver(cb)]; returns the world and the new observer. *)
Definition newObserver (cb : observerCallback) (w : world) : world * nat :=
  (with_registry (λ r, r ++ [MutationObserver cb []]) w, length (registry w)).

(** [obs.observe(target, { childList: true, subtree: true })] *)
Definition observe (obs target : nat) (w : world) : world :=
  with_registry
    (alter (λ o, MutationObserver (callback o)
                   (if decide (target ∈ targets o) then targets o
                    else targets o ++ [target])) obs) w.

(** [obs.disconnect()] *)
Definition disconnect (obs : nat) (w : world) : world :=
  with_registry (alter (λ o, MutationObserver (callback o) []) obs) w.

(** *** Shadow-tree walker *)

(** The shadow roots met by [traverseShadowRoots] below an element, the
    element included: each root is visited, then the roots nested in it,
    then the walk goes on with the following elements in document order. *)
Fixpoint shadowRootsUnder (el : tree) : list tree :=
  match el with
  | Node _ _ sh ks =>
      match sh with
      | Some s =>
          s :: match s with
               | Node _ _ _ ks' => flat_map shadowRootsUnder ks'
               end
      | None => []
      end ++ flat_map shadowRootsUnder ks
  end.

(** [traverseShadowRoots(root, callback)]: the roots in the order in which
    the callback receives them. *)
Definition traverseShadowRoots (root : tree) : list tree :=
  flat_map shadowRootsUnder (children root).

(** [querySelectorAllDeep(selector, root)] *)
Definition querySelectorAllDeep (h : heap) (sel : selector) (root : tree)
  : list tree :=
  querySelectorAll h sel root
  ++ flat_map (querySelectorAll h sel) (traverseShadowRoots root).

(** *** Selectors of the detector *)

Definition sel_svg : selector := sel_tag "svg".

(** [img[src$=".svg"], img[src*=".svg?"]] *)
Definition sel_img_svg : selector :=
  sel_and (sel_tag "img")
          (sel_or [sel_attr_ends "src" ".svg"; sel_attr_has "src" ".svg?"]).

(** [object[type="image/svg+xml"], object[data$=".svg"]] *)
Definition sel_object_svg : selector :=
  sel_and (sel_tag "object")
          (sel_or [sel_attr_eq_i "type" "image/svg+xml";
                   sel_attr_ends "data" ".svg"]).

(** [embed[type="image/svg+xml"], embed[src$=".svg"]] *)
Definition sel_embed_svg : selector :=
  sel_and (sel_tag "embed")
          (sel_or [sel_attr_eq_i "type" "image/svg+xml";
                   sel_attr_ends "src" ".svg"]).

(** [.lottie, .bodymovin, .lottie-animation] *)
Definition sel_lottie_class : selector :=
  sel_or [sel_class "lottie"; sel_class "bodymovin";
          sel_class "lottie-animation"].

(** [lottie-player, dotlottie-player] *)
Definition sel_lottie_player : selector :=
  sel_or [sel_tag "lottie-player"; sel_tag "dotlottie-player"].

(** [[data-animation-path], [data-anim-loop], [data-bm-renderer]] *)
Definition sel_lottie_data : selector :=
  sel_or [sel_attr "data-animation-path"; sel_attr "data-anim-loop";
          sel_attr "data-bm-renderer"].

(** [svg[data-bm], svg.bodymovin] *)
Definition sel_lottie_svg : selector :=
  sel_and (sel_tag "svg") (sel_or [sel_attr "data-bm"; sel_class "bodymovin"]).

(** *** Methods *)

(** [registerSVG(svgInfo)] *)
Definition registerSVG (info : svgInfo) (w : world) : world :=
  if decide (nodeId (element info) ∈ detectedSVGs (this w)) then w
  else
    let w' :=
      with_this (λ d, DetectorState (observer d) (shadowObservers d)
                        ({[nodeId (element info)]} ∪ detectedSVGs d)
                        (onSVGDetected d)) w in
    match onSVGDetected (this w') with
    | Some cb =>
        World (document w') (elements w') (registry w') (this w')
              (calls w' ++ [(cb, info)])
    | None => w'
    end.

(** [observeLottieContainer(container)]; the timer it arms is the
    [LottieTimeout] event of the page. *)
Definition observeLottieContainer (container : tree) (w : world) : world :=
  let '(w1, obs) := newObserver (LottieRendered (nodeId container)) w in
  let w2 := observe obs (nodeId container) w1 in
  match shadowRoot container with
  | Some sr => observe obs (nodeId sr) w2
  | None => w2
  end.

(** [observeShadowRoot(shadowRoot)] *)
Definition observeShadowRoot (sr : tree) (w : world) : world :=
  if decide (is_Some (shadowObservers (this w) !! nodeId sr)) then w
  else
    let '(w1, obs) := newObserver AddedNodes w in
    let w2 := observe obs (nodeId sr) w1 in
    with_this (λ d, DetectorState (observer d)
                      (<[nodeId sr := obs]> (shadowObservers d))
                      (detectedSVGs d) (onSVGDetected d)) w2.

Definition registerInline (w : world) (svg : tree) : world :=
  registerSVG (SvgInfo inline svg None) w.

(** The body of [el => { if (el.shadowRoot) { ... } }], also run on the
    added node itself at the end of [checkNodeForSVG]. *)
Definition checkShadowHost (w : world) (el : tree) : world :=
  match shadowRoot el with
  | Some sr =>
      foldl registerInline (observeShadowRoot sr w)
            (querySelectorAll (elements w) sel_svg sr)
  | None => w
  end.

(** [checkNodeForSVG(node)] *)
Definition checkNodeForSVG (node : tree) (w : world) : world :=
  if String.eqb (tagName node) "svg" then registerInline w node
  else if String.eqb (tagName node) "lottie-player"
          || String.eqb (tagName node) "dotlottie-player"
  then observeLottieContainer node w
  else
    let w1 := foldl registerInline w
                    (querySelectorAll (elements w) sel_svg node) in
    let w2 := foldl (λ w p, observeLottieContainer p w) w1
                    (querySelectorAll (elements w) sel_lottie_player node) in
    let w3 := foldl checkShadowHost w2
                    (querySelectorAll (elements w) sel_any node) in
    checkShadowHost w3 node.

(** [container.querySelector('svg')], then the container's shadow root. *)
Definition renderedSVG (h : heap) (container : tree) : option tree :=
  match querySelector h sel_svg container with
  | Some svg => Some svg
  | None =>
      match shadowRoot container with
      | Some sr => querySelector h sel_svg sr
      | None => None
      end
  end.

(** The callback built by [observeLottieContainer], run for the observer
    [obs]; the container is read from the live document. *)
Definition lottieCallback (obs container : nat) (w : world) : world :=
  match findNode container (document w) with
  | Some c =>
      match renderedSVG (elements w) c with
      | Some svg => disconnect obs (registerSVG (SvgInfo lottie svg (Some c)) w)
      | None => w
      end
  | None => w
  end.

(** [detectLottieContainers()]: the list it returns and the world after
    the pending watches it registers. *)
Definition detectLottieContainers (w : world) : list svgInfo * world :=
  let h := elements w in
  let doc := document w in
  let m1 :=
    foldl (λ acc c, match querySelector h sel_svg c with
                    | Some svg => acc ++ [SvgInfo lottie svg (Some c)]
                    | None => acc
                    end)
          [] (querySelectorAllDeep h sel_lottie_class doc) in
  let '(m2, w2) :=
    foldl (λ '(acc, w) p, match renderedSVG h p with
                          | Some svg => (acc ++ [SvgInfo lottie svg (Some p)], w)
                          | None => (acc, observeLottieContainer p w)
                          end)
          (m1, w) (querySelectorAllDeep h sel_lottie_player doc) in
  let m3 :=
    foldl (λ acc c, match querySelector h sel_svg c with
                    | Some svg => acc ++ [SvgInfo lottie svg (Some c)]
                    | None => acc
                    end)
          m2 (querySelectorAllDeep h sel_lottie_data doc) in
  let m4 :=
    foldl (λ acc svg,
             if existsb (λ item, bool_decide (nodeId (element item) = nodeId svg))
                        acc
             then acc
             else acc ++ [SvgInfo lottie svg (parentElement doc svg)])
          m3 (querySelectorAllDeep h sel_lottie_svg doc) in
  (m4, w2).

(** [detectExisting()] *)
Definition detectExisting (w : world) : list svgInfo * world :=
  let h := elements w in
  let doc := document w in
  let found kind sel :=
    map (λ el, SvgInfo kind el None) (querySelectorAllDeep h sel doc) in
  let '(lotties, w') := detectLottieContainers w in
  (found inline sel_svg ++ found img sel_img_svg
   ++ found object sel_object_svg ++ found embed sel_embed_svg ++ lotties,
   w').

(** [document.body]: the first [body] or [frameset] child of the document
    element. *)
Definition documentBody (doc : tree) : option tree :=
  match children doc with
  | html :: _ =>
      head (filter (λ t, tagName t = "body" ∨ tagName t = "frameset")
                   (children html))
  | [] => None
  end.

(** [observeExistingShadowRoots()] *)
Definition observeExistingShadowRoots (w : world) : world :=
  foldl (λ w sr, observeShadowRoot sr w) w (traverseShadowRoots (document w)).

(** [observeDynamicContent()]. Without a body, [observe(null, ...)] raises
    a [TypeError]: the method stops there, with the new observer stored
    but registered nowhere. *)
Definition observeDynamicContent (w : world) : world :=
  let '(w1, obs) := newObserver AddedNodes w in
  let w2 := with_this (λ d, DetectorState (Some obs) (shadowObservers d)
                              (detectedSVGs d) (onSVGDetected d)) w1 in
  match documentBody (document w2) with
  | Some b => observeExistingShadowRoots (observe obs (nodeId b) w2)
  | None => w2
  end.

(** [start(callback)] *)
Definition start (cb : nat) (w : world) : world :=
  let w1 := with_this (λ d, DetectorState (observer d) (shadowObservers d)
                              (detectedSVGs d) (Some cb)) w in
  let '(existing, w2) := detectExisting w1 in
  let w3 := foldl (λ w info, registerSVG info w) w2 existing in
  observeDynamicContent w3.

(** [stop()] *)
Definition stop (w : world) : world :=
  let w1 :=
    match observer (this w) with
    | Some obs =>
        with_this (λ d, DetectorState None (shadowObservers d)
                          (detectedSVGs d) (onSVGDetected d))
                  (disconnect obs w)
    | None => w
    end in
  with_this (λ d, DetectorState (observer d) ∅
                    (detectedSVGs d) (onSVGDetected d)) w1.

(** *** The page as a transition system *)

Inductive event : Type :=
  | Start (cb : nat)
  | Stop
  | Insert (parent : nat) (sub : tree)
  | LottieTimeout (obs : nat).

(** An observer registered on [target] with [subtree: true] hears of a
    child-list change of [parent] when [parent] is [target] or one of its
    light descendants. *)
Definition hears (doc : tree) (parent : nat) (o : mutationObserver) : bool :=
  existsb (λ target,
             match findNode target doc with
             | Some t => bool_decide (parent ∈ map nodeId (subtrees t))
             | None => false
             end)
          (targets o).

(** The callback of the observer [obs], for one added element. *)
Definition runCallback (added : tree) (w : world) (obs : nat) : world :=
  match registry w !! obs with
  | Some o =>
      match callback o with
      | AddedNodes => checkNodeForSVG added w
      | LottieRendered c => lottieCallback obs c w
      end
  | None => w
  end.

(** One task of the page that appends the element [sub] under [parent],
    followed by the delivery of the mutation record to the observers that
    were registered for it, in the order of their creation. *)
Definition insert (parent : nat) (sub : tree) (w : world) : world :=
  let doc' := appendChild parent sub (document w) in
  let w' := World doc' (elements w) (registry w) (this w) (calls w) in
  let notified :=
    filter (λ obs, from_option (hears doc' parent) false (registry w !! obs)
                   = true)
           (seq 0 (length (registry w))) in
  foldl (runCallback sub) w' notified.

(** [setTimeout(() => lottieObserver.disconnect(), 10000)] firing. *)
Definition lottieTimeout (obs : nat) (w : world) : world :=
  match registry w !! obs with
  | Some (MutationObserver (LottieRendered _) _) => disconnect obs w
  | _ => w
  end.

Definition step (w : world) (ev : event) : world :=
  match ev with
  | Start cb => start cb w
  | Stop => stop w
  | Insert parent sub => insert parent sub w
  | LottieTimeout obs => lottieTimeout obs w
  end.

Definition run (w : world) (evs : list event) : world := foldl step w evs.


(** *** Vocabulary of the statements *)

(** The node a call of [onSVGDetected] was about. *)
Definition reportedNode (c : nat * svgInfo) : nat := nodeId (element (snd c)).

(** The nodes handed to [onSVGDetected] so far. *)
Definition reported (w : world) : list nat := reportedNode <$> calls w.

(** [w'] comes after [w]: the seen-set has grown, and every call made in
    between was about a distinct node that [P] holds of, unseen in [w] and
    seen in [w']. *)
Definition extends (P : svgInfo → Prop) (w w' : world) : Prop :=
  detectedSVGs (this w) ⊆ detectedSVGs (this w')
  ∧ ∃ new,
      calls w' = calls w ++ new
      ∧ NoDup (reportedNode <$> new)
      ∧ Forall (λ c, P (snd c)
                     ∧ (reportedNode c ∉ detectedSVGs (this w))
                     ∧ (reportedNode c ∈ detectedSVGs (this w'))) new.

(** An inline or animation-hosted report about an [<svg>] element. *)
Definition inlineSVG (info : svgInfo) : Prop :=
  (type info = inline ∨ type info = lottie) ∧ tagName (element info) = "svg".

Definition isStart (ev : event) : bool :=
  match ev with Start _ => true | _ => false end.

(** Every reported node is in the seen-set. *)
Definition seenCovers (w : world) : Prop :=
  ∀ x, x ∈ reported w → x ∈ detectedSVGs (this w).

End Detector.

(** ** SVGEnhancer *)

Module Enhancer.
Import Dom.
Export Detector (svgType, inline, img, object, embed, lottie,
                 svgInfo, SvgInfo, type, element, container,
                 sel_svg).

(** The fields of a settings snapshot the enhancer reads. *)
Record settings : Type := Settings {
  enabled : bool;
  outlineEnabled : bool;
  outlineColor : string;
  outlineWidth : Z;
  contrastEnabled : bool;
  contrastLevel : string;
  highlightEnabled : bool;
  highlightColor : string;
  focusIndicators : bool
}.

(** What the browser answers and the enhancer does not control: the
    document nested in an [<object>] or [<embed>] (an access can be
    refused by raising) and the cursor of the computed style (reading it
    can raise). *)
Inductive access : Type :=
  | Denied
  | NoDocument
  | Document (doc : tree).

Record browser : Type := Browser {
  contentDocument : nat → access;
  getSVGDocument : nat → option access;
  computedCursor : nat → option string
}.

(** A value of the [enhancedElements] map: [enhanceInlineSVG] stores
    [{ originalFilter, modifiedShapes }], [enhanceImgSVG] stores
    [{ originalFilter }]. *)
Record stored : Type := Stored {
  originalFilter : string;
  modifiedShapes : option (list nat)
}.

Record state : Type := State {
  dom : heap;
  enhancedElements : gmap nat stored
}.

(** How a method ends: normally, or by an exception that leaves the state
    as it was when raised. *)
Inductive completion : Type :=
  | Normal (st : state)
  | Thrown (st : state).

Definition with_dom (f : heap → heap) (st : state) : state :=
  State (f (dom st)) (enhancedElements st).

(** Run [f] on the element [i]. *)
Definition update (i : nat) (f : elem → elem) (h : heap) : heap :=
  <[i := f (h !!! i)]> h.

(** [list.forEach(f)] for a callback that can raise. *)
Fixpoint forEach {A : Type} (f : state → A → completion) (l : list A)
    (st : state) : completion :=
  match l with
  | [] => Normal st
  | x :: l' =>
      match f st x with
      | Normal st' => forEach f l' st'
      | Thrown st' => Thrown st'
      end
  end.

(** *** Names the engine writes *)

Definition data_stroke : string := "data-shiny-original-stroke".
Definition data_stroke_width : string := "data-shiny-original-stroke-width".
Definition data_paint_order : string := "data-shiny-original-paint-order".
Definition data_added_tabindex : string := "data-shiny-added-tabindex".

Definition cls_enhanced : string := "shiny-enhanced".
Definition cls_enhanced_img : string := "shiny-enhanced-img".
Definition cls_outlined : string := "shiny-outlined".
Definition cls_highlightable : string := "shiny-highlightable".
Definition cls_focusable : string := "shiny-focusable".

Definition highlight_color : string := "--shiny-highlight-color".

(** *** Selectors of the enhancer *)

(** [path, rect, circle, ellipse, polygon, polyline, line, text] *)
Definition sel_shape : selector :=
  sel_or (map sel_tag ["path"; "rect"; "circle"; "ellipse"; "polygon";
                       "polyline"; "line"; "text"]).

(** [[onclick], [tabindex], a, [role="button"], [role="link"],
    [cursor="pointer"]] *)
Definition sel_interactive : selector :=
  sel_or [sel_attr "onclick"; sel_attr "tabindex"; sel_tag "a";
          sel_attr_eq "role" "button"; sel_attr_eq "role" "link";
          sel_attr_eq "cursor" "pointer"].

(** [a, [tabindex]:not([tabindex="-1"]), [onclick], [role="button"],
    [role="link"]] *)
Definition sel_focusable : selector :=
  sel_or [sel_tag "a";
          sel_and (sel_attr "tabindex") (sel_not (sel_attr_eq "tabindex" "-1"));
          sel_attr "onclick"; sel_attr_eq "role" "button";
          sel_attr_eq "role" "link"].

(** *** Outline layer *)

(** [shape.closest('clipPath') || shape.closest('mask') ||
    shape.closest('defs')] *)
Definition skipped (root shape : tree) : bool :=
  closestTag root "clipPath" shape || closestTag root "mask" shape
  || closestTag root "defs" shape.

(** The three [dataset] assignments of [addOutlines]. *)
Definition captureOriginals (e : elem) : elem :=
  let e1 := setAttribute data_stroke
              (Str.or_empty (getAttribute "stroke" e)) e in
  let e2 := setAttribute data_stroke_width
              (Str.or_empty (getAttribute "stroke-width" e1)) e1 in
  setAttribute data_paint_order (getStyle "paint-order" e2) e2.

(** [fill && fill !== 'none' && fill !== 'transparent'] *)
Definition fillVisible (fill : option string) : bool :=
  match fill with
  | Some f => Str.truthy f && negb (String.eqb f "none")
              && negb (String.eqb f "transparent")
  | None => false
  end.

(** The part of [addOutlines] after the capture. *)
Definition applyOutline (s : settings) (e : elem) : elem :=
  let e1 := setAttribute "stroke" (outlineColor s) e in
  let e2 := setAttribute "stroke-width" (pretty (outlineWidth s)) e1 in
  let e3 := if fillVisible (getAttribute "fill" e2)
            then setStyle "paint-order" "stroke fill" e2 else e2 in
  classAdd cls_outlined e3.

(** The callback of [shapes.forEach] in [addOutlines]; [svg] keys the
    record that the source holds as [stored]. Pushing on a missing
    [modifiedShapes] raises a [TypeError]. *)
Definition outlineShape (root : tree) (s : settings) (svg : nat)
    (st : state) (shape : tree) : completion :=
  if skipped root shape then Normal st
  else
    let i := nodeId shape in
    let apply st := Normal (with_dom (update i (applyOutline s)) st) in
    if negb (Str.truthy_opt (getAttribute data_stroke (dom st !!! i))) then
      let st1 := with_dom (update i captureOriginals) st in
      match enhancedElements st1 !! svg with
      | Some (Stored f (Some l)) =>
          apply (State (dom st1)
                       (<[svg := Stored f (Some (l ++ [i]))]>
                          (enhancedElements st1)))
      | _ => Thrown st1
      end
    else apply st.

(** [addOutlines(svg, settings, stored)] *)
Definition addOutlines (root : tree) (s : settings) (svg : tree)
    (st : state) : completion :=
  forEach (outlineShape root s (nodeId svg))
          (querySelectorAll (dom st) sel_shape svg) st.

(** The callback of [stored.modifiedShapes.forEach] in [removeOutlines].
    Assigning [undefined] to [style.paintOrder] is not a valid
    declaration and leaves the property as it is. *)
Definition restoreShape (e : elem) : elem :=
  let originalStroke := getAttribute data_stroke e in
  let originalStrokeWidth := getAttribute data_stroke_width e in
  let originalPaintOrder := getAttribute data_paint_order e in
  let e1 := match originalStroke with
            | Some v => if Str.truthy v then setAttribute "stroke" v e
                        else removeAttribute "stroke" e
            | None => removeAttribute "stroke" e
            end in
  let e2 := match originalStrokeWidth with
            | Some v => if Str.truthy v then setAttribute "stroke-width" v e1
                        else removeAttribute "stroke-width" e1
            | None => removeAttribute "stroke-width" e1
            end in
  let e3 := match originalPaintOrder with
            | Some v => setStyle "paint-order" v e2
            | None => e2
            end in
  classRemove cls_outlined e3.

(** [removeOutlines(svg, stored)]; iterating a missing [modifiedShapes]
    raises a [TypeError]. *)
Definition removeOutlines (svg : nat) (st : state) : completion :=
  match enhancedElements st !! svg with
  | Some (Stored _ (Some l)) =>
      Normal (with_dom (λ h, foldl (λ h i, update i restoreShape h) h l) st)
  | _ => Thrown st
  end.

(** *** Contrast layer *)

(** The names an object literal inherits from [Object.prototype]. Read
    on the literal, each gives a function (the prototype itself for
    [__proto__]): a truthy value that is no string. *)
Definition inheritedKeys : list string :=
  ["constructor"; "hasOwnProperty"; "isPrototypeOf"; "propertyIsEnumerable";
   "toLocaleString"; "toString"; "valueOf"; "__proto__";
   "__defineGetter__"; "__defineSetter__"; "__lookupGetter__";
   "__lookupSetter__"].

Definition inherited (key : string) : bool :=
  bool_decide (key ∈ inheritedKeys).

(** [contrastFilters[level] || contrastFilters.high]: an own key gives its
    filter, an inherited key gives the inherited value ([None] here), and
    any other level gives the filter of [high]. *)
Definition contrastFilter (level : string) : option string :=
  if String.eqb level "medium" then Some "contrast(1.3) saturate(1.2)"
  else if String.eqb level "high" then Some "contrast(1.6) saturate(1.4)"
  else if String.eqb level "maximum" then Some "contrast(2.0) saturate(1.6)"
  else if inherited level then None
  else Some "contrast(1.6) saturate(1.4)".

(** The right-hand side of the assignment in [enhanceContrast]. *)
Definition combinedFilter (existingFilter v : string) : string :=
  if Str.truthy existingFilter
  then (existingFilter ++ " " ++ v)%string
  else v.

(** [enhanceContrast(svg, settings)]. The text of an inherited value,
    alone or after the original filter, is not a valid declaration:
    assigning it leaves the property as it is. *)
Definition enhanceContrast (s : settings) (svg : nat) (st : state) : state :=
  let existingFilter :=
    match enhancedElements st !! svg with
    | Some r => originalFilter r
    | None => ""
    end in
  match contrastFilter (contrastLevel s) with
  | Some v =>
      with_dom (update svg (setStyle "filter"
                              (combinedFilter existingFilter v))) st
  | None => st
  end.

(** *** Highlight layer *)

Definition markHighlight (s : settings) (e : elem) : elem :=
  setStyle highlight_color (highlightColor s) (classAdd cls_highlightable e).

Definition unmarkHighlight (e : elem) : elem :=
  removeProperty highlight_color (classRemove cls_highlightable e).

(** The callback of the second loop of [addHighlighting], run on the
    element [i]; a computed style that cannot be read is skipped. *)
Definition highlightPointer (B : browser) (s : settings) (h : heap)
    (i : nat) : heap :=
  match computedCursor B i with
  | Some cursor =>
      if String.eqb cursor "pointer"
         && negb (classContains cls_highlightable (h !!! i))
      then update i (markHighlight s) h
      else h
  | None => h
  end.

(** [addHighlighting(svg, settings)] *)
Definition addHighlighting (B : browser) (s : settings) (svg : tree)
    (h : heap) : heap :=
  let h1 := foldl (λ h el, update (nodeId el) (markHighlight s) h) h
                  (querySelectorAll h sel_interactive svg) in
  foldl (λ h el, highlightPointer B s h (nodeId el)) h1
        (querySelectorAll h1 sel_any svg).

(** [removeHighlighting(svg)] *)
Definition removeHighlighting (svg : tree) (h : heap) : heap :=
  foldl (λ h el, update (nodeId el) unmarkHighlight h) h
        (querySelectorAll h (sel_class cls_highlightable) svg).

(** *** Focus layer *)

Definition markFocusable (e : elem) : elem :=
  let e1 := classAdd cls_focusable e in
  if negb (hasAttribute "tabindex" e1)
     && (hasAttribute "onclick" e1
         || Str.truthy_opt (getAttribute "role" e1))
  then setAttribute data_added_tabindex "true" (setAttribute "tabindex" "0" e1)
  else e1.

Definition unmarkFocusable (e : elem) : elem :=
  let e1 := classRemove cls_focusable e in
  if Str.truthy_opt (getAttribute data_added_tabindex e1)
  then removeAttribute data_added_tabindex (removeAttribute "tabindex" e1)
  else e1.

(** [addFocusIndicators(svg)] *)
Definition addFocusIndicators (svg : tree) (h : heap) : heap :=
  foldl (λ h el, update (nodeId el) markFocusable h) h
        (querySelectorAll h sel_focusable svg).

(** [removeFocusIndicators(svg)] *)
Definition removeFocusIndicators (svg : tree) (h : heap) : heap :=
  foldl (λ h el, update (nodeId el) unmarkFocusable h) h
        (querySelectorAll h (sel_class cls_focusable) svg).

(** *** Treatments *)

(** The layers of [enhanceInlineSVG] that follow the outline layer. *)
Definition inlineLayers (B : browser) (s : settings) (svg : tree)
    (st : state) : state :=
  let st1 :=
    if contrastEnabled s then enhanceContrast s (nodeId svg) st
    else
      match enhancedElements st !! nodeId svg with
      | Some r =>
          with_dom (update (nodeId svg) (setStyle "filter" (originalFilter r)))
                   st
      | None => st
      end in
  let st2 :=
    with_dom (if highlightEnabled s then addHighlighting B s svg
              else removeHighlighting svg) st1 in
  let st3 :=
    with_dom (if focusIndicators s then addFocusIndicators svg
              else removeFocusIndicators svg) st2 in
  with_dom (update (nodeId svg) (classAdd cls_enhanced)) st3.

(** [enhanceInlineSVG(svg, settings)]; [root] is the tree the graphic
    lives in, which [closest] walks. *)
Definition enhanceInlineSVG (B : browser) (root : tree) (s : settings)
    (svg : tree) (st : state) : completion :=
  let st0 :=
    match enhancedElements st !! nodeId svg with
    | Some _ => st
    | None =>
        State (dom st)
              (<[nodeId svg :=
                   Stored (getStyle "filter" (dom st !!! nodeId svg)) (Some [])]>
                 (enhancedElements st))
    end in
  match (if outlineEnabled s then addOutlines root s svg st0
         else removeOutlines (nodeId svg) st0) with
  | Normal st1 => Normal (inlineLayers B s svg st1)
  | Thrown st1 => Thrown st1
  end.

(** [contrastValues[level] || 1.6], as the template literal prints it;
    [None] for the value of an inherited key. *)
Definition contrastValue (level : string) : option string :=
  if String.eqb level "medium" then Some "1.3"
  else if String.eqb level "high" then Some "1.6"
  else if String.eqb level "maximum" then Some "2"
  else if inherited level then None
  else Some "1.6".

(** [filters.join(' ')]; [None] when the contrast entry prints an
    inherited value. *)
Definition imgFilter (s : settings) : option string :=
  let shadow :=
    ("drop-shadow(0 0 " ++ pretty (outlineWidth s) ++ "px "
       ++ outlineColor s ++ ")")%string in
  if contrastEnabled s then
    match contrastValue (contrastLevel s) with
    | Some v =>
        let contrast := ("contrast(" ++ v ++ ")")%string in
        Some (if outlineEnabled s then (contrast ++ " " ++ shadow)%string
              else contrast)
    | None => None
    end
  else Some (if outlineEnabled s then shadow else "").

(** [img.style.filter = filters.join(' ')]: a list that prints an
    inherited value is not a valid declaration and leaves the property as
    it is. *)
Definition assignFilter (value : option string) (e : elem) : elem :=
  match value with
  | Some v => setStyle "filter" v e
  | None => e
  end.

(** [enhanceImgSVG(img, settings)] *)
Definition enhanceImgSVG (s : settings) (el : tree) (st : state) : state :=
  let st0 :=
    match enhancedElements st !! nodeId el with
    | Some _ => st
    | None =>
        State (dom st)
              (<[nodeId el :=
                   Stored (getStyle "filter" (dom st !!! nodeId el)) None]>
                 (enhancedElements st))
    end in
  with_dom (update (nodeId el)
              (λ e, classAdd cls_enhanced_img (assignFilter (imgFilter s) e)))
           st0.

(** [element.contentDocument || element.getSVGDocument?.()] *)
Definition svgDocument (B : browser) (el : nat) : access :=
  match contentDocument B el with
  | NoDocument =>
      match getSVGDocument B el with
      | Some a => a
      | None => NoDocument
      end
  | a => a
  end.

(** [enhanceEmbeddedSVG(element, settings)]: whatever is raised inside the
    [try] block is caught, and the fallback runs on the state left. *)
Definition enhanceEmbeddedSVG (B : browser) (s : settings) (el : tree)
    (st : state) : completion :=
  let fallback st := Normal (enhanceImgSVG s el st) in
  match svgDocument B (nodeId el) with
  | Document svgDoc =>
      match querySelector (dom st) sel_svg svgDoc with
      | Some svg =>
          match enhanceInlineSVG B svgDoc s svg st with
          | Normal st' => Normal st'
          | Thrown st' => fallback st'
          end
      | None => fallback st
      end
  | NoDocument => fallback st
  | Denied => fallback st
  end.

(** [restore(element)] *)
Definition restore (el : tree) (st : state) : completion :=
  match enhancedElements st !! nodeId el with
  | None => Normal st
  | Some r =>
      let st1 :=
        with_dom (update (nodeId el) (setStyle "filter" (originalFilter r))) st in
      if String.eqb (tagName el) "svg" then
        match removeOutlines (nodeId el) st1 with
        | Normal st2 =>
            let st3 := with_dom (removeHighlighting el) st2 in
            let st4 := with_dom (removeFocusIndicators el) st3 in
            let st5 := with_dom (update (nodeId el) (classRemove cls_enhanced))
                                st4 in
            Normal (State (dom st5) (delete (nodeId el) (enhancedElements st5)))
        | Thrown st2 => Thrown st2
        end
      else
        let st2 := with_dom (update (nodeId el) (classRemove cls_enhanced_img))
                            st1 in
        Normal (State (dom st2) (delete (nodeId el) (enhancedElements st2)))
  end.

(** [enhance(svgInfo, settings)] *)
Definition enhance (B : browser) (root : tree) (info : svgInfo)
    (s : settings) (st : state) : completion :=
  if negb (enabled s) then restore (element info) st
  else
    match type info with
    | inline | lottie => enhanceInlineSVG B root s (element info) st
    | img => Normal (enhanceImgSVG s (element info) st)
    | object | embed => enhanceEmbeddedSVG B s (element info) st
    end.

(** [restoreAll()] *)
Definition restoreAll (document : tree) (st : state) : completion :=
  forEach (λ st el, restore el st)
          (querySelectorAll (dom st)
             (sel_or [sel_class cls_enhanced; sel_class cls_enhanced_img])
             document)
          st.


(** *** Element-wise reading of the layers *)

(** A loop body that touches only the element it is run on. *)
Definition local (g : heap → nat → heap) (f : nat → elem → elem) : Prop :=
  ∀ h j k, g h j !!! k = if decide (k = j) then f j (h !!! j) else h !!! k.

(** Node identities are unique in [t] and its light descendants. *)
Definition distinctIds (t : tree) : Prop := NoDup (nodeId <$> subtrees t).

(** How often the node [k] occurs in a list of node references. *)
Definition occurrences (k : nat) (l : list nat) : nat :=
  length (filter (λ j, j = k) l).

(** What one run of the outline callback leaves on an element it does not
    skip. *)
Definition outlineLocal (s : settings) (e : elem) : elem :=
  applyOutline s
    (if negb (Str.truthy_opt (getAttribute data_stroke e))
     then captureOriginals e else e).

(** The guard [!shape.dataset.shinyOriginalStroke] holds of [d]. *)
Definition uncaptured (h : heap) (d : tree) : bool :=
  negb (Str.truthy_opt (getAttribute data_stroke (h !!! nodeId d))).

(** The outline layer writes to [d]. *)
Definition outlines (root : tree) (s : settings) (h : heap) (d : tree) : bool :=
  outlineEnabled s && sel_shape (tagName d) (h !!! nodeId d)
  && negb (skipped root d).

(** What the second loop of [addHighlighting] leaves on the element [i]. *)
Definition pointerLocal (B : browser) (s : settings) (i : nat) (e : elem)
  : elem :=
  match computedCursor B i with
  | Some cursor =>
      if String.eqb cursor "pointer" && negb (classContains cls_highlightable e)
      then markHighlight s e else e
  | None => e
  end.

(** What [addHighlighting], [removeHighlighting], [addFocusIndicators] and
    [removeFocusIndicators] leave on a descendant [d] of the graphic. *)
Definition highlightView (B : browser) (s : settings) (d : tree) (e : elem)
  : elem :=
  pointerLocal B s (nodeId d)
    (if sel_interactive (tagName d) e then markHighlight s e else e).

Definition unhighlightView (e : elem) : elem :=
  if classContains cls_highlightable e then unmarkHighlight e else e.

Definition focusView (d : tree) (e : elem) : elem :=
  if sel_focusable (tagName d) e then markFocusable e else e.

Definition unfocusView (e : elem) : elem :=
  if classContains cls_focusable e then unmarkFocusable e else e.

(** What the layers after the outline layer leave on a descendant. *)
Definition layersView (B : browser) (s : settings) (d : tree) (e : elem)
  : elem :=
  let e2 := if highlightEnabled s then highlightView B s d e
            else unhighlightView e in
  if focusIndicators s then focusView d e2 else unfocusView e2.

(** The filter [enhanceInlineSVG] assigns to the root, given the captured
    original [f]: [None] when the contrast layer assigns the text of an
    inherited value, which leaves the filter as it is. *)
Definition rootFilter (s : settings) (f : string) : option string :=
  if contrastEnabled s then
    match contrastFilter (contrastLevel s) with
    | Some v => Some (combinedFilter f v)
    | None => None
    end
  else Some f.

(** The record [enhanceInlineSVG] works with: the one in the map, or the
    one it creates. *)
Definition recordOf (st : state) (svg : tree) : stored :=
  match enhancedElements st !! nodeId svg with
  | Some r => r
  | None => Stored (getStyle "filter" (dom st !!! nodeId svg)) (Some [])
  end.

(** The record of [svg], if any, was made by [enhanceInlineSVG]. *)
Definition inlineReady (st : state) (svg : tree) : bool :=
  match modifiedShapes (recordOf st svg) with Some _ => true | None => false end.

(** *** Vocabulary of the statements *)

(** The observations of an element, grouped by the layer that writes them. *)
Definition obsOutline (e : elem) :=
  (getAttribute "stroke" e, getAttribute "stroke-width" e,
   getAttribute data_stroke e, getAttribute data_stroke_width e,
   getAttribute data_paint_order e, getStyle "paint-order" e,
   classContains cls_outlined e).

Definition obsFocus (e : elem) :=
  (getAttribute "tabindex" e, getAttribute data_added_tabindex e,
   classContains cls_focusable e).

Definition obsHighlight (e : elem) := classContains cls_highlightable e.

Definition obsRoot (e : elem) :=
  (getStyle "filter" e, classContains cls_enhanced e,
   classContains cls_enhanced_img e).

(** [a || ''] read back by [if (a)]: an attribute comes back unless it was
    present and empty. *)
Definition unlessEmpty (o : option string) : option string :=
  match o with
  | Some v => if Str.truthy v then Some v else None
  | None => None
  end.

Definition markers : list string :=
  [cls_enhanced; cls_enhanced_img; cls_outlined; cls_highlightable;
   cls_focusable].

(** An element that carries nothing of the engine: none of its [data-*]
    attributes, none of its classes. *)
Definition pristine (e : elem) : bool :=
  negb (hasAttribute data_stroke e) && negb (hasAttribute data_stroke_width e)
  && negb (hasAttribute data_paint_order e)
  && negb (hasAttribute data_added_tabindex e)
  && forallb (λ c, negb (classContains c e)) markers.

Definition pristineGraphic (h : heap) (el : tree) : bool :=
  forallb (λ d, pristine (h !!! nodeId d)) (subtrees el).

(** [r] shows the tracked attributes of [e] and no marker class. On an
    element the outline layer wrote to ([written]), a [stroke] or
    [stroke-width] that was present and empty is gone. *)
Definition tracked (written : bool) (e r : elem) : Prop :=
  getAttribute "stroke" r
    = (if written then unlessEmpty (getAttribute "stroke" e)
       else getAttribute "stroke" e)
  ∧ getAttribute "stroke-width" r
    = (if written then unlessEmpty (getAttribute "stroke-width" e)
       else getAttribute "stroke-width" e)
  ∧ getAttribute "tabindex" r = getAttribute "tabindex" e
  ∧ getStyle "paint-order" r = getStyle "paint-order" e
  ∧ getStyle "filter" r = getStyle "filter" e
  ∧ ∀ c, c ∈ markers → classContains c r = false.

Definition inlineKind (info : svgInfo) : bool :=
  match type info with inline | lottie => true | _ => false end.

(** [enhance] runs the outline layer on the element [d] of the graphic:
    the engine is enabled, the treatment is the inline one with outlines
    enabled, and [d] is a shape outside [clipPath], [mask] and [defs]. *)
Definition outlined (root : tree) (s : settings) (h : heap) (info : svgInfo)
    (d : tree) : bool :=
  enabled s && inlineKind info && outlines root s h d.

Definition embeddedKind (info : svgInfo) : bool :=
  match type info with object | embed => true | _ => false end.

(** The treatment of the graphic is recorded under its primary node: an
    [<svg>] for the inline kinds, another element for the others, and for
    a plugin-embedded graphic no inline root that can be reached. *)
Definition treatedInPlace (B : browser) (h : heap) (info : svgInfo) : bool :=
  match type info with
  | inline | lottie => String.eqb (tagName (element info)) "svg"
  | img => negb (String.eqb (tagName (element info)) "svg")
  | object | embed =>
      negb (String.eqb (tagName (element info)) "svg")
      && match svgDocument B (nodeId (element info)) with
         | Document doc =>
             match querySelector h sel_svg doc with
             | Some _ => false
             | None => true
             end
         | _ => true
         end
  end.

(** The state a completion carries. *)
Definition stateOf (c : completion) : state :=
  match c with Normal st => st | Thrown st => st end.

End Enhancer.

(** ** Scenarios *)

Module Scenarios.
Import Dom Detector Enhancer.

(** *** Pages *)

(** [<html><head></head><body></body></html>] *)
Definition emptyPage : tree :=
  Node 0 "#document" None
    [Node 1 "html" None [Node 2 "head" None []; Node 3 "body" None []]].

(** A [<div>] whose shadow root holds a [<span>] whose shadow root holds
    an [<svg>]. *)
Definition nestedHost : tree :=
  Node 10 "div"
    (Some (Node 11 "#document-fragment" None
       [Node 12 "span"
          (Some (Node 13 "#document-fragment" None [Node 14 "svg" None []]))
          []]))
    [].

Definition svg15 : tree := Node 15 "svg" None [].
Definition svg20 : tree := Node 20 "svg" None [].
Definition svg31 : tree := Node 31 "svg" None [].

(** A body that holds an [<svg>]. *)
Definition svgPage : tree :=
  Node 0 "#document" None
    [Node 1 "html" None [Node 2 "head" None []; Node 3 "body" None [svg20]]].

(** A body that holds the nested hosts. *)
Definition shadowPage : tree :=
  Node 0 "#document" None
    [Node 1 "html" None [Node 2 "head" None []; Node 3 "body" None [nestedHost]]].

(** A body that holds a [<lottie-player>] that has rendered nothing yet. *)
Definition lottiePage : tree :=
  Node 0 "#document" None
    [Node 1 "html" None
       [Node 2 "head" None [];
        Node 3 "body" None [Node 30 "lottie-player" None []]]].

(** [<img src="icon.svg">] *)
Definition imgEl : tree := Node 50 "img" None [].
Definition imgDom : heap := {[ 50 := Elem {[ "src" := "icon.svg" ]} ∅ ∅ ]}.

(** *** Graphics and settings *)

Definition plainBrowser : browser :=
  Browser (λ _, NoDocument) (λ _, None) (λ _, Some "auto").

(** [<svg><path fill="red"/></svg>] *)
Definition redPathSvg : tree := Node 1 "svg" None [Node 2 "path" None []].
Definition redPathDom : heap := {[ 2 := Elem {[ "fill" := "red" ]} ∅ ∅ ]}.
Definition redPath : svgInfo := SvgInfo inline redPathSvg None.

(** [<svg><path stroke=""/><path/></svg>] *)
Definition emptyStrokeSvg : tree :=
  Node 1 "svg" None [Node 2 "path" None []; Node 3 "path" None []].
Definition emptyStrokeDom : heap := {[ 2 := Elem {[ "stroke" := "" ]} ∅ ∅ ]}.
Definition emptyStroke : svgInfo := SvgInfo inline emptyStrokeSvg None.

(** [<svg><path stroke="green"/></svg>] *)
Definition greenStrokeSvg : tree := Node 1 "svg" None [Node 2 "path" None []].
Definition greenStrokeDom : heap :=
  {[ 2 := Elem {[ "stroke" := "green" ]} ∅ ∅ ]}.
Definition greenStroke : svgInfo := SvgInfo inline greenStrokeSvg None.

(** [<img src="icon.svg">] as a graphic *)
Definition icon : svgInfo := SvgInfo img imgEl None.

(** An [<object>] whose document holds [<svg><path/></svg>]. *)
Definition objectEl : tree := Node 30 "object" None [].
Definition innerDoc : tree :=
  Node 40 "#document" None [Node 41 "svg" None [Node 42 "path" None []]].
Definition objectGraphic : svgInfo := SvgInfo object objectEl None.

(** The document of the object can be read. *)
Definition sameOrigin : browser :=
  Browser (λ i, if decide (i = 30) then Document innerDoc else NoDocument)
          (λ _, None) (λ _, Some "auto").

(** Reading the document of the object raises. *)
Definition crossOrigin : browser :=
  Browser (λ _, Denied) (λ _, None) (λ _, Some "auto").

(** The default settings with [outlineColor: "#00F", outlineWidth: 3]. *)
Definition blueOutline : settings :=
  Settings true true "#00F" 3 true "high" true "#FFFF00" true.

(** The same with [outlineEnabled: false]. *)
Definition noOutline : settings :=
  Settings true false "#00F" 3 true "high" true "#FFFF00" true.

(** The same with [enabled: false]. *)
Definition allOff : settings :=
  Settings false true "#00F" 3 true "high" true "#FFFF00" true.

(** [{ contrastEnabled: true, contrastLevel: "maximum",
    outlineEnabled: false }] over the default settings. *)
Definition maximumContrast : settings :=
  Settings true false "#000000" 2 true "maximum" true "#FFFF00" true.

(** A page the enhancer has not touched. *)
Definition fresh (h : heap) : state := State h ∅.

End Scenarios.

(** ** The composed page *)

Module Composed.
Import Dom Detector.

(** An element followed by everything below it in the composed page: its
    light descendants and the content of every shadow tree, at any depth.
    A shadow root is not an element and is left out. *)
Fixpoint inclusive (t : tree) : list tree :=
  match t with
  | Node _ _ sh ks =>
      t :: match sh with
           | Some (Node _ _ _ ks') => flat_map inclusive ks'
           | None => []
           end
        ++ flat_map inclusive ks
  end.

(** The elements below [root], shadow trees included. *)
Definition composedDescendants (root : tree) : list tree :=
  flat_map inclusive (children root).

(** Every observer that exists in [w] exists in [w'], with the callback it
    had and on no node it was not registered on. *)
Definition shrinks (w w' : world) : Prop :=
  ∀ i o, registry w !! i = Some o →
    ∃ o', registry w' !! i = Some o'
          ∧ callback o' = callback o ∧ targets o' ⊆ targets o.

(** Between [w] and [w'] the callback stayed the same, the seen-set and
    the trace of calls grew, and with a callback in place every node that
    became seen was reported by one of the calls made in between. *)
Definition accounts (w w' : world) : Prop :=
  onSVGDetected (this w') = onSVGDetected (this w)
  ∧ detectedSVGs (this w) ⊆ detectedSVGs (this w')
  ∧ ∃ new,
      calls w' = calls w ++ new
      ∧ (is_Some (onSVGDetected (this w)) →
         ∀ x, x ∈ detectedSVGs (this w') →
           x ∈ detectedSVGs (this w) ∨ x ∈ reportedNode <$> new).

(** [t] is a light descendant of [node], or a light descendant of the
    shadow root of [node] or of one of its light descendants. *)
Definition covered (node t : tree) : Prop :=
  t ∈ descendants node
  ∨ ∃ host sr, host ∈ subtrees node ∧ shadowRoot host = Some sr
               ∧ t ∈ descendants sr.

(** [tagName === 'lottie-player' || tagName === 'dotlottie-player'] *)
Definition animationPlayer (node : tree) : bool :=
  String.eqb (tagName node) "lottie-player"
  || String.eqb (tagName node) "dotlottie-player".

(** The [<svg>] elements that [checkNodeForSVG] looks at when [node] is
    added: [node] itself when it is one, none when it is an animation
    player, and otherwise the ones [node] covers. *)
Definition reachedByHandler (node t : tree) : Prop :=
  if String.eqb (tagName node) "svg" then t = node
  else if animationPlayer node then False
  else tagName t = "svg" ∧ covered node t.

(** What the walker reaches from an element, and from a list of
    siblings. *)
Definition reached (t x : tree) : Prop :=
  x ∈ subtrees t ∨ ∃ s, s ∈ shadowRootsUnder t ∧ x ∈ descendants s.

Definition reachedBelow (ks : list tree) (x : tree) : Prop :=
  x ∈ flat_map subtrees ks
  ∨ ∃ s, s ∈ flat_map shadowRootsUnder ks ∧ x ∈ descendants s.

(** An entry of [detectLottieContainers] is an [<svg>] of the composed
    page, of kind [lottie]. *)
Definition lottieEntry (doc : tree) (info : svgInfo) : Prop :=
  type info = lottie ∧ tagName (element info) = "svg"
  ∧ element info ∈ composedDescendants doc.

(** What [detectExisting] says of an element by the kind it gives it; the
    [type] of an [<object>] or [<embed>] is read up to ASCII case. *)
Definition classified (h : heap) (info : svgInfo) : Prop :=
  let e := h !!! nodeId (element info) in
  match type info with
  | inline => tagName (element info) = "svg" ∧ container info = None
  | img =>
      tagName (element info) = "img"
      ∧ ∃ src, getAttribute "src" e = Some src
               ∧ (Str.endsWith ".svg" src = true ∨ Str.includes ".svg?" src = true)
  | object =>
      tagName (element info) = "object"
      ∧ ((∃ ty, getAttribute "type" e = Some ty
                ∧ Str.asciiLower ty = "image/svg+xml")
         ∨ ∃ data, getAttribute "data" e = Some data
                   ∧ Str.endsWith ".svg" data = true)
  | embed =>
      tagName (element info) = "embed"
      ∧ ((∃ ty, getAttribute "type" e = Some ty
                ∧ Str.asciiLower ty = "image/svg+xml")
         ∨ ∃ src, getAttribute "src" e = Some src
                  ∧ Str.endsWith ".svg" src = true)
  | lottie => tagName (element info) = "svg"
  end.

End Composed.

(** ** Records of the enhancer *)

Module Records.
Import Dom Enhancer.

(** The records kept for the [<svg>] elements among [nodes] were made by
    the inline treatment: they list the modified shapes. *)
Definition inlineRecords (nodes : list tree) (m : gmap nat stored) : Prop :=
  ∀ d r, d ∈ nodes → tagName d = "svg" →
    m !! nodeId d = Some r → modifiedShapes r ≠ None.

(** The kind of a report fits its element: the inline treatment is asked
    for an [<svg>], the others for another element. *)
Definition fitsKind (info : svgInfo) : Prop :=
  match type info with
  | inline | lottie => tagName (element info) = "svg"
  | _ => tagName (element info) ≠ "svg"
  end.

(** The store [m'] is the store [m], or [m] with an inline record under
    [i]. *)
Definition inlineStep (i : nat) (m m' : gmap nat stored) : Prop :=
  m' = m ∨ ∃ f l, m' = <[i := Stored f (Some l)]> m.

(** The elements [restoreAll] visits. *)
Definition marked (h : heap) (doc : tree) : list tree :=
  querySelectorAll h
    (sel_or [sel_class cls_enhanced; sel_class cls_enhanced_img]) doc.

(** What the outline stage of [enhanceInlineSVG] leaves on an element;
    [n] is the number of times the element is listed in the record. *)
Definition outlineStage (root : tree) (s : settings) (d : tree) (n : nat)
    (e : elem) : elem :=
  if outlineEnabled s then
    if sel_shape (tagName d) e && negb (skipped root d)
    then outlineLocal s e else e
  else Nat.iter n restoreShape e.

(** The class [restore] takes from the element it is called on. *)
Definition ownMarker (el : tree) : string :=
  if String.eqb (tagName el) "svg" then cls_enhanced else cls_enhanced_img.

(** No element has a class in [h'] that it had not in [h]. *)
Definition classesShrink (h h' : heap) : Prop :=
  ∀ k c, classContains c (h' !!! k) = true → classContains c (h !!! k) = true.

End Records.

(** ** ShinyStorage *)

Module Storage.

(** The values a settings object holds. *)
Inductive value : Type :=
  | Bool (b : bool)
  | Number (n : Z)
  | Text (s : string).

#[global] Instance value_eq_dec : EqDecision value.
Proof. solve_decision. Defined.

Abbreviation object := (gmap string value).

(** [ShinyStorage.defaultSettings] *)
Definition defaultSettings : object :=
  list_to_map
    [("enabled", Bool true);
     ("outlineEnabled", Bool true);
     ("outlineColor", Text "#000000");
     ("outlineWidth", Number 2);
     ("contrastEnabled", Bool true);
     ("contrastLevel", Text "high");
     ("highlightEnabled", Bool true);
     ("highlightColor", Text "#FFFF00");
     ("focusIndicators", Bool true);
     ("imageHdrEnabled", Bool false);
     ("imageHdrIntensity", Text "medium")].

(** One area of [chrome.storage]: the item kept under the key
    ['settings'], and whether the area rejects a [get] or a [set]. *)
Record area : Type := Area {
  settingsItem : option object;
  getRejects : bool;
  setRejects : bool
}.

(** [chrome.storage] *)
Record storage : Type := Chrome {
  sync : area;
  local : area
}.

(** How the promise of an [async] method settles. *)
Inductive settled : Type :=
  | Resolved (c : storage)
  | Rejected (c : storage).

(** [{ ...this.defaultSettings, ...result.settings }]: a later key wins,
    and spreading [undefined] adds nothing. *)
Definition withDefaults (stored : option object) : object :=
  default ∅ stored ∪ defaultSettings.

(** [area.set({ settings })] on an area that accepts it *)
Definition store (s : object) (a : area) : area :=
  Area (Some s) (getRejects a) (setRejects a).

(** [get()] *)
Definition get (c : storage) : object :=
  if getRejects (sync c) then
    if getRejects (local c) then defaultSettings
    else withDefaults (settingsItem (local c))
  else withDefaults (settingsItem (sync c)).

(** [set(settings)] *)
Definition set (s : object) (c : storage) : settled :=
  if setRejects (sync c) then
    if setRejects (local c) then Rejected c
    else Resolved (Chrome (sync c) (store s (local c)))
  else Resolved (Chrome (store s (sync c)) (local c)).

(** [reset()] *)
Definition reset (c : storage) : settled := set defaultSettings c.

(** The object the background worker writes on installation. *)
Definition installedSettings : object :=
  list_to_map
    [("enabled", Bool true);
     ("outlineEnabled", Bool true);
     ("outlineColor", Text "#000000");
     ("outlineWidth", Number 2);
     ("contrastEnabled", Bool true);
     ("contrastLevel", Text "high");
     ("highlightEnabled", Bool true);
     ("highlightColor", Text "#FFFF00");
     ("focusIndicators", Bool true)].

(** The listener of [chrome.runtime.onInstalled], for [details.reason]. *)
Definition onInstalled (reason : string) (c : storage) : settled :=
  if String.eqb reason "install" then
    if setRejects (sync c) then Rejected c
    else Resolved (Chrome (store installedSettings (sync c)) (local c))
  else Resolved c.

(** The storage a settled promise leaves. *)
Definition storageOf (r : settled) : storage :=
  match r with Resolved c => c | Rejected c => c end.

End Storage.

(** ** The content script *)

Module Content.
Import Dom Enhancer.
Import Detector (sel_img_svg, sel_object_svg).

(** A settings snapshot as the content script reads it: the fields of the
    enhancer and the two of the image treatment. *)
Record snapshot : Type := Snapshot {
  graphics : Enhancer.settings;
  imageHdrEnabled : bool;
  imageHdrIntensity : string
}.

(** The page the script runs in: the browser, the document, and the [src]
    property of an element (the resolved address; [undefined] on an
    element that has none). *)
Record page : Type := Page {
  agent : browser;
  document : tree;
  src : nat → option string
}.

(** The fields of [Shiny] that change after [init]: the settings and the
    enhancer, whose state holds the element data of the page. *)
Record shiny : Type := Shiny {
  settings : option snapshot;
  enhancer : state
}.

(** How a method of [Shiny] ends. *)
Inductive outcome : Type :=
  | Returned (sh : shiny)
  | Raised (sh : shiny).

Definition shinyOf (o : outcome) : shiny :=
  match o with Returned sh => sh | Raised sh => sh end.

(** A method of the enhancer run on behalf of [Shiny]. *)
Definition lift (S : option snapshot) (c : completion) : outcome :=
  match c with
  | Normal st => Returned (Shiny S st)
  | Thrown st => Raised (Shiny S st)
  end.

(** *** Image treatment *)

Definition cls_hdr : string := "shiny-hdr".

(** The tokens of [classList.remove('shiny-hdr', 'shiny-hdr-low',
    'shiny-hdr-medium', 'shiny-hdr-high')] *)
Definition hdrTokens : list string :=
  [cls_hdr; "shiny-hdr-low"; "shiny-hdr-medium"; "shiny-hdr-high"].

Definition clearHdr (e : elem) : elem :=
  foldl (λ e c, classRemove c e) e hdrTokens.

(** [`shiny-hdr-${this.settings.imageHdrIntensity}`] *)
Definition intensityToken (s : snapshot) : string :=
  "shiny-hdr-" ++ imageHdrIntensity s.

(** ASCII whitespace: tab, line feed, form feed, carriage return, space. *)
Definition asciiWhitespace (a : Ascii.ascii) : bool :=
  bool_decide (Ascii.nat_of_ascii a ∈ [9; 10; 12; 13; 32]%nat).

(** [DOMTokenList.add] accepts the token: it is not empty and holds no
    ASCII whitespace. *)
Definition validToken (t : string) : bool :=
  negb (String.eqb t "")
  && forallb (λ a, negb (asciiWhitespace a)) (String.list_ascii_of_string t).

(** [!this.settings?.enabled || !this.settings?.imageHdrEnabled] fails *)
Definition hdrActive (S : option snapshot) : option snapshot :=
  match S with
  | Some s => if enabled (graphics s) && imageHdrEnabled s then Some s else None
  | None => None
  end.

(** The two [classList] statements that end [applyHdrToImage] and
    [applyHdrToVideo]; [add] validates its tokens before it adds any. *)
Definition markHdr (s : snapshot) (el : tree) (st : state) : completion :=
  let st1 := with_dom (update (nodeId el) clearHdr) st in
  if validToken (intensityToken s) then
    Normal (with_dom (update (nodeId el)
                        (λ e, classAdd (intensityToken s) (classAdd cls_hdr e)))
                     st1)
  else Thrown st1.

(** [img.src?.endsWith('.svg') || img.src?.includes('.svg?')] *)
Definition svgSource (address : option string) : bool :=
  match address with
  | Some u => Str.endsWith ".svg" u || Str.includes ".svg?" u
  | None => false
  end.

(** [applyHdrToImage(img)] *)
Definition applyHdrToImage (P : page) (S : option snapshot) (st : state)
    (img : tree) : completion :=
  match hdrActive S with
  | None => Normal st
  | Some s =>
      if svgSource (src P (nodeId img)) then Normal st else markHdr s img st
  end.

(** [applyHdrToVideo(video)] *)
Definition applyHdrToVideo (S : option snapshot) (st : state)
    (video : tree) : completion :=
  match hdrActive S with
  | None => Normal st
  | Some s => markHdr s video st
  end.

(** The two loops that [applyImageHdr] and the image observer run over a
    node. *)
Definition applyHdrBelow (P : page) (S : option snapshot) (node : tree)
    (st : state) : completion :=
  match forEach (applyHdrToImage P S)
                (querySelectorAll (dom st) (sel_tag "img") node) st with
  | Normal st1 =>
      forEach (applyHdrToVideo S)
              (querySelectorAll (dom st1) (sel_tag "video") node) st1
  | Thrown st1 => Thrown st1
  end.

(** [applyImageHdr()] *)
Definition applyImageHdr (P : page) (S : option snapshot) (st : state)
  : completion :=
  match hdrActive S with
  | None => Normal st
  | Some _ => applyHdrBelow P S (document P) st
  end.

(** [removeImageHdr()] *)
Definition removeImageHdr (P : page) (st : state) : state :=
  with_dom (λ h, foldl (λ h el, update (nodeId el) clearHdr h) h
                       (querySelectorAll h (sel_class cls_hdr) (document P)))
           st.

(** The callback of [imageObserver], for one added element; the tag of an
    HTML element reads in upper case in [tagName]. *)
Definition imageAdded (P : page) (S : option snapshot) (node : tree)
    (st : state) : completion :=
  if String.eqb (tagName node) "img" then applyHdrToImage P S st node
  else if String.eqb (tagName node) "video" then applyHdrToVideo S st node
  else applyHdrBelow P S node st.

(** *** Graphics *)

(** [onSVGDetected(svgInfo)] *)
Definition onSVGDetected (P : page) (info : svgInfo) (sh : shiny) : outcome :=
  match settings sh with
  | Some s =>
      if enabled (graphics s)
      then lift (settings sh)
                (enhance (agent P) (document P) info (graphics s) (enhancer sh))
      else Returned sh
  | None => Returned sh
  end.

(** [reenhanceAll()], with [this.settings] at hand *)
Definition reenhanceAll (P : page) (s : Enhancer.settings) (st : state)
  : completion :=
  let again kind st el :=
    enhance (agent P) (document P) (SvgInfo kind el None) s st in
  match forEach (again inline)
                (querySelectorAll (dom st) sel_svg (document P)) st with
  | Normal st1 =>
      match forEach (again img)
                    (querySelectorAll (dom st1) sel_img_svg (document P)) st1 with
      | Normal st2 =>
          forEach (again object)
                  (querySelectorAll (dom st2) sel_object_svg (document P)) st2
      | Thrown st2 => Thrown st2
      end
  | Thrown st1 => Thrown st1
  end.

(** [onSettingsChanged(newSettings)] *)
Definition onSettingsChanged (P : page) (newSettings : snapshot) (sh : shiny)
  : outcome :=
  let wasEnabled :=
    match settings sh with Some s => enabled (graphics s) | None => false end in
  let wasHdrEnabled :=
    match settings sh with Some s => imageHdrEnabled s | None => false end in
  let S := Some newSettings in
  if negb (enabled (graphics newSettings)) && wasEnabled then
    match restoreAll (document P) (enhancer sh) with
    | Normal st1 => Returned (Shiny S (removeImageHdr P st1))
    | Thrown st1 => Raised (Shiny S st1)
    end
  else if enabled (graphics newSettings) then
    match reenhanceAll P (graphics newSettings) (enhancer sh) with
    | Normal st1 =>
        if imageHdrEnabled newSettings then
          lift S (applyImageHdr P S (removeImageHdr P st1))
        else if wasHdrEnabled then Returned (Shiny S (removeImageHdr P st1))
        else Returned (Shiny S st1)
    | Thrown st1 => Raised (Shiny S st1)
    end
  else Returned (Shiny S (enhancer sh)).

(** *** Vocabulary of the statements *)

(** What the image treatment leaves on an element it marks. *)
Definition hdrView (s : snapshot) (e : elem) : elem :=
  classAdd (intensityToken s) (classAdd cls_hdr (clearHdr e)).

(** The identities of the elements the image treatment marks below
    [node]: the images whose address is not an SVG file, and the videos. *)
Definition hdrTargets (P : page) (node : tree) : list nat :=
  nodeId <$> filter (λ d, (tagName d = "img" ∧ svgSource (src P (nodeId d)) = false)
                          ∨ tagName d = "video")
                    (descendants node).

(** The elements [applyImageHdr] marks below [node], in the order in
    which it meets them: the images whose address is not an SVG file, in
    document order, then the videos, in document order. *)
Definition hdrOrder (P : page) (node : tree) : list tree :=
  filter (λ d, tagName d = "img" ∧ svgSource (src P (nodeId d)) = false)
         (descendants node)
  ++ filter (λ d, tagName d = "video") (descendants node).

(** The identities of the elements the image observer marks when [node]
    is added: [node] itself when it is an image (with an address that is
    not an SVG file) or a video, and otherwise the targets below it. *)
Definition insertedTargets (P : page) (node : tree) : list nat :=
  if String.eqb (tagName node) "img" then
    if svgSource (src P (nodeId node)) then [] else [nodeId node]
  else if String.eqb (tagName node) "video" then [nodeId node]
  else hdrTargets P node.

End Content.

(** ** More scenarios *)

Module Cases.
Import Dom Detector Enhancer Content Scenarios.

(** A body with a photo, an image that refers to an SVG file, a video and
    an inline graphic. *)
Definition mediaPage : tree :=
  Node 0 "#document" None
    [Node 1 "html" None
       [Node 2 "head" None [];
        Node 3 "body" None
          [Node 50 "img" None []; Node 51 "img" None [];
           Node 52 "video" None [];
           Node 20 "svg" None [Node 21 "path" None []]]]].

Definition mediaDom : heap :=
  {[ 50 := Elem {[ "src" := "photo.png" ]} ∅ ∅;
     51 := Elem {[ "src" := "icon.svg" ]} ∅ ∅ ]}.

(** The addresses as the browser resolves them. *)
Definition mediaSrc (i : nat) : option string :=
  if decide (i = 50) then Some "https://example.org/photo.png"
  else if decide (i = 51) then Some "https://example.org/icon.svg"
  else None.

Definition media : page := Page plainBrowser mediaPage mediaSrc.

(** The default settings with the image treatment on, intensity [low]. *)
Definition hdrLow : snapshot := Snapshot blueOutline true "low".

(** The same with intensity [high]. *)
Definition hdrHigh : snapshot := Snapshot blueOutline true "high".

(** The extension turned off. *)
Definition turnedOff : snapshot := Snapshot allOff false "medium".

(** The content script before any settings arrived, on the media page. *)
Definition idle : shiny := Shiny None (fresh mediaDom).

(** The inline graphic of the media page, as the detector reports it. *)
Definition mediaGraphic : svgInfo :=
  SvgInfo inline (Node 20 "svg" None [Node 21 "path" None []]) None.

(** The content script after the graphic was reported under [hdrLow]. *)
Definition running : shiny :=
  shinyOf (onSVGDetected media mediaGraphic (Shiny (Some hdrLow) (fresh mediaDom))).

(** A body that holds [<object type="IMAGE/SVG+XML">]. *)
Definition upperTypePage : tree :=
  Node 0 "#document" None
    [Node 1 "html" None
       [Node 2 "head" None [];
        Node 3 "body" None [Node 30 "object" None []]]].

Definition upperTypeDom : heap :=
  {[ 30 := Elem {[ "type" := "IMAGE/SVG+XML" ]} ∅ ∅ ]}.

(** [<svg><clipPath><rect/></clipPath><rect/></svg>] *)
Definition clippedSvg : tree :=
  Node 1 "svg" None
    [Node 2 "clipPath" None [Node 3 "rect" None []]; Node 4 "rect" None []].

(** [<svg><a tabindex="3"/></svg>] *)
Definition linkSvg : tree := Node 1 "svg" None [Node 2 "a" None []].
Definition linkDom : heap := {[ 2 := Elem {[ "tabindex" := "3" ]} ∅ ∅ ]}.

(** The red path, enhanced once. *)
Definition enhancedOnce : state :=
  stateOf (enhance plainBrowser redPathSvg redPath blueOutline (fresh redPathDom)).


(** The media page after its graphic and its SVG image were enhanced. *)
Definition mediaEnhanced : state :=
  stateOf (reenhanceAll media blueOutline (fresh mediaDom)).

End Cases.


(** * Properties *)

(** ** SVGDetector *)

Module DetectorFacts.
Import Dom Detector Scenarios.

Section Extends.
Context (P : svgInfo → Prop).

Lemma extends_frame w w' :
  calls w' = calls w → detectedSVGs (this w') = detectedSVGs (this w) →
  extends P w w'.
Proof.
  intros Hc Hd. split; [by rewrite Hd|].
  exists []. rewrite app_nil_r. split_and!; [done|constructor|constructor].
Qed.

Lemma extends_refl w : extends P w w.
Proof. by apply extends_frame. Qed.

Lemma extends_trans w1 w2 w3 :
  extends P w1 w2 → extends P w2 w3 → extends P w1 w3.
Proof.
  intros [Hs1 (n1 & Hc1 & Hn1 & Hf1)] [Hs2 (n2 & Hc2 & Hn2 & Hf2)].
  split; [set_solver|].
  exists (n1 ++ n2). split_and!.
  - by rewrite Hc2, Hc1, app_assoc.
  - rewrite fmap_app. apply NoDup_app. split_and!; [done| |done].
    intros x Hx1 Hx2.
    apply list_elem_of_fmap in Hx1 as (c1 & -> & Hc1').
    apply list_elem_of_fmap in Hx2 as (c2 & Heq & Hc2').
    rewrite Forall_forall in Hf1, Hf2.
    destruct (Hf1 _ Hc1') as (_ & _ & Hin).
    destruct (Hf2 _ Hc2') as (_ & Hnin & _).
    rewrite <- Heq in Hnin. done.
  - apply Forall_app. split.
    + eapply Forall_impl; [exact Hf1|]. intros c (? & ? & ?). set_solver.
    + eapply Forall_impl; [exact Hf2|]. intros c (? & ? & ?). set_solver.
Qed.

Lemma extends_foldl {A} (f : world → A → world) (l : list A) w :
  (∀ x w, x ∈ l → extends P w (f w x)) → extends P w (foldl f w l).
Proof.
  revert w. induction l as [|x l IH]; intros w Hf; simpl.
  - apply extends_refl.
  - eapply extends_trans; [apply Hf; left|].
    apply IH. intros y w' Hy. apply Hf. by right.
Qed.

Lemma registerSVG_extends info w : P info → extends P w (registerSVG info w).
Proof.
  intros HP. unfold registerSVG.
  destruct (decide _) as [Hin|Hnin]; [apply extends_refl|].
  destruct w as [doc h reg [o so det cb] cs]; simpl in *.
  destruct cb as [cb|]; simpl.
  - split; simpl; [set_solver|].
    exists [(cb, info)]. split_and!; [done|apply NoDup_singleton|].
    constructor; [|constructor]. unfold reportedNode; simpl. set_solver.
  - split; simpl; [set_solver|].
    exists []. rewrite app_nil_r. split_and!; [done|constructor|constructor].
Qed.

End Extends.

Lemma extends_weaken (P Q : svgInfo → Prop) w w' :
  (∀ i, P i → Q i) → extends P w w' → extends Q w w'.
Proof.
  intros HPQ [Hs (n & Hc & Hn & Hf)]. split; [done|].
  exists n. split_and!; [done..|].
  eapply Forall_impl; [exact Hf|]. intros c (? & ? & ?). auto.
Qed.

Section Frames.
Context (P : svgInfo → Prop).

Lemma observe_extends obs target w : extends P w (observe obs target w).
Proof. by apply extends_frame. Qed.

Lemma disconnect_extends obs w : extends P w (disconnect obs w).
Proof. by apply extends_frame. Qed.

Lemma observeLottieContainer_extends c w :
  extends P w (observeLottieContainer c w).
Proof.
  apply extends_frame; unfold observeLottieContainer; simpl;
    by destruct (shadowRoot c).
Qed.

Lemma observeShadowRoot_extends sr w : extends P w (observeShadowRoot sr w).
Proof.
  apply extends_frame; unfold observeShadowRoot; by destruct (decide _).
Qed.

Lemma observeShadowRoot_elements sr w :
  elements (observeShadowRoot sr w) = elements w.
Proof. unfold observeShadowRoot; by destruct (decide _). Qed.

Lemma stop_extends w : extends P w (stop w).
Proof.
  apply extends_frame; unfold stop; by destruct (observer (this w)).
Qed.

Lemma lottieTimeout_extends obs w : extends P w (lottieTimeout obs w).
Proof.
  apply extends_frame; unfold lottieTimeout;
    by destruct (registry w !! obs) as [[[] ?]|].
Qed.

Lemma observeDynamicContent_extends w : extends P w (observeDynamicContent w).
Proof.
  unfold observeDynamicContent. simpl.
  destruct (documentBody _); [|by apply extends_frame].
  eapply extends_trans; [|apply extends_foldl; intros; apply observeShadowRoot_extends].
  by apply extends_frame.
Qed.

End Frames.

Lemma querySelectorAll_svg h root t :
  t ∈ querySelectorAll h sel_svg root → tagName t = "svg".
Proof.
  unfold querySelectorAll. rewrite list_elem_of_filter. intros [Hm _].
  unfold matches, sel_svg, sel_tag in Hm. by apply String.eqb_eq.
Qed.

Lemma querySelector_svg h root t :
  querySelector h sel_svg root = Some t → tagName t = "svg".
Proof.
  unfold querySelector. intros H. apply (querySelectorAll_svg h root).
  destruct (querySelectorAll h sel_svg root); [done|].
  simpl in H. injection H as ->. left.
Qed.

Lemma registerInline_extends w svg :
  tagName svg = "svg" → extends inlineSVG w (registerInline w svg).
Proof.
  intros Ht. apply registerSVG_extends. split; [by left|done].
Qed.

Lemma checkShadowHost_extends w el : extends inlineSVG w (checkShadowHost w el).
Proof.
  unfold checkShadowHost. destruct (shadowRoot el) as [sr|]; [|apply extends_refl].
  eapply extends_trans; [apply observeShadowRoot_extends|].
  apply extends_foldl. intros svg w' Hin. apply registerInline_extends.
  by eapply querySelectorAll_svg.
Qed.

Lemma checkNodeForSVG_extends node w :
  extends inlineSVG w (checkNodeForSVG node w).
Proof.
  unfold checkNodeForSVG.
  destruct (String.eqb (tagName node) "svg") eqn:Hsvg.
  { apply registerInline_extends. by apply String.eqb_eq. }
  destruct (_ || _); [apply observeLottieContainer_extends|].
  eapply extends_trans; [|apply checkShadowHost_extends].
  eapply extends_trans; [|apply extends_foldl; intros; apply checkShadowHost_extends].
  eapply extends_trans;
    [|apply extends_foldl; intros; apply observeLottieContainer_extends].
  apply extends_foldl. intros svg w' Hin. apply registerInline_extends.
  by eapply querySelectorAll_svg.
Qed.

Lemma renderedSVG_svg h c svg : renderedSVG h c = Some svg → tagName svg = "svg".
Proof.
  unfold renderedSVG. destruct (querySelector h sel_svg c) eqn:H1.
  - intros [= <-]. by eapply querySelector_svg.
  - destruct (shadowRoot c); [|done]. apply querySelector_svg.
Qed.

Lemma lottieCallback_extends obs c w :
  extends inlineSVG w (lottieCallback obs c w).
Proof.
  unfold lottieCallback. destruct (findNode c (document w)); [|apply extends_refl].
  destruct (renderedSVG _ _) eqn:Hr; [|apply extends_refl].
  eapply extends_trans; [|apply disconnect_extends].
  apply registerSVG_extends. split; [by right|]. by eapply renderedSVG_svg.
Qed.

Lemma runCallback_extends added w obs :
  extends inlineSVG w (runCallback added w obs).
Proof.
  unfold runCallback. destruct (registry w !! obs) as [o|]; [|apply extends_refl].
  destruct (callback o); [apply checkNodeForSVG_extends|apply lottieCallback_extends].
Qed.

Lemma insert_extends parent sub w : extends inlineSVG w (insert parent sub w).
Proof.
  unfold insert. eapply extends_trans; [|apply extends_foldl; intros; apply runCallback_extends].
  by apply extends_frame.
Qed.

Lemma detectLottieContainers_extends P w :
  extends P w (detectLottieContainers w).2.
Proof.
  unfold detectLottieContainers.
  set (m1 := foldl _ [] _). generalize m1. clear m1. intros m1.
  set (l := querySelectorAllDeep _ sel_lottie_player _). generalize l. clear l. intros l.
  set (h := elements w). generalize h; clear h; intros h.
  set (f := (λ '(acc, w0) p, match renderedSVG h p with
        | Some svg => (acc ++ [SvgInfo lottie svg (Some p)], w0)
        | None => (acc, observeLottieContainer p w0) end)).
  assert (∀ l acc w0, extends P w0 (foldl f (acc, w0) l).2) as Hfold.
  { clear. intros l. induction l as [|p l IH]; intros acc w0; simpl; [apply extends_refl|].
    destruct (renderedSVG h p); [apply IH|].
    eapply extends_trans; [apply observeLottieContainer_extends|apply IH]. }
  specialize (Hfold l m1 w). destruct (foldl f (m1, w) l) as [m2 w2]. done.
Qed.

Lemma start_extends cb w : extends (λ _, True) w (start cb w).
Proof.
  unfold start.
  set (w1 := with_this _ w).
  assert (extends (λ _, True) w w1) as H1 by by apply extends_frame.
  eapply extends_trans; [exact H1|].
  unfold detectExisting.
  pose proof (detectLottieContainers_extends (λ _, True) w1) as H2.
  destruct (detectLottieContainers w1) as [lotties w2]; simpl in H2.
  eapply extends_trans; [exact H2|].
  eapply extends_trans; [|apply observeDynamicContent_extends].
  apply extends_foldl. intros. by apply registerSVG_extends.
Qed.

Lemma step_extends w ev : extends (λ _, True) w (step w ev).
Proof.
  destruct ev; simpl.
  - apply start_extends.
  - apply stop_extends.
  - eapply extends_weaken; [|apply insert_extends]. done.
  - apply lottieTimeout_extends.
Qed.

Lemma step_handler_extends w ev :
  isStart ev = false → extends inlineSVG w (step w ev).
Proof.
  destruct ev; simpl; [done|intros _..].
  - apply stop_extends.
  - apply insert_extends.
  - apply lottieTimeout_extends.
Qed.

Lemma run_extends w evs : extends (λ _, True) w (run w evs).
Proof. apply extends_foldl. intros. apply step_extends. Qed.

Lemma run_handler_extends w evs :
  forallb (λ ev, negb (isStart ev)) evs = true → extends inlineSVG w (run w evs).
Proof.
  intros H. apply extends_foldl. intros ev w' Hin. apply step_handler_extends.
  rewrite forallb_forall in H. apply list_elem_of_In in Hin.
  specialize (H _ Hin). by destruct (isStart ev).
Qed.

Lemma extends_seenCovers P w w' :
  extends P w w' → seenCovers w → NoDup (reported w) →
  seenCovers w' ∧ NoDup (reported w').
Proof.
  intros [Hs (n & Hc & Hn & Hf)] Hcov Hnd. unfold seenCovers, reported in *.
  rewrite Hc, map_app. rewrite Forall_forall in Hf. split.
  - intros x. rewrite elem_of_app. intros [Hx|Hx]; [by apply Hs, Hcov|].
    apply list_elem_of_fmap in Hx as (c & -> & Hc'). by apply Hf.
  - apply NoDup_app. split_and!; [done| |done].
    intros x Hx1 Hx2. apply list_elem_of_fmap in Hx2 as (c & -> & Hc').
    apply Hf in Hc' as (_ & Hnin & _). apply Hnin, Hcov, Hx1.
Qed.

Lemma reachable_seenCovers doc h evs :
  seenCovers (run (load doc h) evs) ∧ NoDup (reported (run (load doc h) evs)).
Proof.
  eapply extends_seenCovers; [apply run_extends| |constructor].
  intros x Hx. unfold reported, load in Hx. simpl in Hx. by apply elem_of_nil in Hx.
Qed.

(** *** What the detector reports *)

(** X1. No node is handed to [onSVGDetected] twice, whatever the page and the
    caller do: the part of C1 that holds. *)
Theorem reported_at_most_once doc h evs :
  NoDup (reported (run (load doc h) evs)).
Proof. apply reachable_seenCovers. Qed.

(** *** The pass of [start] over the page *)

Lemma extends_reported P w w' x : extends P w w' → x ∈ reported w → x ∈ reported w'.
Proof.
  intros [_ (new & Hnew & _)] Hx. unfold reported in *. rewrite Hnew, fmap_app.
  apply elem_of_app. by left.
Qed.

Lemma registerSVG_callback info w :
  onSVGDetected (this (registerSVG info w)) = onSVGDetected (this w).
Proof.
  unfold registerSVG. destruct (decide _); [done|].
  unfold with_this. cbn. by destruct (onSVGDetected (this w)).
Qed.

Lemma registerSVG_reports info w cb :
  onSVGDetected (this w) = Some cb →
  nodeId (element info) ∈ detectedSVGs (this w)
  ∨ nodeId (element info) ∈ reported (registerSVG info w).
Proof.
  intros Hcb. unfold registerSVG. destruct (decide _) as [Hin|Hnin]; [by left|].
  right. unfold with_this. cbn. rewrite Hcb. unfold reported. cbn. rewrite fmap_app.
  apply elem_of_app. right. cbn. left.
Qed.

Lemma registerSVG_seen info w x :
  x ∈ detectedSVGs (this (registerSVG info w)) →
  x ∈ detectedSVGs (this w) ∨ x = nodeId (element info).
Proof.
  unfold registerSVG. destruct (decide _) as [Hin|Hnin]; [by left|].
  unfold with_this. cbn. destruct (onSVGDetected (this w)); cbn;
    rewrite elem_of_union, elem_of_singleton; tauto.
Qed.

Lemma foldl_registerSVG_reports (l : list svgInfo) w cb info :
  onSVGDetected (this w) = Some cb → info ∈ l →
  nodeId (element info) ∈ detectedSVGs (this w)
  ∨ nodeId (element info) ∈ reported (foldl (λ w i, registerSVG i w) w l).
Proof.
  revert w. induction l as [|x l IH]; intros w Hcb Hin;
    [by apply elem_of_nil in Hin|].
  cbn [foldl].
  assert (extends (λ _, True) (registerSVG x w)
            (foldl (λ w i, registerSVG i w) (registerSVG x w) l)) as Hext.
  { apply extends_foldl. intros. by apply registerSVG_extends. }
  assert (onSVGDetected (this (registerSVG x w)) = Some cb) as Hcb'
    by by rewrite registerSVG_callback.
  apply elem_of_cons in Hin as [->|Hin].
  - destruct (registerSVG_reports x w cb Hcb) as [?|Hrep]; [by left|].
    right. by eapply extends_reported.
  - destruct (IH (registerSVG x w) Hcb' Hin) as [Hseen|?]; [|by right].
    apply registerSVG_seen in Hseen as [?|Heq]; [by left|].
    destruct (registerSVG_reports x w cb Hcb) as [Hs|Hrep].
    + left. by rewrite Heq.
    + right. rewrite Heq. by eapply extends_reported.
Qed.

Lemma detectLottieContainers_callback w :
  onSVGDetected (this (detectLottieContainers w).2) = onSVGDetected (this w)
  ∧ detectedSVGs (this (detectLottieContainers w).2) = detectedSVGs (this w).
Proof.
  unfold detectLottieContainers.
  set (m1 := foldl _ [] _). generalize m1. clear m1. intros m1.
  set (l := querySelectorAllDeep _ sel_lottie_player _). generalize l. clear l. intros l.
  set (h := elements w). generalize h; clear h; intros h.
  set (f := (λ '(acc, w0) p, match renderedSVG h p with
        | Some svg => (acc ++ [SvgInfo lottie svg (Some p)], w0)
        | None => (acc, observeLottieContainer p w0) end)).
  assert (∀ l acc w0,
            onSVGDetected (this (foldl f (acc, w0) l).2) = onSVGDetected (this w0)
            ∧ detectedSVGs (this (foldl f (acc, w0) l).2) = detectedSVGs (this w0))
    as Hfold.
  { clear. intros l. induction l as [|p l IH]; intros acc w0; simpl; [done|].
    destruct (renderedSVG h p); [apply IH|].
    destruct (IH acc (observeLottieContainer p w0)) as [-> ->].
    unfold observeLottieContainer. cbn. by destruct (shadowRoot p). }
  specialize (Hfold l m1 w). destruct (foldl f (m1, w) l) as [m2 w2]. done.
Qed.

(** The pass of [start] over the document hands every [<svg>] it finds, in
    the light tree or in a shadow tree at any depth, to [onSVGDetected],
    unless the node was seen before. *)
Theorem initial_pass_reports_every_svg w cb t :
  t ∈ querySelectorAllDeep (elements w) sel_svg (document w) →
  nodeId t ∈ detectedSVGs (this w) ∨ nodeId t ∈ reported (start cb w).
Proof.
  intros Ht. unfold start.
  set (w1 := with_this _ w).
  unfold detectExisting.
  destruct (detectLottieContainers_callback w1) as [Hcb Hdet].
  destruct (detectLottieContainers w1) as [lotties w2]. cbn [snd] in *.
  set (existing := _ ++ _).
  assert (SvgInfo inline t None ∈ existing) as Hin.
  { unfold existing. apply elem_of_app. left.
    apply list_elem_of_In, in_map_iff. exists t. split; [done|].
    by apply list_elem_of_In. }
  assert (onSVGDetected (this w2) = Some cb) as Hcb2 by by rewrite Hcb.
  destruct (foldl_registerSVG_reports existing w2 cb _ Hcb2 Hin) as [Hseen|Hrep].
  - left. by rewrite Hdet in Hseen.
  - right. eapply extends_reported; [apply (observeDynamicContent_extends (λ _, True))|done].
Qed.

(** C1. The detector is active and an element is appended to the body
    whose shadow tree nests another shadow tree with an [<svg>] in it: the
    [<svg>] is in the document and is never reported, and neither is an
    [<svg>] appended afterwards to the nested shadow root, which no watcher
    hears. [checkNodeForSVG] looks one shadow level below the added
    subtree, where [traverseShadowRoots] of the initial pass walks them
    all. *)
Lemma nested_shadow_insertion_unreported :
  let w := run (load emptyPage ∅) [Start 1; Insert 3 nestedHost] in
  observer (this w) = Some 0
  ∧ tagName <$> findNode 14 (document w) = Some "svg"
  ∧ reported w = []
  ∧ tagName <$> findNode 15 (document (run w [Insert 13 svg15])) = Some "svg"
  ∧ reported (run w [Insert 13 svg15]) = [].
Proof. vm_compute. done. Qed.

(** C7. After [stop()] the document-wide watcher is disconnected, but the
    shadow-root watchers and a pending animation watch stay registered:
    an [<svg>] appended to a watched shadow root, or rendered in the
    watched player, is still handed to [onSVGDetected]. [stop] drops the
    map of the shadow watchers without disconnecting them and keeps no
    reference to the animation watches. *)
Lemma stop_leaves_watchers_connected :
  let w := run (load shadowPage ∅) [Start 1; Stop] in
  let v := run (load lottiePage ∅) [Start 1; Stop] in
  observer (this w) = None
  ∧ targets <$> registry w = [[]; [11]; [13]]
  ∧ reported w = [14]
  ∧ reported (run w [Insert 13 svg15]) = [14; 15]
  ∧ observer (this v) = None
  ∧ targets <$> registry v = [[30]; []]
  ∧ reported v = []
  ∧ reported (run v [Insert 30 svg31]) = [31].
Proof. vm_compute. done. Qed.

(** C8, as stated, fails: the [<svg>] of the page is still in the document
    after [stop()] and a second [start], and the second callback is never
    called; the only call is the one of the first session. *)
Lemma restart_does_not_rereport :
  let w := run (load svgPage ∅) [Start 1; Stop; Start 2] in
  tagName <$> findNode 20 (document w) = Some "svg"
  ∧ onSVGDetected (this w) = Some 2
  ∧ calls w = [(1, SvgInfo inline svg20 None)]
  ∧ filter (λ c, fst c = 2) (calls w) = [].
Proof. vm_compute. done. Qed.

(** C8 (amended). [stop()] keeps the seen-set: in every state the page and
    the detector can reach, [stop()] followed by [start(cb)] leaves the
    set as it was, and the calls the new session makes are about nodes
    that were never reported before. *)
Theorem seen_set_survives_restart doc h evs cb :
  let w := run (load doc h) evs in
  detectedSVGs (this (stop w)) = detectedSVGs (this w)
  ∧ ∃ new,
      calls (start cb (stop w)) = calls w ++ new
      ∧ ∀ c, c ∈ new → reportedNode c ∉ reported w.
Proof.
  intros w.
  assert (detectedSVGs (this (stop w)) = detectedSVGs (this w)) as Hdet.
  { unfold stop. by destruct (observer (this w)). }
  assert (calls (stop w) = calls w) as Hcalls.
  { unfold stop. by destruct (observer (this w)). }
  split; [done|].
  destruct (start_extends cb (stop w)) as [_ (new & Hnew & _ & Hall)].
  exists new. split; [by rewrite Hnew, Hcalls|].
  intros c Hc Hin. rewrite Forall_forall in Hall.
  destruct (Hall c Hc) as (_ & Hunseen & _). apply Hunseen. rewrite Hdet.
  by apply (reachable_seenCovers doc h evs).
Qed.

(** C10. Whatever the state of the detector, the events that follow a
    [start] (insertions, timeouts, [stop]) only add calls about [<svg>]
    elements, of kind inline or animation-hosted: an [<img>], [<object>]
    or [<embed>] is never reported by a watcher, only by the pass a
    [start] runs. *)
Theorem mutation_handlers_report_inline_svg_only w evs :
  forallb (λ ev, negb (isStart ev)) evs = true →
  ∃ new,
    calls (run w evs) = calls w ++ new
    ∧ Forall (λ c, inlineSVG (snd c)
                   ∧ tagName (element (snd c)) ∉ ["img"; "object"; "embed"])
             new.
Proof.
  intros Hevs.
  destruct (run_handler_extends w evs Hevs) as [_ (new & Hnew & _ & Hall)].
  exists new. split; [done|].
  eapply Forall_impl; [exact Hall|]. intros c ([Hkind Htag] & _).
  split; [done|]. rewrite Htag.
  rewrite !not_elem_of_cons. split_and!; [done..|]. apply not_elem_of_nil.
Qed.

Lemma mutation_handlers_report_inline_svg_only_witness :
  forallb (λ ev, negb (isStart ev))
          [Insert 3 imgEl; Insert 3 svg15; LottieTimeout 0; Stop] = true
  ∧ ∃ new,
      calls (run (run (load emptyPage imgDom) [Start 1])
                 [Insert 3 imgEl; Insert 3 svg15; LottieTimeout 0; Stop])
      = calls (run (load emptyPage imgDom) [Start 1]) ++ new
      ∧ Forall (λ c, inlineSVG (snd c)
                     ∧ tagName (element (snd c)) ∉ ["img"; "object"; "embed"])
               new.
Proof.
  split; [reflexivity|].
  apply mutation_handlers_report_inline_svg_only. reflexivity.
Defined.

End DetectorFacts.

(** ** SVGEnhancer *)

Module EnhancerFacts.
Import Dom Enhancer Scenarios.

Lemma update_lookup i f (h : heap) k :
  update i f h !!! k = if decide (k = i) then f (h !!! i) else h !!! k.
Proof.
  unfold update. destruct (decide (k = i)) as [->|Hne].
  - by rewrite lookup_total_insert_eq.
  - by rewrite lookup_total_insert_ne.
Qed.

Lemma foldl_local g f l h k :
  local g f → NoDup l →
  foldl g h l !!! k = if decide (k ∈ l) then f k (h !!! k) else h !!! k.
Proof.
  intros Hg. revert h. induction l as [|j l IH]; intros h Hnd.
  - destruct (decide (k ∈ [])) as [Hin|]; [by apply elem_of_nil in Hin|done].
  - apply NoDup_cons in Hnd as [Hj Hnd]. cbn [foldl]. rewrite IH by done.
    rewrite !Hg.
    repeat case_decide; subst; try done;
      repeat match goal with H : context [_ ∈ _ :: _] |- _ =>
               rewrite elem_of_cons in H end; exfalso; tauto.
Qed.

Lemma foldl_local_idemp g f l h k :
  local g f → (∀ j e, f j (f j e) = f j e) →
  foldl g h l !!! k = if decide (k ∈ l) then f k (h !!! k) else h !!! k.
Proof.
  intros Hg Hid. revert h. induction l as [|j l IH]; intros h.
  - destruct (decide (k ∈ [])) as [Hin|]; [by apply elem_of_nil in Hin|done].
  - cbn [foldl]. rewrite IH. rewrite !Hg.
    repeat case_decide; subst; try done;
      repeat match goal with H : context [_ ∈ _ :: _] |- _ =>
               rewrite elem_of_cons in H end; exfalso; tauto.
Qed.

Lemma local_update f : local (λ h j, update j f h) (λ _, f).
Proof. intros h j k. apply update_lookup. Qed.

Lemma subtrees_unfold t : subtrees t = t :: descendants t.
Proof. by destruct t. Qed.

Lemma distinctIds_descendants t :
  distinctIds t → NoDup (nodeId <$> descendants t)
                  ∧ nodeId t ∉ nodeId <$> descendants t.
Proof.
  unfold distinctIds. rewrite subtrees_unfold, fmap_cons, NoDup_cons. tauto.
Qed.

Lemma NoDup_fmap_filter {A B} (f : A → B) (P : A → Prop) `{∀ x, Decision (P x)} l :
  NoDup (f <$> l) → NoDup (f <$> filter P l).
Proof.
  intros Hnd. eapply sublist_NoDup; [exact Hnd|].
  apply fmap_sublist, sublist_filter.
Qed.

Lemma elem_of_fmap_filter {A B} (f : A → B) (P : A → Prop) `{∀ x, Decision (P x)} l x :
  NoDup (f <$> l) → x ∈ l → f x ∈ f <$> filter P l ↔ P x.
Proof.
  intros Hnd Hx. split.
  - intros Hin. apply list_elem_of_fmap in Hin as (y & Heq & Hy).
    apply list_elem_of_filter in Hy as [HP Hy].
    assert (x = y) as ->; [|done].
    clear HP. induction l as [|z l IH]; [by apply elem_of_nil in Hx|].
    rewrite fmap_cons in Hnd. apply NoDup_cons in Hnd as [Hz Hnd].
    apply elem_of_cons in Hx as [->|Hx]; apply elem_of_cons in Hy as [->|Hy]; auto.
    + exfalso. apply Hz. rewrite Heq. by apply list_elem_of_fmap_2.
    + exfalso. apply Hz. rewrite <- Heq. by apply list_elem_of_fmap_2.
  - intros HP. apply list_elem_of_fmap_2. by apply list_elem_of_filter.
Qed.

(** The elements one loop over a node list leaves: the body ran on the
    selected descendants, and on nothing else. *)
Lemma layer_inside g f sel svg h0 h d :
  local g f → distinctIds svg → d ∈ descendants svg →
  foldl (λ h el, g h (nodeId el)) h (querySelectorAll h0 sel svg) !!! nodeId d =
    if matches h0 sel d then f (nodeId d) (h !!! nodeId d) else h !!! nodeId d.
Proof.
  intros Hg Hids Hd. apply distinctIds_descendants in Hids as [Hnd _].
  rewrite <- (foldl_fmap g h _ nodeId).
  rewrite (foldl_local g f) by (done || by apply NoDup_fmap_filter).
  unfold querySelectorAll.
  destruct (matches h0 sel d) eqn:Hm.
  - rewrite decide_True; [done|]. by apply elem_of_fmap_filter.
  - rewrite decide_False; [done|]. rewrite elem_of_fmap_filter by done. congruence.
Qed.

Lemma layer_outside g f sel svg h0 h k :
  local g f → distinctIds svg → k ∉ nodeId <$> descendants svg →
  foldl (λ h el, g h (nodeId el)) h (querySelectorAll h0 sel svg) !!! k = h !!! k.
Proof.
  intros Hg Hids Hk. apply distinctIds_descendants in Hids as [Hnd _].
  rewrite <- (foldl_fmap g h _ nodeId).
  rewrite (foldl_local g f) by (done || by apply NoDup_fmap_filter).
  rewrite decide_False; [done|]. intros Hin. apply Hk.
  apply list_elem_of_fmap in Hin as (y & -> & Hy). apply list_elem_of_fmap_2.
  unfold querySelectorAll in Hy. by apply list_elem_of_filter in Hy as [_ ?].
Qed.

Lemma filter_ext_in {A} (P Q : A → Prop) `{∀ x, Decision (P x)} `{∀ x, Decision (Q x)} (l : list A) :
  (∀ x, x ∈ l → P x ↔ Q x) → filter P l = filter Q l.
Proof.
  induction l as [|x l IH]; intros Hpq; [done|].
  rewrite !filter_cons. rewrite IH by (intros; apply Hpq; by right).
  destruct (decide (P x)) as [HP|HP]; destruct (decide (Q x)) as [HQ|HQ]; try done;
    exfalso; apply (Hpq x) in HP || apply (Hpq x) in HQ; try done; left.
Qed.

Lemma forEach_outlineShape root s svg l :
  ∀ st f l0,
  NoDup (nodeId <$> l) →
  enhancedElements st !! svg = Some (Stored f (Some l0)) →
  ∃ st',
    forEach (outlineShape root s svg) l st = Normal st'
    ∧ enhancedElements st' =
        <[svg := Stored f (Some (l0 ++ (nodeId <$>
             filter (λ d, skipped root d = false ∧ uncaptured (dom st) d = true) l)))]>
          (enhancedElements st)
    ∧ ∀ k, dom st' !!! k =
        if decide (k ∈ nodeId <$> filter (λ d, skipped root d = false) l)
        then outlineLocal s (dom st !!! k) else dom st !!! k.
Proof.
  induction l as [|x l IH]; intros st f l0 Hnd Hrec.
  { exists st. split_and!; [done| |].
    - rewrite filter_nil, fmap_nil, app_nil_r. by rewrite insert_id.
    - intros k. rewrite filter_nil, fmap_nil.
      case_decide as Hk; [by apply elem_of_nil in Hk|done]. }
  rewrite fmap_cons in Hnd. apply NoDup_cons in Hnd as [Hx Hnd].
  assert (∀ (h : heap) g d, d ∈ l → update (nodeId x) g h !!! nodeId d = h !!! nodeId d) as Hother.
  { intros h g d Hd. rewrite update_lookup. case_decide as Heq; [|done].
    exfalso. apply Hx. rewrite <- Heq. by apply list_elem_of_fmap_2. }
  assert (nodeId x ∉ nodeId <$> filter (λ d, skipped root d = false) l) as Hxr.
  { intros Hin. apply Hx. apply list_elem_of_fmap in Hin as (y & -> & Hy).
    apply list_elem_of_fmap_2. by apply list_elem_of_filter in Hy as [_ ?]. }
  cbn [forEach]. unfold outlineShape at 1.
  destruct (skipped root x) eqn:Hskip.
  { destruct (IH st f l0 Hnd Hrec) as (st' & Hrun & Hees & Hdom).
    exists st'. split_and!; [done| |].
    - rewrite Hees. rewrite filter_cons_False; [done|]. intros [? _]. congruence.
    - intros k. rewrite Hdom. rewrite (filter_cons_False _ x); [done|].
      intros ?. congruence. }
  destruct (Str.truthy_opt (getAttribute data_stroke (dom st !!! nodeId x))) eqn:Hcap;
    cbn [negb].
  - set (st1 := with_dom (update (nodeId x) (applyOutline s)) st).
    destruct (IH st1 f l0 Hnd Hrec) as (st' & Hrun & Hees & Hdom).
    assert (filter (λ d, skipped root d = false ∧ uncaptured (dom st1) d = true) l
            = filter (λ d, skipped root d = false ∧ uncaptured (dom st) d = true) l)
      as Hfilter.
    { apply filter_ext_in. intros d Hd. unfold uncaptured, st1, with_dom.
      cbn [dom]. by rewrite Hother. }
    exists st'. split_and!; [done| |].
    + rewrite Hees, Hfilter.
      rewrite (filter_cons_False _ x); [done|].
      unfold uncaptured. rewrite Hcap. intros [_ ?]. done.
    + intros k. rewrite Hdom. rewrite (filter_cons_True _ x) by done.
      rewrite fmap_cons. unfold st1, with_dom. cbn [dom]. rewrite update_lookup.
      destruct (decide (k = nodeId x)) as [->|Hne].
      * rewrite decide_False by apply Hxr. rewrite decide_True by left.
        unfold outlineLocal. by rewrite Hcap.
      * rewrite ?(decide_False (P := k = nodeId x)) by done.
        destruct (decide (k ∈ nodeId <$> filter (λ d, skipped root d = false) l)).
        -- rewrite decide_True by (by right). done.
        -- rewrite decide_False; [done|]. rewrite elem_of_cons. tauto.
  - set (st1 := with_dom (update (nodeId x) captureOriginals) st).
    assert (enhancedElements st1 !! svg = Some (Stored f (Some l0))) as -> by done.
    set (st2 := with_dom (update (nodeId x) (applyOutline s))
                  (State (dom st1) (<[svg:=Stored f (Some (l0 ++ [nodeId x]))]> (enhancedElements st1)))).
    destruct (IH st2 f (l0 ++ [nodeId x]) Hnd) as (st' & Hrun & Hees & Hdom).
    { unfold st2, with_dom. cbn [enhancedElements]. by rewrite lookup_insert_eq. }
    assert (filter (λ d, skipped root d = false ∧ uncaptured (dom st2) d = true) l
            = filter (λ d, skipped root d = false ∧ uncaptured (dom st) d = true) l)
      as Hfilter.
    { apply filter_ext_in. intros d Hd. unfold uncaptured, st2, st1, with_dom.
      cbn [dom]. by rewrite !Hother. }
    exists st'. split_and!; [done| |].
    + rewrite Hees, Hfilter. unfold st2, st1, with_dom. cbn [enhancedElements].
      rewrite insert_insert_eq.
      rewrite (filter_cons_True _ x) by (unfold uncaptured; by rewrite Hcap).
      rewrite fmap_cons. by rewrite <- app_assoc.
    + intros k. rewrite Hdom. rewrite (filter_cons_True _ x) by done.
      rewrite fmap_cons. unfold st2, st1, with_dom. cbn [dom].
      rewrite !update_lookup.
      destruct (decide (k = nodeId x)) as [->|Hne].
      * rewrite decide_False by apply Hxr.
        rewrite (decide_True (P := nodeId x ∈ _ :: _)) by left.
        rewrite ?decide_True by done.
        unfold outlineLocal. by rewrite Hcap.
      * rewrite ?(decide_False (P := k = nodeId x)) by done.
        destruct (decide (k ∈ nodeId <$> filter (λ d, skipped root d = false) l)).
        -- rewrite decide_True by (by right). done.
        -- rewrite decide_False; [done|]. rewrite elem_of_cons. tauto.
Qed.

Lemma pristine_spec e :
  pristine e = true →
  attributes e !! data_stroke = None ∧ attributes e !! data_stroke_width = None
  ∧ attributes e !! data_paint_order = None
  ∧ attributes e !! data_added_tabindex = None
  ∧ (cls_enhanced ∉ classList e) ∧ (cls_enhanced_img ∉ classList e)
  ∧ (cls_outlined ∉ classList e) ∧ (cls_highlightable ∉ classList e)
  ∧ (cls_focusable ∉ classList e).
Proof.
  unfold pristine, hasAttribute, classContains, markers. cbn [forallb].
  rewrite !andb_true_iff, !negb_true_iff, !bool_decide_eq_false.
  rewrite <- !eq_None_not_Some. tauto.
Qed.

Ltac unfold_obs :=
  unfold obsOutline, obsFocus, obsHighlight, obsRoot in *.

(** *** Reading an element after a primitive write *)

Section Primitives.
Context (a b v : string) (e : elem).

Lemma hasAttribute_get :
  hasAttribute a e = bool_decide (is_Some (getAttribute a e)).
Proof. done. Qed.

Lemma getAttribute_setAttribute :
  getAttribute a (setAttribute b v e)
  = if String.eqb b a then Some v else getAttribute a e.
Proof.
  unfold getAttribute, setAttribute; cbn. destruct (String.eqb_spec b a) as [->|].
  - apply lookup_insert_eq.
  - by apply lookup_insert_ne.
Qed.

Lemma getAttribute_removeAttribute :
  getAttribute a (removeAttribute b e)
  = if String.eqb b a then None else getAttribute a e.
Proof.
  unfold getAttribute, removeAttribute; cbn. destruct (String.eqb_spec b a) as [->|].
  - apply lookup_delete_eq.
  - by apply lookup_delete_ne.
Qed.

Lemma getAttribute_setStyle : getAttribute a (setStyle b v e) = getAttribute a e.
Proof. done. Qed.
Lemma getAttribute_removeProperty :
  getAttribute a (removeProperty b e) = getAttribute a e.
Proof. done. Qed.
Lemma getAttribute_classAdd : getAttribute a (classAdd b e) = getAttribute a e.
Proof. done. Qed.
Lemma getAttribute_classRemove :
  getAttribute a (classRemove b e) = getAttribute a e.
Proof. done. Qed.

Lemma getStyle_setStyle :
  getStyle a (setStyle b v e) = if String.eqb b a then v else getStyle a e.
Proof.
  unfold getStyle, setStyle, Str.truthy; cbn.
  destruct (String.eqb_spec b a) as [->|]; destruct (String.eqb_spec v "") as [->|];
    cbn.
  - by rewrite lookup_delete_eq.
  - by rewrite lookup_insert_eq.
  - by rewrite lookup_delete_ne.
  - by rewrite lookup_insert_ne.
Qed.

Lemma getStyle_removeProperty :
  getStyle a (removeProperty b e) = if String.eqb b a then "" else getStyle a e.
Proof.
  unfold getStyle, removeProperty; cbn. destruct (String.eqb_spec b a) as [->|].
  - by rewrite lookup_delete_eq.
  - by rewrite lookup_delete_ne.
Qed.

Lemma getStyle_setAttribute : getStyle a (setAttribute b v e) = getStyle a e.
Proof. done. Qed.
Lemma getStyle_removeAttribute : getStyle a (removeAttribute b e) = getStyle a e.
Proof. done. Qed.
Lemma getStyle_classAdd : getStyle a (classAdd b e) = getStyle a e.
Proof. done. Qed.
Lemma getStyle_classRemove : getStyle a (classRemove b e) = getStyle a e.
Proof. done. Qed.

Lemma classContains_classAdd :
  classContains a (classAdd b e) = String.eqb b a || classContains a e.
Proof.
  unfold classContains, classAdd; cbn. destruct (String.eqb_spec b a) as [->|];
    cbn.
  - apply bool_decide_eq_true_2, elem_of_union_l, elem_of_singleton. done.
  - apply bool_decide_ext. rewrite elem_of_union, elem_of_singleton.
    intuition congruence.
Qed.

Lemma classContains_classRemove :
  classContains a (classRemove b e)
  = negb (String.eqb b a) && classContains a e.
Proof.
  unfold classContains, classRemove; cbn. destruct (String.eqb_spec b a) as [->|];
    cbn.
  - apply bool_decide_eq_false_2. rewrite elem_of_difference, elem_of_singleton.
    tauto.
  - apply bool_decide_ext. rewrite elem_of_difference, elem_of_singleton.
    intuition congruence.
Qed.

Lemma classContains_setAttribute :
  classContains a (setAttribute b v e) = classContains a e.
Proof. done. Qed.
Lemma classContains_removeAttribute :
  classContains a (removeAttribute b e) = classContains a e.
Proof. done. Qed.
Lemma classContains_setStyle :
  classContains a (setStyle b v e) = classContains a e.
Proof. done. Qed.
Lemma classContains_removeProperty :
  classContains a (removeProperty b e) = classContains a e.
Proof. done. Qed.

Lemma getAttribute_assignFilter o :
  getAttribute a (assignFilter o e) = getAttribute a e.
Proof. by destruct o. Qed.
Lemma classContains_assignFilter o :
  classContains a (assignFilter o e) = classContains a e.
Proof. by destruct o. Qed.

End Primitives.

Create Rewrite HintDb dom.
#[global] Hint Rewrite hasAttribute_get getAttribute_setAttribute
  getAttribute_removeAttribute getAttribute_setStyle
  getAttribute_removeProperty getAttribute_classAdd getAttribute_classRemove
  getStyle_setStyle getStyle_removeProperty getStyle_setAttribute
  getStyle_removeAttribute getStyle_classAdd getStyle_classRemove
  classContains_classAdd classContains_classRemove classContains_setAttribute
  classContains_removeAttribute classContains_setStyle
  classContains_removeProperty getAttribute_assignFilter
  classContains_assignFilter : dom.

(** Decide the comparisons of two literal names. *)
Ltac eqb_literals :=
  repeat match goal with
    | |- context [String.eqb ?x ?y] =>
        let r := eval vm_compute in (String.eqb x y) in
        match r with
        | true => change (String.eqb x y) with true
        | false => change (String.eqb x y) with false
        end
    end.

Ltac dom_norm :=
  repeat (progress (autorewrite with dom; eqb_literals;
                    cbn [andb orb negb])).

Ltac frame :=
  intros; unfold_obs; dom_norm; repeat case_match; dom_norm; try done.

Section Frames.
Context (B : browser) (s : settings) (d : tree).

(** Highlight layer *)

Lemma markHighlight_frame e :
  obsOutline (markHighlight s e) = obsOutline e
  ∧ obsFocus (markHighlight s e) = obsFocus e
  ∧ obsRoot (markHighlight s e) = obsRoot e.
Proof. unfold markHighlight. split_and!; frame. Qed.

Lemma unmarkHighlight_frame e :
  obsOutline (unmarkHighlight e) = obsOutline e
  ∧ obsFocus (unmarkHighlight e) = obsFocus e
  ∧ obsRoot (unmarkHighlight e) = obsRoot e.
Proof. unfold unmarkHighlight. split_and!; frame. Qed.

Lemma pointerLocal_frame i e :
  obsOutline (pointerLocal B s i e) = obsOutline e
  ∧ obsFocus (pointerLocal B s i e) = obsFocus e
  ∧ obsRoot (pointerLocal B s i e) = obsRoot e.
Proof.
  unfold pointerLocal. destruct (computedCursor B i); [|done].
  destruct (_ && _); [apply markHighlight_frame|done].
Qed.

Lemma highlightView_frame e :
  obsOutline (highlightView B s d e) = obsOutline e
  ∧ obsFocus (highlightView B s d e) = obsFocus e
  ∧ obsRoot (highlightView B s d e) = obsRoot e.
Proof.
  unfold highlightView.
  destruct (pointerLocal_frame (nodeId d)
              (if sel_interactive (tagName d) e then markHighlight s e else e))
    as (-> & -> & ->).
  destruct (sel_interactive _ _); [apply markHighlight_frame|done].
Qed.

Lemma unhighlightView_frame e :
  obsOutline (unhighlightView e) = obsOutline e
  ∧ obsFocus (unhighlightView e) = obsFocus e
  ∧ obsRoot (unhighlightView e) = obsRoot e.
Proof.
  unfold unhighlightView.
  destruct (classContains _ _); [apply unmarkHighlight_frame|done].
Qed.

Lemma unhighlightView_clears e : obsHighlight (unhighlightView e) = false.
Proof.
  unfold unhighlightView, obsHighlight.
  destruct (classContains cls_highlightable e) eqn:Hc; [|done].
  unfold unmarkHighlight. by dom_norm.
Qed.

(** Focus layer *)

Lemma markFocusable_frame e :
  obsOutline (markFocusable e) = obsOutline e
  ∧ obsHighlight (markFocusable e) = obsHighlight e
  ∧ obsRoot (markFocusable e) = obsRoot e.
Proof. unfold markFocusable. split_and!; frame. Qed.

Lemma unmarkFocusable_frame e :
  obsOutline (unmarkFocusable e) = obsOutline e
  ∧ obsHighlight (unmarkFocusable e) = obsHighlight e
  ∧ obsRoot (unmarkFocusable e) = obsRoot e.
Proof. unfold unmarkFocusable. split_and!; frame. Qed.

Lemma focusView_frame e :
  obsOutline (focusView d e) = obsOutline e
  ∧ obsHighlight (focusView d e) = obsHighlight e
  ∧ obsRoot (focusView d e) = obsRoot e.
Proof.
  unfold focusView. destruct (sel_focusable _ _); [apply markFocusable_frame|done].
Qed.

Lemma unfocusView_frame e :
  obsOutline (unfocusView e) = obsOutline e
  ∧ obsHighlight (unfocusView e) = obsHighlight e
  ∧ obsRoot (unfocusView e) = obsRoot e.
Proof.
  unfold unfocusView. destruct (classContains _ _); [apply unmarkFocusable_frame|done].
Qed.

(** Outline layer *)

Lemma captureOriginals_frame e :
  obsFocus (captureOriginals e) = obsFocus e
  ∧ obsHighlight (captureOriginals e) = obsHighlight e
  ∧ obsRoot (captureOriginals e) = obsRoot e.
Proof. unfold captureOriginals. split_and!; frame. Qed.

Lemma applyOutline_frame e :
  obsFocus (applyOutline s e) = obsFocus e
  ∧ obsHighlight (applyOutline s e) = obsHighlight e
  ∧ obsRoot (applyOutline s e) = obsRoot e.
Proof. unfold applyOutline. split_and!; frame. Qed.

Lemma outlineLocal_frame e :
  obsFocus (outlineLocal s e) = obsFocus e
  ∧ obsHighlight (outlineLocal s e) = obsHighlight e
  ∧ obsRoot (outlineLocal s e) = obsRoot e.
Proof.
  unfold outlineLocal.
  destruct (applyOutline_frame
              (if negb (Str.truthy_opt (getAttribute data_stroke e))
               then captureOriginals e else e)) as (-> & -> & ->).
  destruct (negb _); [apply captureOriginals_frame|done].
Qed.

Lemma restoreShape_frame e :
  obsFocus (restoreShape e) = obsFocus e
  ∧ obsHighlight (restoreShape e) = obsHighlight e
  ∧ obsRoot (restoreShape e) = obsRoot e.
Proof. unfold restoreShape. split_and!; frame. Qed.

End Frames.

Section Groups.
Context (B : browser) (s : settings) (d : tree).

Lemma restoreShape_obs e :
  obsOutline (restoreShape e) =
    (unlessEmpty (getAttribute data_stroke e),
     unlessEmpty (getAttribute data_stroke_width e),
     getAttribute data_stroke e, getAttribute data_stroke_width e,
     getAttribute data_paint_order e,
     from_option id (getStyle "paint-order" e) (getAttribute data_paint_order e),
     false).
Proof.
  unfold restoreShape, obsOutline, unlessEmpty.
  unfold data_stroke, data_stroke_width, data_paint_order, cls_outlined.
  destruct (getAttribute "data-shiny-original-stroke" e) as [v1|] eqn:H1;
    destruct (getAttribute "data-shiny-original-stroke-width" e) as [v2|] eqn:H2;
    destruct (getAttribute "data-shiny-original-paint-order" e) as [v3|] eqn:H3;
    try destruct (Str.truthy v1); try destruct (Str.truthy v2);
    dom_norm; rewrite ?H1, ?H2, ?H3; done.
Qed.

Lemma restoreShape_cong r x :
  obsOutline r = obsOutline x →
  obsOutline (restoreShape r) = obsOutline (restoreShape x).
Proof.
  rewrite !restoreShape_obs. unfold obsOutline. intros [= Hs Hw Hds Hdw Hdp Hpo Hc].
  by rewrite Hds, Hdw, Hdp, Hpo.
Qed.

Lemma restoreShape_idemp_obs e :
  obsOutline (restoreShape (restoreShape e)) = obsOutline (restoreShape e).
Proof.
  rewrite !restoreShape_obs.
  pose proof (restoreShape_obs e) as H. unfold obsOutline in H.
  injection H as _ _ -> -> -> Hpo _. rewrite Hpo.
  by destruct (getAttribute data_paint_order e).
Qed.

Lemma or_empty_unlessEmpty o :
  unlessEmpty (Some (Str.or_empty o)) = unlessEmpty o.
Proof.
  unfold unlessEmpty, Str.or_empty. destruct o as [v|]; [|done].
  destruct (Str.truthy v) eqn:Hv; [by rewrite Hv|done].
Qed.

Lemma outlineLocal_obs e :
  Str.truthy_opt (getAttribute data_stroke e) = false →
  getAttribute data_stroke (outlineLocal s e)
    = Some (Str.or_empty (getAttribute "stroke" e))
  ∧ getAttribute data_stroke_width (outlineLocal s e)
    = Some (Str.or_empty (getAttribute "stroke-width" e))
  ∧ getAttribute data_paint_order (outlineLocal s e)
    = Some (getStyle "paint-order" e).
Proof.
  intros Hcap. unfold outlineLocal. rewrite Hcap. cbn [negb].
  unfold applyOutline, captureOriginals.
  unfold data_stroke, data_stroke_width, data_paint_order, cls_outlined.
  split_and!; destruct (fillVisible _); by dom_norm.
Qed.

Lemma outlineLocal_captured e :
  Str.truthy_opt (getAttribute data_stroke e) = true →
  getAttribute data_stroke (outlineLocal s e) = getAttribute data_stroke e
  ∧ getAttribute data_stroke_width (outlineLocal s e)
    = getAttribute data_stroke_width e
  ∧ getAttribute data_paint_order (outlineLocal s e)
    = getAttribute data_paint_order e.
Proof.
  intros Hcap. unfold outlineLocal. rewrite Hcap. cbn [negb].
  unfold applyOutline.
  unfold data_stroke, data_stroke_width, data_paint_order, cls_outlined.
  split_and!; destruct (fillVisible _); by dom_norm.
Qed.

Lemma restoreShape_outlineLocal e :
  Str.truthy_opt (getAttribute data_stroke e) = false →
  getAttribute "stroke" (restoreShape (outlineLocal s e))
    = unlessEmpty (getAttribute "stroke" e)
  ∧ getAttribute "stroke-width" (restoreShape (outlineLocal s e))
    = unlessEmpty (getAttribute "stroke-width" e)
  ∧ getStyle "paint-order" (restoreShape (outlineLocal s e))
    = getStyle "paint-order" e
  ∧ classContains cls_outlined (restoreShape (outlineLocal s e)) = false.
Proof.
  intros Hcap. destruct (outlineLocal_obs e Hcap) as (Hs & Hw & Hp).
  pose proof (restoreShape_obs (outlineLocal s e)) as H. unfold obsOutline in H.
  rewrite Hs, Hw, Hp in H. injection H as -> -> _ _ _ -> ->.
  split_and!; try done; apply or_empty_unlessEmpty.
Qed.

(** Focus group *)

Lemma unfocusView_obs e :
  let synthetic := classContains cls_focusable e
                   && Str.truthy_opt (getAttribute data_added_tabindex e) in
  getAttribute "tabindex" (unfocusView e)
    = (if synthetic then None else getAttribute "tabindex" e)
  ∧ getAttribute data_added_tabindex (unfocusView e)
    = (if synthetic then None else getAttribute data_added_tabindex e)
  ∧ classContains cls_focusable (unfocusView e) = false.
Proof.
  unfold unfocusView, unmarkFocusable.
  destruct (classContains cls_focusable e) eqn:Hc; cbn [andb].
  - unfold data_added_tabindex, cls_focusable in *. dom_norm.
    destruct (Str.truthy_opt _); by dom_norm.
  - by rewrite Hc.
Qed.

Lemma unfocusView_cong r x :
  obsFocus r = obsFocus x → obsFocus (unfocusView r) = obsFocus (unfocusView x).
Proof.
  unfold obsFocus. intros [= Ht Hd Hc].
  destruct (unfocusView_obs r) as (-> & -> & ->).
  destruct (unfocusView_obs x) as (-> & -> & ->).
  by rewrite Ht, Hd, Hc.
Qed.

Lemma unfocusView_focusView e :
  getAttribute data_added_tabindex e = None →
  getAttribute "tabindex" (unfocusView (focusView d e)) = getAttribute "tabindex" e
  ∧ classContains cls_focusable (unfocusView (focusView d e)) = false.
Proof.
  intros Hd.
  destruct (unfocusView_obs (focusView d e)) as (-> & _ & ->).
  split; [|done].
  unfold focusView. destruct (sel_focusable (tagName d) e).
  - unfold markFocusable, data_added_tabindex, cls_focusable in *.
    dom_norm. destruct (getAttribute "tabindex" e) eqn:Ht.
    + rewrite bool_decide_eq_true_2 by eauto. cbn [negb andb].
      dom_norm. by rewrite Hd, Ht.
    + rewrite bool_decide_eq_false_2 by (by intros [? ?]). cbn [negb andb].
      destruct (_ || _); dom_norm; cbn; [done|].
      by rewrite Hd, Ht.
  - rewrite Hd. cbn. by rewrite andb_false_r.
Qed.

Lemma unfocusView_twice e :
  getAttribute data_added_tabindex e = None →
  getAttribute "tabindex" (unfocusView (unfocusView e)) = getAttribute "tabindex" e
  ∧ classContains cls_focusable (unfocusView (unfocusView e)) = false.
Proof.
  intros Hd.
  destruct (unfocusView_obs (unfocusView e)) as (-> & _ & ->).
  destruct (unfocusView_obs e) as (-> & -> & ->).
  rewrite Hd. cbn. by rewrite !andb_false_r.
Qed.

End Groups.

(** *** The layers, element by element *)

Lemma foldl_local_count g f l h k :
  local g f →
  foldl g h l !!! k = Nat.iter (occurrences k l) (f k) (h !!! k).
Proof.
  intros Hg. revert h. induction l as [|j l IH]; intros h; [done|].
  cbn [foldl]. rewrite IH, Hg. unfold occurrences. rewrite filter_cons.
  destruct (decide (j = k)) as [->|Hne].
  - rewrite decide_True by done. cbn [length]. by rewrite Nat.iter_succ_r.
  - rewrite decide_False by done. done.
Qed.

Lemma occurrences_NoDup k l :
  NoDup l → occurrences k l = if decide (k ∈ l) then 1 else 0.
Proof.
  unfold occurrences. induction 1 as [|j l Hj Hnd IH]; [done|].
  rewrite filter_cons. destruct (decide (j = k)) as [->|Hne].
  - rewrite decide_True by left. cbn [length]. rewrite IH.
    by rewrite decide_False.
  - rewrite IH. destruct (decide (k ∈ l)).
    + by rewrite decide_True by (by right).
    + rewrite decide_False; [done|]. rewrite elem_of_cons. intuition congruence.
Qed.

Lemma occurrences_not_in k l : k ∉ l → occurrences k l = 0.
Proof.
  unfold occurrences. induction l as [|j l IH]; [done|].
  rewrite not_elem_of_cons. intros [Hne Hk]. rewrite filter_cons.
  rewrite decide_False by done. by apply IH.
Qed.

Lemma occurrences_in k l : k ∈ l → ∃ n, occurrences k l = S n.
Proof.
  unfold occurrences. induction l as [|j l IH]; [by intros ?%elem_of_nil|].
  rewrite filter_cons. destruct (decide (j = k)) as [->|Hne]; [by eexists|].
  rewrite elem_of_cons. intros [?|?]; [congruence|by apply IH].
Qed.

Lemma local_highlightPointer B s :
  local (highlightPointer B s) (pointerLocal B s).
Proof.
  intros h j k. unfold highlightPointer, pointerLocal.
  destruct (computedCursor B j) as [c|].
  - destruct (_ && _).
    + apply update_lookup.
    + by case_decide; subst.
  - by case_decide; subst.
Qed.

Section Layers.
Context (B : browser) (s : settings) (svg : tree).
Context (Hids : distinctIds svg).

Lemma update_layer_inside f sel h0 h d :
  d ∈ descendants svg →
  foldl (λ h el, update (nodeId el) f h) h (querySelectorAll h0 sel svg)
    !!! nodeId d
  = if matches h0 sel d then f (h !!! nodeId d) else h !!! nodeId d.
Proof. intros Hd. by apply (layer_inside _ (λ _, f) sel svg h0 h d (local_update f)). Qed.

Lemma update_layer_outside f sel h0 h k :
  k ∉ nodeId <$> descendants svg →
  foldl (λ h el, update (nodeId el) f h) h (querySelectorAll h0 sel svg) !!! k
  = h !!! k.
Proof. intros Hk. by apply (layer_outside _ (λ _, f) sel svg h0 h k (local_update f)). Qed.

Lemma addHighlighting_inside h d :
  d ∈ descendants svg →
  addHighlighting B s svg h !!! nodeId d = highlightView B s d (h !!! nodeId d).
Proof.
  intros Hd. unfold addHighlighting.
  rewrite (layer_inside _ _ sel_any svg _ _ d (local_highlightPointer B s))
    by done.
  rewrite update_layer_inside by done. done.
Qed.

Lemma addHighlighting_outside h k :
  k ∉ nodeId <$> descendants svg → addHighlighting B s svg h !!! k = h !!! k.
Proof.
  intros Hk. unfold addHighlighting.
  rewrite (layer_outside _ _ sel_any svg _ _ k (local_highlightPointer B s))
    by done.
  by rewrite update_layer_outside.
Qed.

Lemma removeHighlighting_inside h d :
  d ∈ descendants svg →
  removeHighlighting svg h !!! nodeId d = unhighlightView (h !!! nodeId d).
Proof. intros Hd. unfold removeHighlighting. by rewrite update_layer_inside. Qed.

Lemma removeHighlighting_outside h k :
  k ∉ nodeId <$> descendants svg → removeHighlighting svg h !!! k = h !!! k.
Proof. intros Hk. unfold removeHighlighting. by rewrite update_layer_outside. Qed.

Lemma addFocusIndicators_inside h d :
  d ∈ descendants svg →
  addFocusIndicators svg h !!! nodeId d = focusView d (h !!! nodeId d).
Proof. intros Hd. unfold addFocusIndicators. by rewrite update_layer_inside. Qed.

Lemma addFocusIndicators_outside h k :
  k ∉ nodeId <$> descendants svg → addFocusIndicators svg h !!! k = h !!! k.
Proof. intros Hk. unfold addFocusIndicators. by rewrite update_layer_outside. Qed.

Lemma removeFocusIndicators_inside h d :
  d ∈ descendants svg →
  removeFocusIndicators svg h !!! nodeId d = unfocusView (h !!! nodeId d).
Proof. intros Hd. unfold removeFocusIndicators. by rewrite update_layer_inside. Qed.

Lemma removeFocusIndicators_outside h k :
  k ∉ nodeId <$> descendants svg → removeFocusIndicators svg h !!! k = h !!! k.
Proof. intros Hk. unfold removeFocusIndicators. by rewrite update_layer_outside. Qed.

End Layers.

Section Inline.
Context (B : browser) (root : tree) (s : settings) (svg : tree).
Context (Hids : distinctIds svg).

Lemma root_not_descendant d : d ∈ descendants svg → nodeId d ≠ nodeId svg.
Proof.
  intros Hd Heq. apply distinctIds_descendants in Hids as [_ Hroot].
  apply Hroot. rewrite <- Heq. by apply list_elem_of_fmap_2.
Qed.

Lemma inlineLayers_records st :
  enhancedElements (inlineLayers B s svg st) = enhancedElements st.
Proof.
  unfold inlineLayers, enhanceContrast, with_dom. cbn.
  destruct (contrastEnabled s).
  - by destruct (contrastFilter (contrastLevel s)).
  - by destruct (enhancedElements st !! nodeId svg).
Qed.

Lemma inlineLayers_inside st d :
  d ∈ descendants svg →
  dom (inlineLayers B s svg st) !!! nodeId d = layersView B s d (dom st !!! nodeId d).
Proof.
  intros Hd. pose proof (root_not_descendant d Hd) as Hne.
  unfold inlineLayers, layersView. cbn [with_dom dom].
  rewrite update_lookup, decide_False by done.
  set (st1 := if contrastEnabled s then _ else _).
  assert (dom st1 !!! nodeId d = dom st !!! nodeId d) as Hst1.
  { unfold st1, enhanceContrast. destruct (contrastEnabled s).
    - destruct (contrastFilter (contrastLevel s)); [|done].
      cbn. by rewrite update_lookup, decide_False.
    - destruct (enhancedElements st !! nodeId svg); [|done].
      cbn. by rewrite update_lookup, decide_False. }
  destruct (focusIndicators s), (highlightEnabled s);
    rewrite ?addFocusIndicators_inside, ?removeFocusIndicators_inside,
      ?addHighlighting_inside, ?removeHighlighting_inside by done;
    by rewrite Hst1.
Qed.

Lemma inlineLayers_outside st k :
  k ∉ nodeId <$> subtrees svg →
  dom (inlineLayers B s svg st) !!! k = dom st !!! k.
Proof.
  rewrite subtrees_unfold, fmap_cons, not_elem_of_cons. intros [Hne Hk].
  unfold inlineLayers. cbn [with_dom dom].
  rewrite update_lookup, decide_False by done.
  set (st1 := if contrastEnabled s then _ else _).
  assert (dom st1 !!! k = dom st !!! k) as Hst1.
  { unfold st1, enhanceContrast. destruct (contrastEnabled s).
    - destruct (contrastFilter (contrastLevel s)); [|done].
      cbn. by rewrite update_lookup, decide_False.
    - destruct (enhancedElements st !! nodeId svg); [|done].
      cbn. by rewrite update_lookup, decide_False. }
  destruct (focusIndicators s), (highlightEnabled s);
    rewrite ?addFocusIndicators_outside, ?removeFocusIndicators_outside,
      ?addHighlighting_outside, ?removeHighlighting_outside by done;
    by rewrite Hst1.
Qed.

Lemma inlineLayers_root st r :
  enhancedElements st !! nodeId svg = Some r →
  dom (inlineLayers B s svg st) !!! nodeId svg
  = classAdd cls_enhanced
      (assignFilter (rootFilter s (originalFilter r)) (dom st !!! nodeId svg)).
Proof.
  intros Hr. pose proof Hids as Hids'.
  apply distinctIds_descendants in Hids' as [_ Hroot].
  unfold inlineLayers. cbn [with_dom dom].
  rewrite update_lookup, decide_True by done. f_equal.
  set (st1 := if contrastEnabled s then _ else _).
  assert (dom st1 !!! nodeId svg
          = assignFilter (rootFilter s (originalFilter r)) (dom st !!! nodeId svg))
    as Hst1.
  { unfold st1, enhanceContrast, rootFilter. rewrite Hr.
    destruct (contrastEnabled s);
      [destruct (contrastFilter (contrastLevel s)); [|done]|];
      cbn; by rewrite update_lookup, decide_True. }
  destruct (focusIndicators s), (highlightEnabled s);
    rewrite ?addFocusIndicators_outside, ?removeFocusIndicators_outside,
      ?addHighlighting_outside, ?removeHighlighting_outside by done;
    by rewrite Hst1.
Qed.

(** The outline layer with outlines enabled. *)
Lemma addOutlines_spec st f l0 :
  enhancedElements st !! nodeId svg = Some (Stored f (Some l0)) →
  ∃ st',
    addOutlines root s svg st = Normal st'
    ∧ enhancedElements st' =
        <[nodeId svg := Stored f (Some (l0 ++ (nodeId <$>
             filter (λ d, skipped root d = false ∧ uncaptured (dom st) d = true)
                    (querySelectorAll (dom st) sel_shape svg))))]>
          (enhancedElements st)
    ∧ (∀ d, d ∈ descendants svg →
         dom st' !!! nodeId d =
           if sel_shape (tagName d) (dom st !!! nodeId d) && negb (skipped root d)
           then outlineLocal s (dom st !!! nodeId d) else dom st !!! nodeId d)
    ∧ (∀ k, k ∉ nodeId <$> descendants svg → dom st' !!! k = dom st !!! k).
Proof.
  intros Hrec. pose proof Hids as Hids'.
  apply distinctIds_descendants in Hids' as [Hnd _].
  unfold addOutlines.
  destruct (forEach_outlineShape root s (nodeId svg)
              (querySelectorAll (dom st) sel_shape svg) st f l0)
    as (st' & Hrun & Hees & Hdom); [by apply NoDup_fmap_filter|done|].
  exists st'. split_and!; [done..| |].
  - intros d Hd. rewrite Hdom. unfold querySelectorAll.
    rewrite list_filter_filter.
    destruct (sel_shape _ _ && negb _) eqn:Hc.
    + rewrite decide_True; [done|]. apply elem_of_fmap_filter; [done..|].
      apply andb_true_iff in Hc as [? ?%negb_true_iff]. done.
    + rewrite decide_False; [done|]. rewrite elem_of_fmap_filter by done.
      intros [? ?]. unfold matches in *.
      destruct (sel_shape _ _); [|done]. destruct (skipped root d); done.
  - intros k Hk. rewrite Hdom. rewrite decide_False; [done|].
    intros Hin. apply Hk. apply list_elem_of_fmap in Hin as (y & -> & Hy).
    apply list_elem_of_fmap_2. apply list_elem_of_filter in Hy as [_ Hy].
    unfold querySelectorAll in Hy. by apply list_elem_of_filter in Hy as [_ ?].
Qed.

End Inline.

Lemma removeOutlines_spec svg st f l :
  enhancedElements st !! svg = Some (Stored f (Some l)) →
  ∃ st',
    removeOutlines svg st = Normal st'
    ∧ enhancedElements st' = enhancedElements st
    ∧ ∀ k, dom st' !!! k = Nat.iter (occurrences k l) restoreShape (dom st !!! k).
Proof.
  intros Hrec. unfold removeOutlines. rewrite Hrec. eexists. split_and!; [done..|].
  intros k. cbn [with_dom dom].
  apply (foldl_local_count _ (λ _, restoreShape) l (dom st) k (local_update _)).
Qed.

Lemma forEach_outlineShape_normal root s svg l :
  ∀ st f l0,
  enhancedElements st !! svg = Some (Stored f (Some l0)) →
  ∃ st', forEach (outlineShape root s svg) l st = Normal st'.
Proof.
  induction l as [|x l IH]; intros st f l0 Hrec; [by eexists|].
  cbn [forEach]. unfold outlineShape at 1.
  destruct (skipped root x); [by eapply IH|].
  destruct (negb _).
  - cbn [with_dom enhancedElements]. rewrite Hrec.
    eapply (IH _ f (l0 ++ [nodeId x])). cbn. by rewrite lookup_insert_eq.
  - by eapply IH.
Qed.

Lemma layersView_frame B s d e :
  obsOutline (layersView B s d e) = obsOutline e
  ∧ obsRoot (layersView B s d e) = obsRoot e.
Proof.
  unfold layersView.
  destruct (focusIndicators s), (highlightEnabled s).
  - destruct (focusView_frame d (highlightView B s d e)) as (-> & _ & ->).
    by destruct (highlightView_frame B s d e) as (-> & _ & ->).
  - destruct (focusView_frame d (unhighlightView e)) as (-> & _ & ->).
    by destruct (unhighlightView_frame e) as (-> & _ & ->).
  - destruct (unfocusView_frame (highlightView B s d e)) as (-> & _ & ->).
    by destruct (highlightView_frame B s d e) as (-> & _ & ->).
  - destruct (unfocusView_frame (unhighlightView e)) as (-> & _ & ->).
    by destruct (unhighlightView_frame e) as (-> & _ & ->).
Qed.

Lemma layersView_unfocus B s d e :
  getAttribute data_added_tabindex e = None →
  getAttribute "tabindex" (unfocusView (layersView B s d e))
    = getAttribute "tabindex" e
  ∧ classContains cls_focusable (unfocusView (layersView B s d e)) = false.
Proof.
  intros Hd. unfold layersView.
  set (e2 := if highlightEnabled s then _ else _).
  assert (obsFocus e2 = obsFocus e) as He2.
  { unfold e2. destruct (highlightEnabled s).
    - apply highlightView_frame.
    - apply unhighlightView_frame. }
  unfold obsFocus in He2. injection He2 as Ht Hda _.
  rewrite <- Ht. rewrite <- Hda in Hd.
  destruct (focusIndicators s).
  - by apply unfocusView_focusView.
  - by apply unfocusView_twice.
Qed.

(** Restoring a descendant of a graphic that was enhanced from a pristine
    state; [b] tells whether the outline layer captured it. *)
Lemma roundtrip_descendant B s d (b : bool) e :
  pristine e = true →
  tracked b e
    (unfocusView (unhighlightView
       (let e3 := layersView B s d (if b then outlineLocal s e else e) in
        if b then restoreShape e3 else e3))).
Proof.
  intros Hp.
  apply pristine_spec in Hp as (H1 & H2 & H3 & H4 & C1 & C2 & C3 & C4 & C5).
  set (e1 := if b then outlineLocal s e else e).
  set (e3 := layersView B s d e1). cbv zeta.
  set (r1 := if b then restoreShape e3 else e3).
  set (r2 := unhighlightView r1).
  set (r3 := unfocusView r2).
  (* what the other layers leave alone *)
  assert (obsFocus e1 = obsFocus e ∧ obsRoot e1 = obsRoot e) as [Fe1 Re1].
  { unfold e1. destruct b; [|done]. split; apply outlineLocal_frame. }
  destruct (layersView_frame B s d e1) as [Oe3 Re3]. fold e3 in Oe3, Re3.
  assert (obsFocus r1 = obsFocus e3 ∧ obsRoot r1 = obsRoot e3) as [Fr1 Rr1].
  { unfold r1. destruct b; [|done]. split; apply restoreShape_frame. }
  destruct (unhighlightView_frame r1) as (Or2 & Fr2 & Rr2). fold r2 in Or2, Fr2, Rr2.
  destruct (unfocusView_frame r2) as (Or3 & Hr3 & Rr3). fold r3 in Or3, Hr3, Rr3.
  (* the outline group *)
  assert (getAttribute "stroke" r1
            = (if b then unlessEmpty (getAttribute "stroke" e)
               else getAttribute "stroke" e)
          ∧ getAttribute "stroke-width" r1
            = (if b then unlessEmpty (getAttribute "stroke-width" e)
               else getAttribute "stroke-width" e)
          ∧ getStyle "paint-order" r1 = getStyle "paint-order" e
          ∧ classContains cls_outlined r1 = false) as Hout.
  { unfold r1. destruct b.
    - pose proof (restoreShape_cong e3 e1 Oe3) as Hc.
      unfold e1 in Hc. unfold obsOutline in Hc.
      injection Hc as -> -> _ _ _ -> ->.
      apply restoreShape_outlineLocal. unfold getAttribute. by rewrite H1.
    - unfold e1 in Oe3. unfold obsOutline in Oe3.
      injection Oe3 as -> -> _ _ _ -> ->. split_and!; [done..|].
      by apply bool_decide_eq_false_2. }
  assert (getAttribute "stroke" r3 = getAttribute "stroke" r1
          ∧ getAttribute "stroke-width" r3 = getAttribute "stroke-width" r1
          ∧ getStyle "paint-order" r3 = getStyle "paint-order" r1
          ∧ classContains cls_outlined r3 = classContains cls_outlined r1)
    as (Hs3 & Hw3 & Hp3 & Hcls).
  { rewrite Or2 in Or3. unfold obsOutline in Or3.
    by injection Or3 as -> -> _ _ _ -> ->. }
  (* the root group *)
  assert (obsRoot r3 = obsRoot e) as HR.
  { by rewrite Rr3, Rr2, Rr1, Re3, Re1. }
  unfold obsRoot in HR. injection HR as Hfilter Henh Himg.
  (* the focus group *)
  assert (getAttribute "tabindex" r3 = getAttribute "tabindex" e
          ∧ classContains cls_focusable r3 = false) as [Htab Hfoc].
  { assert (obsFocus r2 = obsFocus e3) as Hr2 by by rewrite Fr2.
    apply unfocusView_cong in Hr2. fold r3 in Hr2.
    unfold obsFocus in Hr2. injection Hr2 as -> _ ->.
    unfold e3.
    assert (getAttribute data_added_tabindex e1 = None) as Hd1.
    { unfold obsFocus in Fe1. injection Fe1 as _ -> _. done. }
    destruct (layersView_unfocus B s d e1 Hd1) as [-> ->].
    unfold obsFocus in Fe1. by injection Fe1 as -> _ _. }
  (* the highlight group *)
  assert (classContains cls_highlightable r3 = false) as Hhl.
  { change (obsHighlight r3 = false). rewrite Hr3. apply unhighlightView_clears. }
  destruct Hout as (Hs1 & Hw1 & Hp1 & Hc1).
  unfold tracked. fold r1 r2 r3. rewrite Hs3, Hw3, Hp3. split_and!; try done.
  intros c Hc. unfold markers in Hc.
  repeat (apply elem_of_cons in Hc as [->|Hc]).
  - rewrite Henh. by apply bool_decide_eq_false_2.
  - rewrite Himg. by apply bool_decide_eq_false_2.
  - by rewrite Hcls.
  - done.
  - done.
  - by apply elem_of_nil in Hc.
Qed.

Lemma tracked_refl e : pristine e = true → tracked false e e.
Proof.
  intros Hp.
  apply pristine_spec in Hp as (H1 & H2 & H3 & H4 & C1 & C2 & C3 & C4 & C5).
  unfold tracked. split_and!; try done.
  intros c Hc. unfold markers in Hc.
  repeat (apply elem_of_cons in Hc as [->|Hc]);
    try (by apply bool_decide_eq_false_2).
  by apply elem_of_nil in Hc.
Qed.

Lemma roundtrip_root (c : string) (v : option string) e :
  pristine e = true →
  tracked false e (classRemove c (setStyle "filter" (getStyle "filter" e)
                     (classAdd c (assignFilter v e)))).
Proof.
  intros Hp. pose proof (tracked_refl e Hp) as (_ & _ & _ & _ & _ & Hm).
  unfold tracked. destruct v as [v|]; cbn [assignFilter]; dom_norm.
  - split_and!; try done.
    intros c' Hc'. dom_norm. rewrite (Hm c' Hc').
    by destruct (String.eqb c c').
  - split_and!; try done.
    intros c' Hc'. dom_norm. rewrite (Hm c' Hc').
    by destruct (String.eqb c c').
Qed.

Section Restore.
Context (svg : tree) (Hids : distinctIds svg).

Lemma restore_inline st f l :
  tagName svg = "svg" →
  enhancedElements st !! nodeId svg = Some (Stored f (Some l)) →
  ∃ st',
    restore svg st = Normal st'
    ∧ enhancedElements st' = delete (nodeId svg) (enhancedElements st)
    ∧ (∀ d, d ∈ descendants svg →
         dom st' !!! nodeId d =
           unfocusView (unhighlightView
             (Nat.iter (occurrences (nodeId d) l) restoreShape
                       (dom st !!! nodeId d))))
    ∧ dom st' !!! nodeId svg =
        classRemove cls_enhanced
          (Nat.iter (occurrences (nodeId svg) l) restoreShape
             (setStyle "filter" f (dom st !!! nodeId svg)))
    ∧ (∀ k, k ∉ nodeId <$> subtrees svg →
         dom st' !!! k = Nat.iter (occurrences k l) restoreShape (dom st !!! k)).
Proof.
  intros Htag Hrec. pose proof Hids as Hids'.
  apply distinctIds_descendants in Hids' as [_ Hroot].
  unfold restore. rewrite Hrec, Htag. cbn [String.eqb Ascii.eqb Bool.eqb].
  cbn [originalFilter].
  set (st1 := with_dom (update (nodeId svg) (setStyle "filter" f)) st).
  destruct (removeOutlines_spec (nodeId svg) st1 f l Hrec)
    as (st2 & -> & Hees & Hdom).
  eexists. split_and!; [done| | | |].
  - cbn. by rewrite Hees.
  - intros d Hd. pose proof (root_not_descendant svg Hids d Hd) as Hne.
    cbn [with_dom dom]. rewrite update_lookup, decide_False by done.
    rewrite removeFocusIndicators_inside by done.
    rewrite removeHighlighting_inside by done.
    rewrite Hdom. unfold st1. cbn. by rewrite update_lookup, decide_False.
  - cbn [with_dom dom]. rewrite update_lookup, decide_True by done.
    rewrite removeFocusIndicators_outside by done.
    rewrite removeHighlighting_outside by done.
    rewrite Hdom. unfold st1. cbn. by rewrite update_lookup, decide_True.
  - intros k Hk. rewrite subtrees_unfold, fmap_cons, not_elem_of_cons in Hk.
    destruct Hk as [Hne Hk].
    cbn [with_dom dom]. rewrite update_lookup, decide_False by done.
    rewrite removeFocusIndicators_outside by done.
    rewrite removeHighlighting_outside by done.
    rewrite Hdom. unfold st1. cbn. by rewrite update_lookup, decide_False.
Qed.

End Restore.

Lemma outline_stage_fresh root s svg st0 f0 :
  distinctIds svg →
  enhancedElements st0 !! nodeId svg = Some (Stored f0 (Some [])) →
  (∀ d, d ∈ descendants svg → uncaptured (dom st0) d = true) →
  ∃ st_o cap,
    (if outlineEnabled s then addOutlines root s svg st0
     else removeOutlines (nodeId svg) st0) = Normal st_o
    ∧ enhancedElements st_o = <[nodeId svg := Stored f0 (Some cap)]> (enhancedElements st0)
    ∧ (∀ d, d ∈ descendants svg →
         occurrences (nodeId d) cap
         = if outlines root s (dom st0) d then 1 else 0)
    ∧ occurrences (nodeId svg) cap = 0
    ∧ (∀ d, d ∈ descendants svg →
         dom st_o !!! nodeId d =
           if outlines root s (dom st0) d
           then outlineLocal s (dom st0 !!! nodeId d) else dom st0 !!! nodeId d)
    ∧ dom st_o !!! nodeId svg = dom st0 !!! nodeId svg.
Proof.
  intros Hids Hrec Hunc. pose proof Hids as Hids'.
  apply distinctIds_descendants in Hids' as [Hnd Hroot].
  unfold outlines. destruct (outlineEnabled s); cbn [andb].
  - destruct (addOutlines_spec root s svg Hids st0 f0 [] Hrec)
      as (st_o & Hrun & Hees & Hin & Hout).
    eexists st_o, _. split_and!; [done|exact Hees| | |exact Hin|by apply Hout].
    + intros d Hd. cbn [app]. unfold querySelectorAll.
      rewrite list_filter_filter. rewrite occurrences_NoDup
        by by apply NoDup_fmap_filter.
      destruct (sel_shape _ _ && negb _) eqn:Hc.
      * rewrite decide_True; [done|]. apply elem_of_fmap_filter; [done..|].
        apply andb_true_iff in Hc as [? ?%negb_true_iff].
        split_and!; [done|by apply Hunc|done].
      * rewrite decide_False; [done|]. rewrite elem_of_fmap_filter by done.
        intros [[? ?] ?]. unfold matches in *.
        destruct (sel_shape _ _); [|done]. destruct (skipped root d); done.
    + apply occurrences_not_in. cbn [app]. intros Hin'. apply Hroot.
      apply list_elem_of_fmap in Hin' as (y & -> & Hy).
      apply list_elem_of_fmap_2. apply list_elem_of_filter in Hy as [_ Hy].
      unfold querySelectorAll in Hy. by apply list_elem_of_filter in Hy as [_ ?].
  - destruct (removeOutlines_spec (nodeId svg) st0 f0 [] Hrec)
      as (st_o & Hrun & Hees & Hdom).
    exists st_o, []. split_and!; [done| |done|done| |].
    + rewrite Hees. by rewrite insert_id.
    + intros d Hd. by rewrite Hdom.
    + by rewrite Hdom.
Qed.

Lemma pristineGraphic_spec h el d :
  pristineGraphic h el = true → d ∈ subtrees el → pristine (h !!! nodeId d) = true.
Proof.
  unfold pristineGraphic. rewrite forallb_forall. intros H Hd.
  apply H. by apply list_elem_of_In.
Qed.

Lemma pristine_uncaptured h d : pristine (h !!! nodeId d) = true → uncaptured h d = true.
Proof.
  intros Hp. apply pristine_spec in Hp as (H1 & _).
  unfold uncaptured, getAttribute. by rewrite H1.
Qed.

Lemma roundtrip_inline B root s svg st :
  tagName svg = "svg" → distinctIds svg →
  enhancedElements st !! nodeId svg = None →
  pristineGraphic (dom st) svg = true →
  ∃ st1 st2,
    enhanceInlineSVG B root s svg st = Normal st1
    ∧ restore svg st1 = Normal st2
    ∧ enhancedElements st2 !! nodeId svg = None
    ∧ ∀ d, d ∈ subtrees svg →
        tracked (outlines root s (dom st) d)
                (dom st !!! nodeId d) (dom st2 !!! nodeId d).
Proof.
  intros Htag Hids Hnone Hp.
  unfold enhanceInlineSVG. rewrite Hnone.
  set (f0 := getStyle "filter" (dom st !!! nodeId svg)).
  set (st0 := State (dom st) (<[nodeId svg := Stored f0 (Some [])]> (enhancedElements st))).
  destruct (outline_stage_fresh root s svg st0 f0 Hids) as
    (st_o & cap & -> & Hees & Hocc & Hocc_root & Hin & Hroot).
  { cbn. by rewrite lookup_insert_eq. }
  { intros d Hd. apply pristine_uncaptured. eapply pristineGraphic_spec; [done|].
    rewrite subtrees_unfold. by right. }
  assert (enhancedElements (inlineLayers B s svg st_o) !! nodeId svg
          = Some (Stored f0 (Some cap))) as Hrec1.
  { rewrite inlineLayers_records, Hees. by rewrite lookup_insert_eq. }
  destruct (restore_inline svg Hids _ f0 cap Htag Hrec1)
    as (st2 & Hres & Hees2 & Hin2 & Hroot2 & _).
  eexists _, st2. split_and!; [done|done| |].
  - rewrite Hees2. by rewrite lookup_delete_eq.
  - intros d Hd. pose proof (pristineGraphic_spec _ _ _ Hp Hd) as Hpd.
    rewrite subtrees_unfold in Hd. apply elem_of_cons in Hd as [->|Hd].
    + assert (outlines root s (dom st) svg = false) as ->.
      { unfold outlines. rewrite Htag. cbn. by rewrite andb_false_r. }
      rewrite Hroot2, Hocc_root. cbn [Nat.iter].
      rewrite (inlineLayers_root B s svg Hids st_o (Stored f0 (Some cap)))
        by (rewrite Hees; by rewrite lookup_insert_eq).
      rewrite Hroot. cbn [originalFilter].
      destruct (rootFilter s f0) as [v|]; cbn [assignFilter].
      * assert (setStyle "filter" f0 (classAdd cls_enhanced
                  (setStyle "filter" v (dom st0 !!! nodeId svg)))
                = setStyle "filter" f0 (classAdd cls_enhanced
                    (assignFilter (Some v) (dom st0 !!! nodeId svg)))) as ->
          by done.
        by apply roundtrip_root.
      * apply (roundtrip_root cls_enhanced None). done.
    + rewrite Hin2, Hocc by done. rewrite inlineLayers_inside by done.
      rewrite Hin by done. change (dom st0) with (dom st).
      pose proof (roundtrip_descendant B s d
                    (outlines root s (dom st) d) _ Hpd) as Ht.
      cbv zeta in Ht. by destruct (outlines root s (dom st) d).
Qed.

Lemma roundtrip_img s el st :
  tagName el ≠ "svg" → distinctIds el →
  enhancedElements st !! nodeId el = None →
  pristineGraphic (dom st) el = true →
  ∃ st2,
    restore el (enhanceImgSVG s el st) = Normal st2
    ∧ enhancedElements st2 !! nodeId el = None
    ∧ ∀ d, d ∈ subtrees el →
        tracked false (dom st !!! nodeId d) (dom st2 !!! nodeId d).
Proof.
  intros Htag Hids Hnone Hp.
  unfold enhanceImgSVG, restore. rewrite Hnone. cbn.
  rewrite lookup_insert_eq. cbn [originalFilter].
  apply String.eqb_neq in Htag. rewrite Htag.
  eexists. split_and!; [done| |].
  - cbn. by rewrite lookup_delete_eq.
  - intros d Hd. pose proof (pristineGraphic_spec _ _ _ Hp Hd) as Hpd.
    cbn. rewrite !update_lookup.
    rewrite subtrees_unfold in Hd. apply elem_of_cons in Hd as [->|Hd].
    + rewrite !decide_True by done. by apply roundtrip_root.
    + pose proof (root_not_descendant el Hids d Hd) as Hne.
      rewrite !decide_False by done. by apply tracked_refl.
Qed.

Lemma enhanceInlineSVG_ready B root s svg st :
  inlineReady st svg = true →
  ∃ st', enhanceInlineSVG B root s svg st = Normal st'.
Proof.
  unfold inlineReady, recordOf, enhanceInlineSVG. intros Hr.
  set (st0 := match enhancedElements st !! nodeId svg with
              | Some _ => st | None => _ end).
  assert (∃ f l0, enhancedElements st0 !! nodeId svg = Some (Stored f (Some l0)))
    as (f & l0 & Hrec).
  { unfold st0. destruct (enhancedElements st !! nodeId svg) as [[f [l0|]]|] eqn:E;
      [by eauto|done|]. eexists _, _. cbn. by rewrite lookup_insert_eq. }
  destruct (outlineEnabled s).
  - unfold addOutlines.
    destruct (forEach_outlineShape_normal root s (nodeId svg)
                (querySelectorAll (dom st0) sel_shape svg) st0 f l0 Hrec)
      as (st' & ->). by eexists.
  - destruct (removeOutlines_spec (nodeId svg) st0 f l0 Hrec) as (st' & -> & _).
    by eexists.
Qed.

Lemma restoreShape_iter_obs n e :
  obsOutline (Nat.iter (S n) restoreShape e) = obsOutline (restoreShape e).
Proof.
  induction n as [|n IH]; [done|].
  change (Nat.iter (S (S n)) restoreShape e)
    with (restoreShape (Nat.iter (S n) restoreShape e)).
  rewrite (restoreShape_cong _ _ IH). apply restoreShape_idemp_obs.
Qed.

Lemma root_ops_frame v e :
  obsOutline (classAdd cls_enhanced (assignFilter v e)) = obsOutline e.
Proof.
  unfold obsOutline, cls_enhanced, cls_outlined.
  destruct v; cbn [assignFilter]; by dom_norm.
Qed.

(** The layers after the outline layer leave the outline group of every
    element as it is. *)
Lemma inlineLayers_obsOutline B s svg st r k :
  distinctIds svg →
  enhancedElements st !! nodeId svg = Some r →
  obsOutline (dom (inlineLayers B s svg st) !!! k) = obsOutline (dom st !!! k).
Proof.
  intros Hids Hr.
  destruct (decide (k ∈ nodeId <$> subtrees svg)) as [Hin|Hout].
  - apply list_elem_of_fmap in Hin as (d & -> & Hd).
    rewrite subtrees_unfold in Hd. apply elem_of_cons in Hd as [->|Hd].
    + rewrite (inlineLayers_root B s svg Hids st r Hr). apply root_ops_frame.
    + rewrite inlineLayers_inside by done. apply layersView_frame.
  - by rewrite inlineLayers_outside.
Qed.


Lemma enhanceEmbeddedSVG_fallback B s el st :
  match svgDocument B (nodeId el) with
  | Document doc =>
      match querySelector (dom st) sel_svg doc with
      | Some _ => false
      | None => true
      end
  | _ => true
  end = true →
  enhanceEmbeddedSVG B s el st = Normal (enhanceImgSVG s el st).
Proof.
  intros Hdoc. unfold enhanceEmbeddedSVG.
  destruct (svgDocument B (nodeId el)); [done..|].
  by destruct (querySelector (dom st) sel_svg doc).
Qed.

Lemma enhance_inline B root info s st :
  inlineKind info = true → enabled s = true →
  enhance B root info s st = enhanceInlineSVG B root s (element info) st.
Proof.
  intros Hkind Hon. unfold enhance. rewrite Hon. cbn [negb].
  unfold inlineKind in Hkind. by destruct (type info).
Qed.

(** *** Restoring after one enhancement *)

(** C2. [restore] after a single [enhance] leaves the enhancement in
    place on two inputs. A graphic that went through [enhance] and
    [restore] once keeps its [data-shiny-original-*] attributes: the next
    [enhance] sets the outline without listing the shape in the new
    record, and the next [restore] leaves the stroke [#00F] and the
    outline class where the stroke was green. And for an [<object>] whose
    document can be read the record is kept under the inner [<svg>]:
    [restore] of the [<object>] finds no record and returns at once, so
    that the inner [<path>] keeps the stroke and the classes it was
    given. *)
Theorem restore_leaves_enhancement_behind :
  let gr0 := stateOf (restore greenStrokeSvg
               (stateOf (enhance plainBrowser greenStrokeSvg greenStroke
                                 blueOutline (fresh greenStrokeDom)))) in
  let gr1 := stateOf (enhance plainBrowser greenStrokeSvg greenStroke
                              blueOutline gr0) in
  let gr2 := stateOf (restore greenStrokeSvg gr1) in
  let ob1 := stateOf (enhance sameOrigin objectEl objectGraphic blueOutline
                              (fresh ∅)) in
  (enhancedElements gr0 !! 1 = None
   ∧ getAttribute "stroke" (dom gr0 !!! 2) = Some "green"
   ∧ classContains cls_outlined (dom gr0 !!! 2) = false
   ∧ getAttribute data_stroke (dom gr0 !!! 2) = Some "green"
   ∧ enhance plainBrowser greenStrokeSvg greenStroke blueOutline gr0 = Normal gr1
   ∧ enhancedElements gr1 !! 1 = Some (Stored "" (Some []))
   ∧ restore greenStrokeSvg gr1 = Normal gr2
   ∧ enhancedElements gr2 !! 1 = None
   ∧ getAttribute "stroke" (dom gr2 !!! 2) = Some "#00F"
   ∧ getAttribute "stroke-width" (dom gr0 !!! 2) = None
   ∧ getAttribute "stroke-width" (dom gr2 !!! 2) = Some "3"
   ∧ classContains cls_outlined (dom gr2 !!! 2) = true)
  ∧ (enhance sameOrigin objectEl objectGraphic blueOutline (fresh ∅) = Normal ob1
     ∧ enhancedElements ob1 !! 30 = None
     ∧ enhancedElements ob1 !! 41 = Some (Stored "" (Some [42]))
     ∧ restore objectEl ob1 = Normal ob1
     ∧ getAttribute "stroke" (dom (fresh ∅) !!! 42) = None
     ∧ getAttribute "stroke" (dom ob1 !!! 42) = Some "#00F"
     ∧ classContains cls_outlined (dom ob1 !!! 42) = true
     ∧ classContains cls_enhanced (dom ob1 !!! 41) = true).
Proof. vm_compute. done. Qed.

(** X29. Take a graphic whose treatment is recorded under its primary node
    (inline, animation-hosted, raster-referenced, or plugin-embedded
    without an inline root that can be reached), with distinct nodes, no
    record, and no trace of the engine on its nodes. Then [enhance]
    followed by [restore] of the primary node both end normally, the
    record is gone, and on the primary node and every light descendant
    the filter, the paint order and the tab index are what they were and
    no marker class is left. [stroke] and [stroke-width] are what they
    were as well, an absent one absent again, with one exception: on an
    element the outline layer wrote to, a value that was present and
    empty is removed. *)
Theorem restore_after_enhance B root info s st :
  treatedInPlace B (dom st) info = true →
  distinctIds (element info) →
  enhancedElements st !! nodeId (element info) = None →
  pristineGraphic (dom st) (element info) = true →
  ∃ st1 st2,
    enhance B root info s st = Normal st1
    ∧ restore (element info) st1 = Normal st2
    ∧ enhancedElements st2 !! nodeId (element info) = None
    ∧ ∀ d, d ∈ subtrees (element info) →
        tracked (outlined root s (dom st) info d)
                (dom st !!! nodeId d) (dom st2 !!! nodeId d).
Proof.
  intros Hwf Hids Hnone Hp. unfold enhance, outlined, inlineKind.
  destruct (enabled s); cbn [negb andb]; cycle 1.
  { exists st, st. unfold restore. rewrite Hnone. split_and!; [done..|].
    intros d Hd. apply tracked_refl. by eapply pristineGraphic_spec. }
  unfold treatedInPlace in Hwf.
  assert (∀ el, negb (String.eqb (tagName el) "svg") = true → tagName el ≠ "svg")
    as Hneq.
  { intros el H. apply String.eqb_neq. by apply negb_true_iff. }
  destruct (type info); cbn [andb].
  - apply String.eqb_eq in Hwf. by apply roundtrip_inline.
  - destruct (roundtrip_img s (element info) st (Hneq _ Hwf) Hids Hnone Hp)
      as (st2 & ? & ? & ?). by exists (enhanceImgSVG s (element info) st), st2.
  - apply andb_true_iff in Hwf as [Htag Hdoc].
    rewrite (enhanceEmbeddedSVG_fallback B s (element info) st Hdoc).
    destruct (roundtrip_img s (element info) st (Hneq _ Htag) Hids Hnone Hp)
      as (st2 & ? & ? & ?). by exists (enhanceImgSVG s (element info) st), st2.
  - apply andb_true_iff in Hwf as [Htag Hdoc].
    rewrite (enhanceEmbeddedSVG_fallback B s (element info) st Hdoc).
    destruct (roundtrip_img s (element info) st (Hneq _ Htag) Hids Hnone Hp)
      as (st2 & ? & ? & ?). by exists (enhanceImgSVG s (element info) st), st2.
  - apply String.eqb_eq in Hwf. by apply roundtrip_inline.
Qed.

Lemma restore_after_enhance_witness :
  let st := fresh emptyStrokeDom in
  treatedInPlace plainBrowser (dom st) emptyStroke = true
  ∧ distinctIds (element emptyStroke)
  ∧ enhancedElements st !! nodeId (element emptyStroke) = None
  ∧ pristineGraphic (dom st) (element emptyStroke) = true
  ∧ ∃ st1 st2,
      enhance plainBrowser emptyStrokeSvg emptyStroke blueOutline st
      = Normal st1
      ∧ restore (element emptyStroke) st1 = Normal st2
      ∧ enhancedElements st2 !! nodeId (element emptyStroke) = None
      ∧ ∀ d, d ∈ subtrees (element emptyStroke) →
          tracked (outlined emptyStrokeSvg blueOutline (dom st) emptyStroke d)
                  (dom st !!! nodeId d) (dom st2 !!! nodeId d).
Proof.
  cbv zeta.
  assert (distinctIds (element emptyStroke)) as Hids.
  { apply (bool_decide_unpack _). vm_compute. exact I. }
  split_and!;
    [vm_compute; reflexivity | exact Hids | vm_compute; reflexivity
    | vm_compute; reflexivity |].
  apply restore_after_enhance;
    [vm_compute; reflexivity | exact Hids | vm_compute; reflexivity
    | vm_compute; reflexivity].
Defined.

(** *** Enhancing twice *)

(** C3. [<svg><path fill="red"/></svg>] enhanced twice with the same
    settings, outlines enabled: the first call records the empty string
    for the absent stroke, the guard [!shape.dataset.shinyOriginalStroke]
    holds again of that empty string, and the second call records the
    outline it finds. The attributes after two calls are not the
    attributes after one, the shape is listed twice, and a [restore] then
    leaves the outline on a shape that had none. *)
Lemma enhance_twice_recaptures :
  let st0 := fresh redPathDom in
  let st1 := stateOf (enhance plainBrowser redPathSvg redPath blueOutline st0) in
  let st2 := stateOf (enhance plainBrowser redPathSvg redPath blueOutline st1) in
  let st3 := stateOf (restore redPathSvg st2) in
  enhance plainBrowser redPathSvg redPath blueOutline st0 = Normal st1
  ∧ enhance plainBrowser redPathSvg redPath blueOutline st1 = Normal st2
  ∧ getAttribute data_stroke (dom st1 !!! 2) = Some ""
  ∧ getAttribute data_stroke (dom st2 !!! 2) = Some "#00F"
  ∧ attributes (dom st2 !!! 2) ≠ attributes (dom st1 !!! 2)
  ∧ modifiedShapes <$> enhancedElements st2 !! 1 = Some (Some [2; 2])
  ∧ restore redPathSvg st2 = Normal st3
  ∧ getAttribute "stroke" (dom st0 !!! 2) = None
  ∧ getAttribute "stroke" (dom st3 !!! 2) = Some "#00F".
Proof.
  cbv zeta. split_and!; try (vm_compute; reflexivity).
  intros Heq. apply (f_equal (λ m, m !! data_stroke)) in Heq.
  vm_compute in Heq. discriminate.
Qed.

(** *** Capturing the originals *)

(** C4, as stated, fails twice. The second enhancement of a shape without
    stroke overwrites the record of the first; and the record of a shape
    whose stroke is present and empty is the same empty string as the one
    of a shape without stroke. *)
Lemma originals_overwritten_and_conflated :
  let st0 := fresh redPathDom in
  let st1 := stateOf (enhance plainBrowser redPathSvg redPath blueOutline st0) in
  let st2 := stateOf (enhance plainBrowser redPathSvg redPath blueOutline st1) in
  let em0 := fresh emptyStrokeDom in
  let em1 := stateOf (enhance plainBrowser emptyStrokeSvg emptyStroke
                              blueOutline em0) in
  (getAttribute data_stroke (dom st1 !!! 2) = Some ""
   ∧ getAttribute data_stroke (dom st2 !!! 2) = Some "#00F"
   ∧ getAttribute data_stroke_width (dom st1 !!! 2) = Some ""
   ∧ getAttribute data_stroke_width (dom st2 !!! 2) = Some "3"
   ∧ getAttribute data_stroke (dom st2 !!! 2)
     ≠ getAttribute data_stroke (dom st1 !!! 2))
  ∧ (getAttribute "stroke" (dom em0 !!! 2) = Some ""
     ∧ getAttribute "stroke" (dom em0 !!! 3) = None
     ∧ getAttribute data_stroke (dom em1 !!! 2) = Some ""
     ∧ getAttribute data_stroke (dom em1 !!! 3) = Some "").
Proof. vm_compute. done. Qed.

(** C4 (amended). An inline graphic with distinct nodes is enhanced with
    outlines enabled, and [d] is a shape the outline layer does not skip.
    If [d] has no captured stroke yet, the call captures its stroke,
    stroke width and paint order, an absent attribute as the empty string;
    the captured stroke is the empty string exactly when the attribute was
    absent or empty, the two are not told apart. If the captured stroke of
    [d] is not empty, the call leaves the three captured values as they
    are. *)
Theorem originals_captured_on_first_enhancement B root info s st :
  inlineKind info = true → enabled s = true → outlineEnabled s = true →
  distinctIds (element info) → inlineReady st (element info) = true →
  ∃ st',
    enhance B root info s st = Normal st'
    ∧ ∀ d, d ∈ descendants (element info) →
        sel_shape (tagName d) (dom st !!! nodeId d) = true →
        skipped root d = false →
        let e := dom st !!! nodeId d in
        let e' := dom st' !!! nodeId d in
        (getAttribute data_stroke e = None →
           getAttribute data_stroke e'
           = Some (Str.or_empty (getAttribute "stroke" e))
           ∧ getAttribute data_stroke_width e'
             = Some (Str.or_empty (getAttribute "stroke-width" e))
           ∧ getAttribute data_paint_order e' = Some (getStyle "paint-order" e)
           ∧ (getAttribute data_stroke e' = Some "" ↔
                getAttribute "stroke" e = None
                ∨ getAttribute "stroke" e = Some ""))
        ∧ (Str.truthy_opt (getAttribute data_stroke e) = true →
           getAttribute data_stroke e' = getAttribute data_stroke e
           ∧ getAttribute data_stroke_width e'
             = getAttribute data_stroke_width e
           ∧ getAttribute data_paint_order e'
             = getAttribute data_paint_order e).
Proof.
  intros Hkind Hon Hout Hids Hready.
  rewrite (enhance_inline B root info s st Hkind Hon).
  set (svg := element info) in *.
  unfold enhanceInlineSVG. rewrite Hout.
  set (st0 := match enhancedElements st !! nodeId svg with
              | Some _ => st | None => _ end).
  assert (dom st0 = dom st) as Hdom0.
  { unfold st0. by destruct (enhancedElements st !! nodeId svg). }
  assert (∃ f l0, enhancedElements st0 !! nodeId svg = Some (Stored f (Some l0)))
    as (f & l0 & Hrec).
  { unfold inlineReady, recordOf in Hready. unfold st0.
    destruct (enhancedElements st !! nodeId svg) as [[f [l0|]]|] eqn:E;
      [by eauto|done|]. eexists _, _. cbn. by rewrite lookup_insert_eq. }
  destruct (addOutlines_spec root s svg Hids st0 f l0 Hrec)
    as (st_o & -> & Hees & Hin & _).
  eexists. split; [done|].
  intros d Hd Hshape Hskip. cbv zeta.
  rewrite inlineLayers_inside by done.
  rewrite Hin by done. rewrite Hdom0, Hshape, Hskip. cbn [negb andb].
  set (e := dom st !!! nodeId d) in *.
  destruct (layersView_frame B s d (outlineLocal s e)) as [Hframe _].
  set (e' := layersView B s d (outlineLocal s e)) in *.
  unfold obsOutline in Hframe. injection Hframe as _ _ -> -> -> _ _.
  split.
  - intros Hnone.
    destruct (outlineLocal_obs s e) as (-> & -> & ->).
    { by rewrite Hnone. }
    split_and!; [done..|].
    unfold Str.or_empty, Str.truthy.
    destruct (getAttribute "stroke" e) as [v|]; [|by split; [left|]].
    destruct (String.eqb_spec v "") as [->|Hne]; cbn.
    + by split; [right|].
    + split; [congruence|]. intros [?|?]; congruence.
  - intros Hcap. by apply outlineLocal_captured.
Qed.

Lemma originals_captured_on_first_enhancement_witness :
  inlineKind emptyStroke = true ∧ enabled blueOutline = true
  ∧ outlineEnabled blueOutline = true ∧ distinctIds (element emptyStroke)
  ∧ inlineReady (fresh emptyStrokeDom) (element emptyStroke) = true
  ∧ ∃ st',
      enhance plainBrowser emptyStrokeSvg emptyStroke blueOutline
              (fresh emptyStrokeDom) = Normal st'
      ∧ ∀ d, d ∈ descendants (element emptyStroke) →
          sel_shape (tagName d) (dom (fresh emptyStrokeDom) !!! nodeId d) = true →
          skipped emptyStrokeSvg d = false →
          let e := dom (fresh emptyStrokeDom) !!! nodeId d in
          let e' := dom st' !!! nodeId d in
          (getAttribute data_stroke e = None →
             getAttribute data_stroke e'
             = Some (Str.or_empty (getAttribute "stroke" e))
             ∧ getAttribute data_stroke_width e'
               = Some (Str.or_empty (getAttribute "stroke-width" e))
             ∧ getAttribute data_paint_order e'
               = Some (getStyle "paint-order" e)
             ∧ (getAttribute data_stroke e' = Some "" ↔
                  getAttribute "stroke" e = None
                  ∨ getAttribute "stroke" e = Some ""))
          ∧ (Str.truthy_opt (getAttribute data_stroke e) = true →
             getAttribute data_stroke e' = getAttribute data_stroke e
             ∧ getAttribute data_stroke_width e'
               = getAttribute data_stroke_width e
             ∧ getAttribute data_paint_order e'
               = getAttribute data_paint_order e).
Proof.
  assert (distinctIds (element emptyStroke)) as Hids.
  { apply (bool_decide_unpack _). vm_compute. exact I. }
  split_and!; [reflexivity | reflexivity | reflexivity | exact Hids
              | vm_compute; reflexivity |].
  apply originals_captured_on_first_enhancement;
    [reflexivity | reflexivity | reflexivity | exact Hids
    | vm_compute; reflexivity].
Defined.

(** *** Disabling the outlines *)

(** C5, as stated, fails: after an enhancement with outlines and a second
    one without, the list of modified shapes of the root still holds the
    shape. *)
Lemma modified_list_not_cleared :
  let st1 := stateOf (enhance plainBrowser redPathSvg redPath blueOutline
                              (fresh redPathDom)) in
  let st2 := stateOf (enhance plainBrowser redPathSvg redPath noOutline st1) in
  enhance plainBrowser redPathSvg redPath noOutline st1 = Normal st2
  ∧ modifiedShapes <$> enhancedElements st2 !! 1 = Some (Some [2])
  ∧ modifiedShapes <$> enhancedElements st2 !! 1 ≠ Some (Some []).
Proof. vm_compute. done. Qed.

(** C5 (amended). An inline graphic with distinct nodes that has a record
    is enhanced again with outlines disabled. The call ends normally;
    every shape of the list of modified shapes has its stroke and stroke
    width back from its record (the attribute is removed where the record
    is empty), its paint order back from its record, and has lost the
    outline class; the list itself is left as it was. *)
Theorem disabling_outlines_restores_shapes B root info s st f l :
  inlineKind info = true → enabled s = true → outlineEnabled s = false →
  distinctIds (element info) →
  enhancedElements st !! nodeId (element info) = Some (Stored f (Some l)) →
  ∃ st',
    enhance B root info s st = Normal st'
    ∧ enhancedElements st' !! nodeId (element info) = Some (Stored f (Some l))
    ∧ ∀ i, i ∈ l →
        let e := dom st !!! i in
        let e' := dom st' !!! i in
        getAttribute "stroke" e' = unlessEmpty (getAttribute data_stroke e)
        ∧ getAttribute "stroke-width" e'
          = unlessEmpty (getAttribute data_stroke_width e)
        ∧ getStyle "paint-order" e'
          = from_option id (getStyle "paint-order" e)
                        (getAttribute data_paint_order e)
        ∧ classContains cls_outlined e' = false.
Proof.
  intros Hkind Hon Hoff Hids Hrec.
  rewrite (enhance_inline B root info s st Hkind Hon).
  unfold enhanceInlineSVG. rewrite Hrec, Hoff.
  destruct (removeOutlines_spec _ st f l Hrec) as (st_o & -> & Hees & Hdom).
  rewrite <- Hees in Hrec.
  eexists. split_and!; [done| |].
  - by rewrite inlineLayers_records.
  - intros i Hi. cbv zeta.
    pose proof (inlineLayers_obsOutline B s (element info) st_o _ i Hids Hrec)
      as Hframe.
    rewrite Hdom in Hframe. destruct (occurrences_in i l Hi) as (n & Hn).
    rewrite Hn, restoreShape_iter_obs, restoreShape_obs in Hframe.
    set (e' := dom (inlineLayers B s (element info) st_o) !!! i) in *.
    unfold obsOutline in Hframe. by injection Hframe as -> -> _ _ _ -> ->.
Qed.

Lemma disabling_outlines_restores_shapes_witness :
  inlineKind redPath = true ∧ enabled noOutline = true
  ∧ outlineEnabled noOutline = false ∧ distinctIds (element redPath)
  ∧ enhancedElements
      (stateOf (enhance plainBrowser redPathSvg redPath blueOutline
                        (fresh redPathDom)))
      !! nodeId (element redPath) = Some (Stored "" (Some [2]))
  ∧ ∃ st',
      enhance plainBrowser redPathSvg redPath noOutline
        (stateOf (enhance plainBrowser redPathSvg redPath blueOutline
                          (fresh redPathDom))) = Normal st'
      ∧ enhancedElements st' !! nodeId (element redPath)
        = Some (Stored "" (Some [2]))
      ∧ ∀ i, i ∈ [2] →
          let e := dom (stateOf (enhance plainBrowser redPathSvg redPath
                                         blueOutline (fresh redPathDom))) !!! i in
          let e' := dom st' !!! i in
          getAttribute "stroke" e' = unlessEmpty (getAttribute data_stroke e)
          ∧ getAttribute "stroke-width" e'
            = unlessEmpty (getAttribute data_stroke_width e)
          ∧ getStyle "paint-order" e'
            = from_option id (getStyle "paint-order" e)
                          (getAttribute data_paint_order e)
          ∧ classContains cls_outlined e' = false.
Proof.
  assert (distinctIds (element redPath)) as Hids.
  { apply (bool_decide_unpack _). vm_compute. exact I. }
  split_and!; [reflexivity | reflexivity | reflexivity | exact Hids
              | vm_compute; reflexivity |].
  apply disabling_outlines_restores_shapes;
    [reflexivity | reflexivity | reflexivity | exact Hids
    | vm_compute; reflexivity].
Defined.

(** *** The global toggle *)

(** C6. With [enabled] false, [enhance] is [restore] of the primary node:
    same completion, same DOM, same record store, whatever the kind of
    the graphic. *)
Theorem enhance_disabled_is_restore B root info s st :
  enabled s = false →
  enhance B root info s st = restore (element info) st.
Proof. intros Hoff. unfold enhance. by rewrite Hoff. Qed.

Lemma enhance_disabled_is_restore_witness :
  enabled allOff = false
  ∧ enhance plainBrowser redPathSvg redPath allOff
      (stateOf (enhance plainBrowser redPathSvg redPath blueOutline
                        (fresh redPathDom)))
    = restore (element redPath)
        (stateOf (enhance plainBrowser redPathSvg redPath blueOutline
                          (fresh redPathDom))).
Proof.
  split; [reflexivity|]. apply enhance_disabled_is_restore. reflexivity.
Defined.

(** *** Plugin-embedded graphics *)

(** C9. For an [<object>] or [<embed>] graphic and enabled settings,
    [enhance] always ends normally, in every state and whatever the
    browser answers. If the nested document and an [<svg>] in it can be
    reached (and the record of that [<svg>], if any, is one of the inline
    treatment), the call is the inline treatment of that root. If the
    access raises, or there is no document, or no [<svg>] in it, the call
    is the filter-only treatment of the embedding element. *)
Theorem embedded_introspection_never_escapes B root info s st :
  embeddedKind info = true → enabled s = true →
  (∃ st', enhance B root info s st = Normal st')
  ∧ (∀ doc svg,
       svgDocument B (nodeId (element info)) = Document doc →
       querySelector (dom st) sel_svg doc = Some svg →
       inlineReady st svg = true →
       enhance B root info s st = enhanceInlineSVG B doc s svg st
       ∧ ∃ st', enhanceInlineSVG B doc s svg st = Normal st')
  ∧ (svgDocument B (nodeId (element info)) = Denied
     ∨ svgDocument B (nodeId (element info)) = NoDocument
     ∨ (∃ doc, svgDocument B (nodeId (element info)) = Document doc
               ∧ querySelector (dom st) sel_svg doc = None) →
     enhance B root info s st = Normal (enhanceImgSVG s (element info) st)).
Proof.
  intros Hkind Hon. unfold enhance. rewrite Hon. cbn [negb].
  assert (match type info with
          | inline | lottie => enhanceInlineSVG B root s (element info) st
          | img => Normal (enhanceImgSVG s (element info) st)
          | object | embed => enhanceEmbeddedSVG B s (element info) st
          end = enhanceEmbeddedSVG B s (element info) st) as ->.
  { unfold embeddedKind in Hkind. by destruct (type info). }
  unfold enhanceEmbeddedSVG. split_and!.
  - destruct (svgDocument B (nodeId (element info))) as [| |doc];
      [by eexists..|].
    destruct (querySelector (dom st) sel_svg doc) as [svg|]; [|by eexists].
    destruct (enhanceInlineSVG B doc s svg st); by eexists.
  - intros doc svg -> -> Hready.
    destruct (enhanceInlineSVG_ready B doc s svg st Hready) as (st' & ->).
    by eauto.
  - intros [->|[->|(doc & -> & ->)]]; done.
Qed.

Lemma embedded_introspection_never_escapes_witness :
  embeddedKind objectGraphic = true ∧ enabled blueOutline = true
  ∧ (∃ st', enhance sameOrigin objectEl objectGraphic blueOutline (fresh ∅)
            = Normal st')
  ∧ (∀ doc svg,
       svgDocument sameOrigin (nodeId (element objectGraphic)) = Document doc →
       querySelector (dom (fresh ∅)) sel_svg doc = Some svg →
       inlineReady (fresh ∅) svg = true →
       enhance sameOrigin objectEl objectGraphic blueOutline (fresh ∅)
       = enhanceInlineSVG sameOrigin doc blueOutline svg (fresh ∅)
       ∧ ∃ st', enhanceInlineSVG sameOrigin doc blueOutline svg (fresh ∅)
                = Normal st')
  ∧ (svgDocument sameOrigin (nodeId (element objectGraphic)) = Denied
     ∨ svgDocument sameOrigin (nodeId (element objectGraphic)) = NoDocument
     ∨ (∃ doc, svgDocument sameOrigin (nodeId (element objectGraphic))
               = Document doc
               ∧ querySelector (dom (fresh ∅)) sel_svg doc = None) →
     enhance sameOrigin objectEl objectGraphic blueOutline (fresh ∅)
     = Normal (enhanceImgSVG blueOutline (element objectGraphic) (fresh ∅))).
Proof.
  split; [reflexivity|]. split; [reflexivity|].
  apply embedded_introspection_never_escapes; reflexivity.
Defined.


(** *** The scenarios of the specification *)

(** One [<path fill="red">] without stroke: enhancing sets the stroke, the
    stroke width and the paint order, restoring removes the two attributes
    and the paint order. *)
Example red_path_outlined_and_restored :
  let st1 := stateOf (enhance plainBrowser redPathSvg redPath blueOutline
                              (fresh redPathDom)) in
  let st2 := stateOf (restore redPathSvg st1) in
  (getAttribute "stroke" (dom st1 !!! 2) = Some "#00F"
   ∧ getAttribute "stroke-width" (dom st1 !!! 2) = Some "3"
   ∧ getStyle "paint-order" (dom st1 !!! 2) = "stroke fill")
  ∧ (getAttribute "stroke" (dom st2 !!! 2) = None
     ∧ getAttribute "stroke-width" (dom st2 !!! 2) = None
     ∧ getStyle "paint-order" (dom st2 !!! 2) = ""
     ∧ enhancedElements st2 = ∅).
Proof. vm_compute. done. Qed.

(** [<img src="icon.svg">] with maximum contrast and no outline: the filter
    is the contrast term alone. *)
Example icon_maximum_contrast :
  getStyle "filter"
    (dom (stateOf (enhance plainBrowser imgEl icon maximumContrast
                           (fresh imgDom))) !!! 50)
  = "contrast(2)".
Proof. vm_compute. done. Qed.

(** An [<object>] that refuses the access gets the filter-only treatment,
    and restoring it brings the element back. *)
Example cross_origin_object_filtered :
  let st1 := stateOf (enhance crossOrigin objectEl objectGraphic blueOutline
                              (fresh ∅)) in
  enhance crossOrigin objectEl objectGraphic blueOutline (fresh ∅) = Normal st1
  ∧ getStyle "filter" (dom st1 !!! 30)
    = "contrast(1.6) drop-shadow(0 0 3px #00F)"
  ∧ classContains cls_enhanced_img (dom st1 !!! 30) = true
  ∧ getStyle "filter" (dom (stateOf (restore objectEl st1)) !!! 30) = ""
  ∧ classContains cls_enhanced_img (dom (stateOf (restore objectEl st1)) !!! 30)
    = false.
Proof. vm_compute. done. Qed.

End EnhancerFacts.

(** ** The shadow-tree walker *)

Module WalkerFacts.
Import Dom Detector Composed Scenarios.

Lemma tree_induction (P : tree → Prop) :
  (∀ i g sh ks, (∀ s, sh = Some s → P s) → Forall P ks → P (Node i g sh ks)) →
  ∀ t, P t.
Proof.
  intros H. fix IH 1. intros [i g sh ks]. apply H.
  - destruct sh as [s|]; intros s' Heq; [|discriminate].
    injection Heq as <-. apply IH.
  - induction ks as [|k ks IHks]; constructor; [apply IH|exact IHks].
Qed.

Lemma elem_of_flat_map {A B} (f : A → list B) (l : list A) (x : B) :
  x ∈ flat_map f l ↔ ∃ y, y ∈ l ∧ x ∈ f y.
Proof.
  rewrite list_elem_of_In, in_flat_map. split.
  - intros (y & Hy & Hx). exists y. by rewrite !list_elem_of_In.
  - intros (y & Hy & Hx). exists y. by rewrite <- !list_elem_of_In.
Qed.

Lemma reachedBelow_spec ks x :
  reachedBelow ks x ↔ ∃ k, k ∈ ks ∧ reached k x.
Proof.
  unfold reachedBelow, reached. rewrite elem_of_flat_map. split.
  - intros [(k & Hk & Hx)|(s & Hs & Hx)].
    + exists k. auto.
    + apply elem_of_flat_map in Hs as (k & Hk & Hs). exists k. eauto.
  - intros (k & Hk & [Hx|(s & Hs & Hx)]).
    + left. eauto.
    + right. exists s. split; [|done]. apply elem_of_flat_map. eauto.
Qed.

Lemma inclusive_reached t :
  (∀ x, x ∈ inclusive t ↔ reached t x)
  ∧ (∀ x, x ∈ flat_map inclusive (children t) ↔ reachedBelow (children t) x).
Proof.
  induction t as [i g sh ks IHsh IHks] using tree_induction.
  assert (∀ x, x ∈ flat_map inclusive ks ↔ reachedBelow ks x) as Hks.
  { intros x. rewrite reachedBelow_spec, elem_of_flat_map.
    rewrite Forall_forall in IHks.
    split; intros (k & Hk & Hx); exists k; (split; [done|]);
      by apply (IHks k Hk). }
  split; [|exact Hks].
  intros x. unfold reached. cbn [inclusive subtrees shadowRootsUnder].
  rewrite !elem_of_cons, !elem_of_app, Hks. unfold reachedBelow.
  destruct sh as [[j g' sh' ks']|].
  - destruct (IHsh _ eq_refl) as [_ Hsh]. cbn [children] in Hsh.
    rewrite Hsh. unfold reachedBelow. split.
    + intros [->|[[Hx|(s & Hs & Hx)]|[Hx|(s & Hs & Hx)]]]; [by left; left| | | |].
      * right. eexists. split; [apply elem_of_app; left; left|]. done.
      * right. exists s. split; [|done]. apply elem_of_app. left. by right.
      * left. by right.
      * right. exists s. split; [|done]. apply elem_of_app. by right.
    + intros [[->|Hx]|(s & Hs & Hx)]; [by left| |].
      * right. right. by left.
      * apply elem_of_app in Hs as [Hs|Hs].
        -- apply elem_of_cons in Hs as [->|Hs].
           ++ right. left. by left.
           ++ right. left. right. eauto.
        -- right. right. right. eauto.
  - split.
    + intros [->|[Hx|[Hx|(s & Hs & Hx)]]]; [by left; left| | |].
      * by apply elem_of_nil in Hx.
      * left. by right.
      * right. eauto.
    + intros [[->|Hx]|(s & Hs & Hx)]; [by left| |].
      * right. right. by left.
      * right. right. right. eauto.
Qed.

Lemma querySelectorAllDeep_composed h sel root t :
  t ∈ querySelectorAllDeep h sel root
  ↔ t ∈ composedDescendants root ∧ matches h sel t = true.
Proof.
  unfold querySelectorAllDeep, composedDescendants, traverseShadowRoots.
  destruct (inclusive_reached root) as [_ ->].
  unfold reachedBelow, querySelectorAll. fold (descendants root).
  rewrite elem_of_app, list_elem_of_filter, elem_of_flat_map. split.
  - intros [[Hm Hd]|(s & Hs & Hx)]; [by auto|].
    apply list_elem_of_filter in Hx as [Hm Hx]. split; [|done]. right. eauto.
  - intros [[Hd|(s & Hs & Hx)] Hm]; [by left|].
    right. exists s. split; [done|]. by apply list_elem_of_filter.
Qed.

(** The shadow roots the walker visits below an element are the shadow
    roots of the elements of the composed page there. *)
Lemma shadowRootsUnder_hosts t :
  (∀ s, s ∈ shadowRootsUnder t
        ↔ ∃ host, host ∈ inclusive t ∧ shadowRoot host = Some s)
  ∧ (∀ s, s ∈ flat_map shadowRootsUnder (children t)
          ↔ ∃ host, host ∈ flat_map inclusive (children t)
                    ∧ shadowRoot host = Some s).
Proof.
  induction t as [i g sh ks IHsh IHks] using tree_induction.
  assert (∀ s, s ∈ flat_map shadowRootsUnder ks
               ↔ ∃ host, host ∈ flat_map inclusive ks ∧ shadowRoot host = Some s)
    as Hks.
  { intros s. rewrite elem_of_flat_map. rewrite Forall_forall in IHks. split.
    - intros (k & Hk & Hs). apply (IHks k Hk) in Hs as (host & Hh & Hsr).
      exists host. split; [|done]. apply elem_of_flat_map. eauto.
    - intros (host & Hh & Hsr). apply elem_of_flat_map in Hh as (k & Hk & Hh).
      exists k. split; [done|]. apply (IHks k Hk). eauto. }
  split; [|exact Hks].
  intros s. cbn [shadowRootsUnder inclusive]. rewrite elem_of_app, Hks.
  destruct sh as [[j g' sh' ks']|].
  - destruct (IHsh _ eq_refl) as [_ Hsh]. cbn [children] in Hsh.
    rewrite elem_of_cons, Hsh. split.
    + intros [[->|(host & Hh & Hsr)]|(host & Hh & Hsr)].
      * eexists. split; [left|done].
      * exists host. split; [|done]. right. apply elem_of_app. by left.
      * exists host. split; [|done]. right. apply elem_of_app. by right.
    + intros (host & Hh & Hsr). apply elem_of_cons in Hh as [->|Hh].
      * cbn in Hsr. injection Hsr as <-. left. by left.
      * apply elem_of_app in Hh as [Hh|Hh]; [left; right|right]; eauto.
  - split.
    + intros [Hn|(host & Hh & Hsr)]; [by apply elem_of_nil in Hn|].
      exists host. split; [|done]. right. by apply elem_of_app; right.
    + intros (host & Hh & Hsr). apply elem_of_cons in Hh as [->|Hh]; [done|].
      apply elem_of_app in Hh as [Hh|Hh]; [by apply elem_of_nil in Hh|].
      right. eauto.
Qed.

(** X2. The walker covers the composed page. [traverseShadowRoots] calls back
    with the shadow root of every element below [root], whatever the
    depth of nesting, and with nothing else; [querySelectorAllDeep]
    returns the elements below [root] that match, those of every shadow
    tree included, and nothing else. *)
Theorem walker_covers_composed_page h sel root :
  (∀ s, s ∈ traverseShadowRoots root
        ↔ ∃ host, host ∈ composedDescendants root ∧ shadowRoot host = Some s)
  ∧ (∀ t, t ∈ querySelectorAllDeep h sel root
          ↔ t ∈ composedDescendants root ∧ matches h sel t = true).
Proof.
  split.
  - intros s. unfold traverseShadowRoots, composedDescendants.
    apply shadowRootsUnder_hosts.
  - intros t. apply querySelectorAllDeep_composed.
Qed.

Lemma inclusive_trans t :
  (∀ c x, c ∈ inclusive t → x ∈ inclusive c → x ∈ inclusive t)
  ∧ (∀ c x, c ∈ flat_map inclusive (children t) → x ∈ inclusive c →
       x ∈ flat_map inclusive (children t)).
Proof.
  induction t as [i g sh ks IHsh IHks] using tree_induction.
  assert (∀ c x, c ∈ flat_map inclusive ks → x ∈ inclusive c →
            x ∈ flat_map inclusive ks) as Hks.
  { intros c x Hc Hx. apply elem_of_flat_map in Hc as (k & Hk & Hc).
    apply elem_of_flat_map. exists k. split; [done|].
    rewrite Forall_forall in IHks. by apply (IHks k Hk) with c. }
  split; [|exact Hks].
  intros c x Hc Hx. cbn [inclusive] in Hc |- *.
  apply elem_of_cons in Hc as [->|Hc]; [done|].
  right. apply elem_of_app in Hc as [Hc|Hc]; apply elem_of_app.
  - left. destruct sh as [[j g' sh' ks']|]; [|by apply elem_of_nil in Hc].
    destruct (IHsh _ eq_refl) as [_ Hsh]. by apply Hsh with c.
  - right. by apply Hks with c.
Qed.

Lemma composed_closed root c x :
  c ∈ composedDescendants root → x ∈ inclusive c → x ∈ composedDescendants root.
Proof. apply inclusive_trans. Qed.

Lemma descendants_inclusive c x : x ∈ descendants c → x ∈ inclusive c.
Proof.
  intros Hx. apply inclusive_reached. left. rewrite EnhancerFacts.subtrees_unfold. by right.
Qed.

Lemma shadow_inclusive c sr x :
  shadowRoot c = Some sr → x ∈ descendants sr → x ∈ inclusive c.
Proof.
  intros Hsr Hx. apply inclusive_reached. right. exists sr. split; [|done].
  destruct c as [i g sh ks]. cbn in Hsr. subst sh. cbn [shadowRootsUnder].
  apply elem_of_app. left. left.
Qed.

Lemma querySelectorAll_elem h sel root t :
  t ∈ querySelectorAll h sel root ↔ t ∈ descendants root ∧ matches h sel t = true.
Proof. unfold querySelectorAll. rewrite list_elem_of_filter. tauto. Qed.

Lemma querySelector_elem h sel root t :
  querySelector h sel root = Some t → t ∈ descendants root ∧ matches h sel t = true.
Proof.
  unfold querySelector. intros H. apply querySelectorAll_elem.
  destruct (querySelectorAll h sel root); [done|].
  cbn in H. injection H as ->. left.
Qed.

Lemma renderedSVG_elem h c svg :
  renderedSVG h c = Some svg → tagName svg = "svg" ∧ svg ∈ inclusive c.
Proof.
  unfold renderedSVG. destruct (querySelector h sel_svg c) eqn:H1.
  - intros [= <-]. apply querySelector_elem in H1 as [Hd Hm]. split.
    + by apply String.eqb_eq.
    + by apply descendants_inclusive.
  - destruct (shadowRoot c) as [sr|] eqn:Hsr; [|done].
    intros [Hd Hm]%querySelector_elem. split.
    + by apply String.eqb_eq.
    + by eapply shadow_inclusive.
Qed.

Lemma foldl_Forall {A B} (Q : B → Prop) (f : list B → A → list B) (l : list A) acc :
  (∀ acc x, x ∈ l → Forall Q acc → Forall Q (f acc x)) →
  Forall Q acc → Forall Q (foldl f acc l).
Proof.
  revert acc. induction l as [|x l IH]; intros acc Hf Hacc; [done|].
  cbn [foldl]. apply IH.
  - intros acc' y Hy. apply Hf. by right.
  - apply Hf; [left|done].
Qed.

Lemma detectLottieContainers_entries w :
  Forall (lottieEntry (document w)) (detectLottieContainers w).1.
Proof.
  unfold detectLottieContainers.
  set (h := elements w). set (doc := document w).
  assert (∀ sel l, Forall (lottieEntry doc) l →
            Forall (lottieEntry doc)
              (foldl (λ acc c, match querySelector h sel_svg c with
                               | Some svg => acc ++ [SvgInfo lottie svg (Some c)]
                               | None => acc
                               end) l (querySelectorAllDeep h sel doc))) as Hclass.
  { intros sel l Hl. apply foldl_Forall; [|done].
    intros acc c Hc Hacc.
    destruct (querySelector h sel_svg c) as [svg|] eqn:Hq; [|done].
    apply Forall_app. split; [done|]. constructor; [|constructor].
    apply querySelector_elem in Hq as [Hd Hm].
    apply querySelectorAllDeep_composed in Hc as [Hc _].
    split_and!; [done|by apply String.eqb_eq|].
    eapply composed_closed; [exact Hc|]. by apply descendants_inclusive. }
  set (m1 := foldl _ [] _).
  assert (Forall (lottieEntry doc) m1) as Hm1 by (apply Hclass; constructor).
  set (f := (λ '(acc, w0) p, match renderedSVG h p with
        | Some svg => (acc ++ [SvgInfo lottie svg (Some p)], w0)
        | None => (acc, observeLottieContainer p w0) end)).
  assert (∀ l acc w0, (∀ p, p ∈ l → p ∈ composedDescendants doc) →
            Forall (lottieEntry doc) acc →
            Forall (lottieEntry doc) (foldl f (acc, w0) l).1) as Hfold.
  { clear -h. intros l. induction l as [|p l IH]; intros acc w0 Hl Hacc; [done|].
    cbn [foldl]. unfold f at 2.
    destruct (renderedSVG h p) as [svg|] eqn:Hr.
    - apply IH; [intros; apply Hl; by right|].
      apply Forall_app. split; [done|]. constructor; [|constructor].
      apply renderedSVG_elem in Hr as [Ht Hin].
      split_and!; [done..|]. eapply composed_closed; [|exact Hin].
      apply Hl. left.
    - apply IH; [intros; apply Hl; by right|done]. }
  specialize (Hfold (querySelectorAllDeep h sel_lottie_player doc) m1 w).
  destruct (foldl f (m1, w) _) as [m2 w2]. cbn [fst] in *.
  assert (Forall (lottieEntry doc) m2) as Hm2.
  { apply Hfold; [|done]. intros p Hp.
    by apply querySelectorAllDeep_composed in Hp as [? _]. }
  apply foldl_Forall; [|by apply Hclass].
  intros acc svg Hsvg Hacc. destruct (existsb _ acc); [done|].
  apply Forall_app. split; [done|]. constructor; [|constructor].
  apply querySelectorAllDeep_composed in Hsvg as [Hc Hm].
  split_and!; [done| |done].
  unfold matches, sel_lottie_svg, sel_and, sel_tag in Hm.
  apply andb_true_iff in Hm as [Hm _]. by apply String.eqb_eq.
Qed.

End WalkerFacts.

(** ** The pass of [start] *)

Module InitialPassFacts.
Import Dom Detector Composed Scenarios Cases DetectorFacts WalkerFacts.

Lemma existsb_or_2 (f g : string → elem → bool) tag e :
  sel_or [f; g] tag e = true → f tag e = true ∨ g tag e = true.
Proof.
  unfold sel_or. cbn [existsb]. rewrite orb_false_r. apply orb_true_iff.
Qed.

(** X3. [detectExisting] gives every entry a kind that fits its element: the
    tag and the attributes are the ones of the selector the entry was
    found with, the [type] of an [<object>] or [<embed>] read up to ASCII
    case, and the element is part of the composed page. *)
Theorem detectExisting_kinds_fit_elements w info :
  info ∈ (detectExisting w).1 →
  classified (elements w) info
  ∧ element info ∈ composedDescendants (document w).
Proof.
  unfold detectExisting.
  pose proof (detectLottieContainers_entries w) as Hl.
  destruct (detectLottieContainers w) as [lotties w2]. cbn [fst] in *.
  rewrite !elem_of_app.
  assert (∀ kind sel,
            info ∈ map (λ el, SvgInfo kind el None)
                       (querySelectorAllDeep (elements w) sel (document w)) →
            type info = kind ∧ container info = None
            ∧ matches (elements w) sel (element info) = true
            ∧ element info ∈ composedDescendants (document w)) as Hfound.
  { intros kind sel Hin. apply list_elem_of_In, in_map_iff in Hin as (el & <- & Hel).
    apply list_elem_of_In, querySelectorAllDeep_composed in Hel.
    cbn. tauto. }
  unfold classified.
  intros [Hin|[Hin|[Hin|[Hin|Hin]]]].
  - apply Hfound in Hin as (-> & Hc & Hm & Hin). split; [|done].
    split; [|done]. by apply String.eqb_eq.
  - apply Hfound in Hin as (-> & Hc & Hm & Hin). split; [|done].
    unfold matches, sel_img_svg, sel_and in Hm.
    apply andb_true_iff in Hm as [Htag Hm]. split; [by apply String.eqb_eq|].
    apply existsb_or_2 in Hm. unfold sel_attr_ends, sel_attr_has in Hm.
    destruct (getAttribute "src" _) as [src|]; [|by destruct Hm].
    exists src. tauto.
  - apply Hfound in Hin as (-> & Hc & Hm & Hin). split; [|done].
    unfold matches, sel_object_svg, sel_and in Hm.
    apply andb_true_iff in Hm as [Htag Hm]. split; [by apply String.eqb_eq|].
    apply existsb_or_2 in Hm as [Hm|Hm].
    + left. unfold sel_attr_eq_i in Hm.
      destruct (getAttribute "type" _) as [ty|]; [|done]. exists ty.
      split; [done|]. by apply String.eqb_eq in Hm.
    + right. unfold sel_attr_ends in Hm.
      destruct (getAttribute "data" _) as [data|]; [|done]. by exists data.
  - apply Hfound in Hin as (-> & Hc & Hm & Hin). split; [|done].
    unfold matches, sel_embed_svg, sel_and in Hm.
    apply andb_true_iff in Hm as [Htag Hm]. split; [by apply String.eqb_eq|].
    apply existsb_or_2 in Hm as [Hm|Hm].
    + left. unfold sel_attr_eq_i in Hm.
      destruct (getAttribute "type" _) as [ty|]; [|done]. exists ty.
      split; [done|]. by apply String.eqb_eq in Hm.
    + right. unfold sel_attr_ends in Hm.
      destruct (getAttribute "src" _) as [src|]; [|done]. by exists src.
  - rewrite Forall_forall in Hl. destruct (Hl _ Hin) as (-> & Ht & Hc). done.
Qed.

Lemma registerSVG_sees info w :
  nodeId (element info) ∈ detectedSVGs (this (registerSVG info w)).
Proof.
  unfold registerSVG. destruct (decide _) as [Hin|Hnin]; [done|].
  unfold with_this. cbn. destruct (onSVGDetected (this w)); cbn; set_solver.
Qed.

Lemma foldl_registerSVG_sees (l : list svgInfo) w info :
  info ∈ l →
  nodeId (element info) ∈ detectedSVGs (this (foldl (λ w i, registerSVG i w) w l)).
Proof.
  revert w. induction l as [|x l IH]; intros w Hin; [by apply elem_of_nil in Hin|].
  cbn [foldl]. apply elem_of_cons in Hin as [->|Hin]; [|by apply IH].
  assert (extends (λ _, True) (registerSVG x w)
            (foldl (λ w i, registerSVG i w) (registerSVG x w) l)) as [Hsub _].
  { apply extends_foldl. intros. by apply registerSVG_extends. }
  apply Hsub, registerSVG_sees.
Qed.

(** The calls [reg] made are about entries of [l] that were not seen. *)
Lemma foldl_registerSVG_extends (l : list svgInfo) w :
  extends (λ info, info ∈ l) w (foldl (λ w i, registerSVG i w) w l).
Proof. apply extends_foldl. intros x w' Hx. by apply registerSVG_extends. Qed.

(** X4. The pass of [start] over the page never reports an animation-hosted
    graphic as such: every [<svg>] is entered as an inline graphic first,
    and the seen-set suppresses the entry that [detectLottieContainers]
    makes for it. *)
Theorem initial_pass_reports_no_lottie_kind w cb :
  ∃ new,
    calls (start cb w) = calls w ++ new
    ∧ Forall (λ c, type (snd c) ≠ lottie) new.
Proof.
  assert (extends (λ info, type info ≠ lottie) w (start cb w)) as [_ (new & Hnew & _ & Hall)].
  2:{ exists new. split; [done|]. eapply Forall_impl; [exact Hall|]. by intros c [? _]. }
  unfold start. set (w1 := with_this _ w).
  eapply extends_trans; [by apply (extends_frame _ w w1)|].
  unfold detectExisting.
  pose proof (detectLottieContainers_entries w1) as Hl.
  pose proof (detectLottieContainers_extends (λ info, type info ≠ lottie) w1) as H2.
  destruct (detectLottieContainers w1) as [lotties w2]. cbn [fst snd] in *.
  eapply extends_trans; [exact H2|].
  eapply extends_trans; [|apply observeDynamicContent_extends].
  set (h := elements w1) in *. set (doc := document w1) in *.
  set (inl := map (λ el, SvgInfo inline el None) (querySelectorAllDeep h sel_svg doc)).
  set (rest := _ ++ _ ++ _ ++ lotties).
  rewrite foldl_app.
  set (wa := foldl _ w2 inl).
  eapply extends_trans.
  { eapply extends_weaken; [|apply (foldl_registerSVG_extends inl w2)].
    intros info Hin. apply list_elem_of_In, in_map_iff in Hin as (el & <- & _). done. }
  destruct (foldl_registerSVG_extends rest wa) as [Hsub (new & Hnew & Hnd & Hall)].
  split; [done|]. exists new. split_and!; [done..|].
  eapply Forall_impl; [exact Hall|]. intros c (Hin & Hunseen & Hseen).
  split_and!; [|done..]. intros Hkind.
  assert (snd c ∈ lotties) as Hlot.
  { unfold rest in Hin. rewrite !elem_of_app in Hin.
    destruct Hin as [Hin|[Hin|[Hin|Hin]]]; [..|done];
      apply list_elem_of_In, in_map_iff in Hin as (el & Heq & _);
      rewrite <- Heq in Hkind; done. }
  rewrite Forall_forall in Hl. destruct (Hl _ Hlot) as (_ & Htag & Hcomp).
  apply Hunseen. unfold reportedNode.
  apply (foldl_registerSVG_sees inl w2 (SvgInfo inline (element (snd c)) None)).
  apply list_elem_of_In, in_map_iff. exists (element (snd c)). split; [done|].
  apply list_elem_of_In, querySelectorAllDeep_composed.
  split; [done|]. unfold matches, sel_svg, sel_tag. by apply String.eqb_eq.
Qed.

(** X5. After [start], every [<svg>] of the composed page, at any shadow
    depth, has been handed to the callback, unless the detector had seen
    it before. *)
Theorem initial_pass_covers_composed_page w cb t :
  t ∈ composedDescendants (document w) → tagName t = "svg" →
  nodeId t ∈ detectedSVGs (this w) ∨ nodeId t ∈ reported (start cb w).
Proof.
  intros Ht Htag. apply initial_pass_reports_every_svg.
  apply querySelectorAllDeep_composed. split; [done|].
  unfold matches, sel_svg, sel_tag. by apply String.eqb_eq.
Qed.

Lemma initial_pass_covers_composed_page_witness :
  Node 14 "svg" None [] ∈ composedDescendants (document (load shadowPage ∅))
  ∧ tagName (Node 14 "svg" None []) = "svg"
  ∧ (14 ∈ detectedSVGs (this (load shadowPage ∅))
     ∨ 14 ∈ reported (start 1 (load shadowPage ∅))).
Proof.
  assert (Node 14 "svg" None [] ∈ composedDescendants (document (load shadowPage ∅)))
    as Hin.
  { vm_compute. do 5 right. left. }
  split_and!; [exact Hin|reflexivity|].
  apply (initial_pass_covers_composed_page (load shadowPage ∅) 1
           (Node 14 "svg" None []) Hin). reflexivity.
Defined.


Lemma detectExisting_kinds_fit_elements_witness :
  let w := load upperTypePage upperTypeDom in
  let info := SvgInfo object (Node 30 "object" None []) None in
  info ∈ (detectExisting w).1
  ∧ classified (elements w) info
  ∧ element info ∈ composedDescendants (document w).
Proof.
  cbv zeta.
  assert (SvgInfo object (Node 30 "object" None []) None
          ∈ (detectExisting (load upperTypePage upperTypeDom)).1) as Hin.
  { vm_compute. left. }
  split; [exact Hin|].
  exact (detectExisting_kinds_fit_elements (load upperTypePage upperTypeDom)
           _ Hin).
Defined.

End InitialPassFacts.

(** ** Watchers *)

Module WatcherFacts.
Import Dom Detector Composed Scenarios DetectorFacts.

Lemma shrinks_refl w : shrinks w w.
Proof. intros i o Ho. by exists o. Qed.

Lemma shrinks_trans w1 w2 w3 : shrinks w1 w2 → shrinks w2 w3 → shrinks w1 w3.
Proof.
  intros H12 H23 i o Ho.
  destruct (H12 i o Ho) as (o2 & Ho2 & Hc2 & Ht2).
  destruct (H23 i o2 Ho2) as (o3 & Ho3 & Hc3 & Ht3).
  exists o3. split_and!; [done|congruence|set_solver].
Qed.

Lemma shrinks_foldl {A} (f : world → A → world) (l : list A) w :
  (∀ x w, shrinks w (f w x)) → shrinks w (foldl f w l).
Proof.
  intros Hf. revert w. induction l as [|x l IH]; intros w; [apply shrinks_refl|].
  cbn [foldl]. eapply shrinks_trans; [apply Hf|apply IH].
Qed.

Lemma shrinks_registry w w' : registry w' = registry w → shrinks w w'.
Proof. intros Heq i o Ho. exists o. by rewrite Heq. Qed.

Lemma disconnect_shrinks obs w : shrinks w (disconnect obs w).
Proof.
  intros i o Ho. unfold disconnect, with_registry. cbn [registry].
  destruct (decide (i = obs)) as [->|Hne].
  - eexists. rewrite list_lookup_alter_eq, Ho. cbn. split_and!; [done..|].
    apply list_subseteq_nil.
  - exists o. by rewrite list_lookup_alter_ne.
Qed.

(** A new observer registered on some nodes leaves the others as they
    are. *)
Lemma observe_new_shrinks cb (l : list nat) w :
  shrinks w (foldl (λ w' t, observe (length (registry w)) t w')
                   (newObserver cb w).1 l).
Proof.
  set (n := length (registry w)).
  assert (∀ w', (∀ i, i < n → registry w' !! i = registry w !! i) →
                shrinks w w') as Hfresh.
  { intros w' Hw' i o Ho. exists o. rewrite Hw'; [done|].
    by eapply lookup_lt_Some. }
  apply Hfresh.
  assert (∀ i, i < n → registry (newObserver cb w).1 !! i = registry w !! i) as H0.
  { intros i Hi. unfold newObserver, with_registry. cbn. by rewrite lookup_app_l. }
  revert H0. generalize (newObserver cb w).1. intros w0.
  induction l as [|t l IH] in w0 |- *; intros H0; [done|].
  cbn [foldl]. apply IH. intros i Hi.
  unfold observe, with_registry. cbn [registry].
  rewrite list_lookup_alter_ne; [by apply H0|]. fold n. lia.
Qed.

Lemma observeLottieContainer_shrinks c w :
  shrinks w (observeLottieContainer c w).
Proof.
  unfold observeLottieContainer.
  pose proof (observe_new_shrinks (LottieRendered (nodeId c))
                (nodeId c :: match shadowRoot c with
                             | Some sr => [nodeId sr] | None => [] end) w) as H.
  cbn [newObserver fst] in *. by destruct (shadowRoot c).
Qed.

Lemma observeShadowRoot_shrinks sr w : shrinks w (observeShadowRoot sr w).
Proof.
  unfold observeShadowRoot. destruct (decide _); [apply shrinks_refl|].
  pose proof (observe_new_shrinks AddedNodes [nodeId sr] w) as H.
  cbn [newObserver fst foldl] in *.
  eapply shrinks_trans; [exact H|]. by apply shrinks_registry.
Qed.

Lemma registerSVG_shrinks info w : shrinks w (registerSVG info w).
Proof.
  apply shrinks_registry. unfold registerSVG. destruct (decide _); [done|].
  unfold with_this. cbn. by destruct (onSVGDetected (this w)).
Qed.

Lemma checkShadowHost_shrinks w el : shrinks w (checkShadowHost w el).
Proof.
  unfold checkShadowHost. destruct (shadowRoot el) as [sr|]; [|apply shrinks_refl].
  eapply shrinks_trans; [apply observeShadowRoot_shrinks|].
  apply shrinks_foldl. intros. apply registerSVG_shrinks.
Qed.

Lemma checkNodeForSVG_shrinks node w : shrinks w (checkNodeForSVG node w).
Proof.
  unfold checkNodeForSVG. destruct (String.eqb _ _); [apply registerSVG_shrinks|].
  destruct (_ || _); [apply observeLottieContainer_shrinks|].
  eapply shrinks_trans; [|apply checkShadowHost_shrinks].
  eapply shrinks_trans; [|apply shrinks_foldl; intros; apply checkShadowHost_shrinks].
  eapply shrinks_trans;
    [|apply shrinks_foldl; intros; apply observeLottieContainer_shrinks].
  apply shrinks_foldl. intros. apply registerSVG_shrinks.
Qed.

Lemma lottieCallback_shrinks obs c w : shrinks w (lottieCallback obs c w).
Proof.
  unfold lottieCallback. destruct (findNode c (document w)); [|apply shrinks_refl].
  destruct (renderedSVG _ _); [|apply shrinks_refl].
  eapply shrinks_trans; [apply registerSVG_shrinks|apply disconnect_shrinks].
Qed.

Lemma runCallback_shrinks added w obs : shrinks w (runCallback added w obs).
Proof.
  unfold runCallback.
  destruct (registry w !! obs) as [o|]; [|apply shrinks_refl].
  destruct (callback o); [apply checkNodeForSVG_shrinks|apply lottieCallback_shrinks].
Qed.

Lemma insert_shrinks parent sub w : shrinks w (insert parent sub w).
Proof.
  unfold insert. set (w' := World _ _ _ _ _).
  eapply (shrinks_trans _ w'); [by apply shrinks_registry|].
  apply shrinks_foldl. intros obs w0. apply runCallback_shrinks.
Qed.

Lemma stop_shrinks w : shrinks w (stop w).
Proof.
  unfold stop. destruct (observer (this w)) as [obs|].
  - eapply shrinks_trans; [apply disconnect_shrinks|]. by apply shrinks_registry.
  - by apply shrinks_registry.
Qed.

Lemma lottieTimeout_shrinks obs w : shrinks w (lottieTimeout obs w).
Proof.
  unfold lottieTimeout. destruct (registry w !! obs) as [[[] ?]|];
    try apply shrinks_refl. apply disconnect_shrinks.
Qed.

Lemma detectLottieContainers_shrinks w : shrinks w (detectLottieContainers w).2.
Proof.
  unfold detectLottieContainers.
  set (m1 := foldl _ [] _). generalize m1. clear m1. intros m1.
  set (l := querySelectorAllDeep _ sel_lottie_player _). generalize l. clear l. intros l.
  set (h := elements w). generalize h; clear h; intros h.
  set (f := (λ '(acc, w0) p, match renderedSVG h p with
        | Some svg => (acc ++ [SvgInfo lottie svg (Some p)], w0)
        | None => (acc, observeLottieContainer p w0) end)).
  assert (∀ l acc w0, shrinks w0 (foldl f (acc, w0) l).2) as Hfold.
  { clear. intros l. induction l as [|p l IH]; intros acc w0; simpl; [apply shrinks_refl|].
    destruct (renderedSVG h p); [apply IH|].
    eapply shrinks_trans; [apply observeLottieContainer_shrinks|apply IH]. }
  specialize (Hfold l m1 w). destruct (foldl f (m1, w) l) as [m2 w2]. done.
Qed.

Lemma observeDynamicContent_shrinks w : shrinks w (observeDynamicContent w).
Proof.
  unfold observeDynamicContent.
  pose proof (observe_new_shrinks AddedNodes [] w) as H0.
  cbn [newObserver fst snd foldl] in *.
  destruct (documentBody _) as [b|].
  - unfold observeExistingShadowRoots.
    eapply shrinks_trans; [|apply shrinks_foldl; intros; apply observeShadowRoot_shrinks].
    pose proof (observe_new_shrinks AddedNodes [nodeId b] w) as H1.
    cbn [newObserver fst snd foldl] in H1.
    eapply shrinks_trans; [exact H1|]. by apply shrinks_registry.
  - eapply shrinks_trans; [exact H0|]. by apply shrinks_registry.
Qed.

Lemma start_shrinks cb w : shrinks w (start cb w).
Proof.
  unfold start. set (w1 := with_this _ w).
  eapply shrinks_trans; [by apply (shrinks_registry w w1)|].
  unfold detectExisting.
  pose proof (detectLottieContainers_shrinks w1) as H2.
  destruct (detectLottieContainers w1) as [lotties w2]. cbn [snd] in H2.
  eapply shrinks_trans; [exact H2|].
  eapply shrinks_trans; [|apply observeDynamicContent_shrinks].
  apply shrinks_foldl. intros. apply registerSVG_shrinks.
Qed.

Lemma run_shrinks w evs : shrinks w (run w evs).
Proof.
  apply shrinks_foldl. intros ev w'. destruct ev; cbn [step].
  - apply start_shrinks.
  - apply stop_shrinks.
  - apply insert_shrinks.
  - apply lottieTimeout_shrinks.
Qed.

Lemma shrinks_disconnected w w' i o :
  shrinks w w' → registry w !! i = Some o → targets o = [] →
  ∃ o', registry w' !! i = Some o' ∧ callback o' = callback o ∧ targets o' = [].
Proof.
  intros Hs Ho Ht. destruct (Hs i o Ho) as (o' & Ho' & Hc & Hsub).
  exists o'. split_and!; [done..|]. rewrite Ht in Hsub.
  destruct (targets o') as [|x l]; [done|].
  exfalso. eapply elem_of_nil, Hsub. left.
Qed.

(** X6. [stop()] disconnects the document-wide watcher for good: whatever
    happens afterwards, a restart included, the observer that [observer]
    referred to is registered on no node and hears of no insertion. *)
Theorem stop_disconnects_document_watcher w i o evs :
  observer (this w) = Some i → registry w !! i = Some o →
  ∃ o',
    registry (run (stop w) evs) !! i = Some o'
    ∧ targets o' = []
    ∧ ∀ doc parent, hears doc parent o' = false.
Proof.
  intros Hobs Ho.
  assert (∃ o1, registry (stop w) !! i = Some o1 ∧ targets o1 = [])
    as (o1 & Ho1 & Ht1).
  { unfold stop. rewrite Hobs. unfold disconnect, with_this, with_registry.
    cbn. rewrite list_lookup_alter_eq, Ho. by eexists. }
  destruct (shrinks_disconnected _ _ i o1 (run_shrinks (stop w) evs) Ho1 Ht1)
    as (o' & Ho' & _ & Ht').
  exists o'. split_and!; [done..|]. intros doc parent. unfold hears.
  by rewrite Ht'.
Qed.

Lemma stop_disconnects_document_watcher_witness :
  observer (this (run (load svgPage ∅) [Start 1])) = Some 0
  ∧ registry (run (load svgPage ∅) [Start 1]) !! 0
    = Some (MutationObserver AddedNodes [3])
  ∧ ∃ o',
      registry (run (stop (run (load svgPage ∅) [Start 1]))
                    [Insert 3 svg15; Start 2; Insert 3 svg31]) !! 0 = Some o'
      ∧ targets o' = []
      ∧ ∀ doc parent, hears doc parent o' = false.
Proof.
  split_and!; [reflexivity..|].
  apply (stop_disconnects_document_watcher _ 0 (MutationObserver AddedNodes [3]));
    reflexivity.
Defined.

(** X7. The watch on an animation player ends with its timer: once the timer
    has fired the observer is registered on no node, and stays so. A
    player that renders later is not reported by it. *)
Theorem lottie_watch_ends_with_timeout w obs c ts evs :
  registry w !! obs = Some (MutationObserver (LottieRendered c) ts) →
  ∃ o',
    registry (run (lottieTimeout obs w) evs) !! obs = Some o'
    ∧ targets o' = []
    ∧ ∀ doc parent, hears doc parent o' = false.
Proof.
  intros Ho.
  assert (∃ o1, registry (lottieTimeout obs w) !! obs = Some o1 ∧ targets o1 = [])
    as (o1 & Ho1 & Ht1).
  { unfold lottieTimeout. rewrite Ho. unfold disconnect, with_registry.
    cbn. rewrite list_lookup_alter_eq, Ho. by eexists. }
  destruct (shrinks_disconnected _ _ obs o1
              (run_shrinks (lottieTimeout obs w) evs) Ho1 Ht1)
    as (o' & Ho' & _ & Ht').
  exists o'. split_and!; [done..|]. intros doc parent. unfold hears.
  by rewrite Ht'.
Qed.

Lemma lottie_watch_ends_with_timeout_witness :
  registry (run (load lottiePage ∅) [Start 1]) !! 0
  = Some (MutationObserver (LottieRendered 30) [30])
  ∧ ∃ o',
      registry (run (lottieTimeout 0 (run (load lottiePage ∅) [Start 1]))
                    [Insert 30 svg31]) !! 0 = Some o'
      ∧ targets o' = []
      ∧ ∀ doc parent, hears doc parent o' = false.
Proof.
  split; [reflexivity|].
  by apply (lottie_watch_ends_with_timeout _ 0 30 [30]).
Defined.

End WatcherFacts.

(** ** The added-nodes handler *)

Module HandlerFacts.
Import Dom Detector Composed Scenarios Cases DetectorFacts WalkerFacts WatcherFacts.

Lemma accounts_refl w : accounts w w.
Proof.
  split_and!; [done|done|]. exists []. split; [by rewrite app_nil_r|].
  intros _ x Hx. by left.
Qed.

Lemma accounts_frame w w' :
  onSVGDetected (this w') = onSVGDetected (this w) →
  detectedSVGs (this w') = detectedSVGs (this w) → calls w' = calls w →
  accounts w w'.
Proof.
  intros Hcb Hseen Hcalls. split_and!; [done|by rewrite Hseen|].
  exists []. split; [by rewrite app_nil_r|].
  intros _ x Hx. left. by rewrite <- Hseen.
Qed.

Lemma accounts_trans w1 w2 w3 : accounts w1 w2 → accounts w2 w3 → accounts w1 w3.
Proof.
  intros (Hcb1 & Hs1 & n1 & Hn1 & Ha1) (Hcb2 & Hs2 & n2 & Hn2 & Ha2).
  split_and!; [congruence|by etrans|].
  exists (n1 ++ n2). split; [by rewrite Hn2, Hn1, app_assoc|].
  intros Hsome x Hx. rewrite fmap_app, elem_of_app.
  destruct (Ha2 ltac:(by rewrite Hcb1) x Hx) as [H2|H3]; [|by right; right].
  destruct (Ha1 Hsome x H2) as [?|Hr]; [by left|by right; left].
Qed.

Lemma accounts_foldl {A} (f : world → A → world) (l : list A) w :
  (∀ x w, accounts w (f w x)) → accounts w (foldl f w l).
Proof.
  intros Hf. revert w. induction l as [|x l IH]; intros w; [apply accounts_refl|].
  cbn [foldl]. eapply accounts_trans; [apply Hf|apply IH].
Qed.

Lemma registerSVG_accounts info w : accounts w (registerSVG info w).
Proof.
  unfold registerSVG. destruct (decide _) as [Hin|Hnin]; [apply accounts_refl|].
  unfold with_this. cbn.
  destruct (onSVGDetected (this w)) as [cb|] eqn:Hcb; cbn.
  - split_and!; cbn; [done|apply union_subseteq_r|].
    exists [(cb, info)]. split; [done|].
    intros _ x Hx. apply elem_of_union in Hx as [Hx|Hx]; [|by left].
    apply elem_of_singleton in Hx as ->. right. left.
  - split_and!; cbn; [done|apply union_subseteq_r|].
    exists []. split; [by rewrite app_nil_r|].
    intros [y Hy]. congruence.
Qed.

Lemma observeLottieContainer_accounts c w :
  accounts w (observeLottieContainer c w).
Proof.
  apply accounts_frame; unfold observeLottieContainer; cbn;
    by destruct (shadowRoot c).
Qed.

Lemma observeShadowRoot_accounts sr w : accounts w (observeShadowRoot sr w).
Proof.
  apply accounts_frame; unfold observeShadowRoot; by destruct (decide _).
Qed.

Lemma checkShadowHost_accounts w el : accounts w (checkShadowHost w el).
Proof.
  unfold checkShadowHost. destruct (shadowRoot el) as [sr|]; [|apply accounts_refl].
  eapply accounts_trans; [apply observeShadowRoot_accounts|].
  apply accounts_foldl. intros. apply registerSVG_accounts.
Qed.

Lemma checkNodeForSVG_accounts node w : accounts w (checkNodeForSVG node w).
Proof.
  unfold checkNodeForSVG. destruct (String.eqb _ _); [apply registerSVG_accounts|].
  destruct (_ || _); [apply observeLottieContainer_accounts|].
  eapply accounts_trans; [|apply checkShadowHost_accounts].
  eapply accounts_trans; [|apply accounts_foldl; intros; apply checkShadowHost_accounts].
  eapply accounts_trans;
    [|apply accounts_foldl; intros; apply observeLottieContainer_accounts].
  apply accounts_foldl. intros. apply registerSVG_accounts.
Qed.

Lemma lottieCallback_accounts obs c w : accounts w (lottieCallback obs c w).
Proof.
  unfold lottieCallback. destruct (findNode c (document w)); [|apply accounts_refl].
  destruct (renderedSVG _ _); [|apply accounts_refl].
  eapply accounts_trans; [apply registerSVG_accounts|]. by apply accounts_frame.
Qed.

Lemma runCallback_accounts added w obs : accounts w (runCallback added w obs).
Proof.
  unfold runCallback.
  destruct (registry w !! obs) as [o|]; [|apply accounts_refl].
  destruct (callback o); [apply checkNodeForSVG_accounts|apply lottieCallback_accounts].
Qed.

(** A loop sees the node of one of its rounds, when every round keeps
    what was seen. *)
Lemma foldl_sees {A} (f : world → A → world) (l : list A) (x : A) (n : nat) w :
  x ∈ l → (∀ w, n ∈ detectedSVGs (this (f w x))) →
  (∀ w y, accounts w (f w y)) →
  n ∈ detectedSVGs (this (foldl f w l)).
Proof.
  intros Hx Hsee Hacc. revert w.
  induction l as [|y l IH]; intros w; [by apply elem_of_nil in Hx|].
  cbn [foldl]. apply elem_of_cons in Hx as [->|Hx]; [|by apply IH].
  destruct (accounts_foldl f l (f w y)) as (_ & Hsub & _); [by intros|].
  apply Hsub, Hsee.
Qed.

Lemma registerInline_sees w svg :
  nodeId svg ∈ detectedSVGs (this (registerInline w svg)).
Proof.
  unfold registerInline, registerSVG. destruct (decide _) as [Hin|Hnin]; [done|].
  unfold with_this. cbn.
  destruct (onSVGDetected (this w)); cbn; apply elem_of_union_l, elem_of_singleton;
    done.
Qed.

Lemma svg_selected h root t :
  t ∈ descendants root → tagName t = "svg" → t ∈ querySelectorAll h sel_svg root.
Proof.
  intros Hd Htag. apply querySelectorAll_elem. split; [done|].
  unfold matches, sel_svg, sel_tag. by apply String.eqb_eq.
Qed.

Lemma checkShadowHost_sees w host sr t :
  shadowRoot host = Some sr → t ∈ descendants sr → tagName t = "svg" →
  nodeId t ∈ detectedSVGs (this (checkShadowHost w host)).
Proof.
  intros Hsr Ht Htag. unfold checkShadowHost. rewrite Hsr.
  apply (foldl_sees registerInline _ t).
  - by apply svg_selected.
  - intros w0. apply registerInline_sees.
  - intros w0 y. apply registerSVG_accounts.
Qed.

Lemma checkNodeForSVG_sees node w t :
  reachedByHandler node t →
  nodeId t ∈ detectedSVGs (this (checkNodeForSVG node w)).
Proof.
  unfold reachedByHandler, animationPlayer, checkNodeForSVG.
  destruct (String.eqb (tagName node) "svg"); [intros ->; apply registerInline_sees|].
  destruct (_ || _); [done|]. intros [Htag Hcov].
  set (w1 := foldl registerInline w _).
  set (w2 := foldl _ w1 _). set (w3 := foldl checkShadowHost w2 _).
  destruct Hcov as [Hd|(host & sr & Hhost & Hsr & Hd)].
  - assert (nodeId t ∈ detectedSVGs (this w1)) as H1.
    { apply (foldl_sees registerInline _ t).
      - by apply svg_selected.
      - intros w0. apply registerInline_sees.
      - intros w0 y. apply registerSVG_accounts. }
    assert (accounts w1 (checkShadowHost w3 node)) as (_ & Hsub & _).
    { eapply accounts_trans; [|apply checkShadowHost_accounts].
      eapply accounts_trans;
        [|apply accounts_foldl; intros; apply checkShadowHost_accounts].
      apply accounts_foldl; intros; apply observeLottieContainer_accounts. }
    by apply Hsub.
  - rewrite EnhancerFacts.subtrees_unfold in Hhost.
    apply elem_of_cons in Hhost as [->|Hhost].
    + by eapply checkShadowHost_sees.
    + assert (nodeId t ∈ detectedSVGs (this w3)) as H3.
      { apply (foldl_sees checkShadowHost _ host).
        - apply querySelectorAll_elem. by split.
        - intros w0. by eapply checkShadowHost_sees.
        - intros w0 y. apply checkShadowHost_accounts. }
      destruct (checkShadowHost_accounts w3 node) as (_ & Hsub & _).
      by apply Hsub.
Qed.

Lemma animationPlayer_tag node :
  animationPlayer node = true → String.eqb (tagName node) "svg" = false.
Proof.
  unfold animationPlayer. intros H.
  apply orb_true_iff in H as [H|H]; apply String.eqb_eq in H; by rewrite H.
Qed.

(** The handler on an added animation player only arms a watcher. *)
Lemma checkNodeForSVG_player node w :
  animationPlayer node = true →
  checkNodeForSVG node w = observeLottieContainer node w.
Proof.
  intros H. unfold checkNodeForSVG. rewrite (animationPlayer_tag node H).
  unfold animationPlayer in H. by rewrite H.
Qed.

Lemma runCallback_player added w obs :
  animationPlayer added = true →
  extends (λ info, type info = lottie) w (runCallback added w obs).
Proof.
  intros H. unfold runCallback.
  destruct (registry w !! obs) as [o|]; [|apply extends_refl].
  destruct (callback o) as [|c].
  - rewrite checkNodeForSVG_player by done. apply observeLottieContainer_extends.
  - unfold lottieCallback.
    destruct (findNode c (document w)); [|apply extends_refl].
    destruct (renderedSVG _ _); [|apply extends_refl].
    eapply extends_trans; [|apply disconnect_extends].
    by apply registerSVG_extends.
Qed.

(** X8. An insertion that an added-nodes watcher hears reports the [<svg>]
    elements that [checkNodeForSVG] looks at, unless they were seen
    before: the added element when it is an [<svg>], and otherwise its
    light descendants and the content of its own shadow root and of the
    shadow roots of its light descendants, one level deep. An added
    [<lottie-player>] or [<dotlottie-player>] is the exception: the
    handler reports nothing for it, not even an [<svg>] it holds, and
    whatever is reported on that insertion comes from an animation
    watcher, with kind [lottie]. *)
Theorem heard_insertion_reports_covered_svgs w i o parent sub cb :
  registry w !! i = Some o → callback o = AddedNodes →
  hears (appendChild parent sub (document w)) parent o = true →
  onSVGDetected (this w) = Some cb →
  ∃ new,
    calls (insert parent sub w) = calls w ++ new
    ∧ (∀ t, reachedByHandler sub t →
         nodeId t ∈ detectedSVGs (this w) ∨ nodeId t ∈ reportedNode <$> new)
    ∧ (animationPlayer sub = true →
       Forall (λ c, type (snd c) = lottie) new
       ∧ ∀ w0, calls (checkNodeForSVG sub w0) = calls w0
               ∧ detectedSVGs (this (checkNodeForSVG sub w0))
                 = detectedSVGs (this w0)).
Proof.
  intros Ho Hcb Hhears Hon. unfold insert.
  set (doc' := appendChild parent sub (document w)) in *.
  set (w' := World doc' (elements w) (registry w) (this w) (calls w)).
  set (notified := filter _ _).
  assert (i ∈ notified) as Hi.
  { unfold notified. apply list_elem_of_filter. split.
    - by rewrite Ho.
    - apply elem_of_seq. split; [lia|]. cbn. by eapply lookup_lt_Some. }
  assert (accounts w' (foldl (runCallback sub) w' notified))
    as (_ & _ & new & Hnew & Hacc).
  { apply accounts_foldl. intros. apply runCallback_accounts. }
  exists new. split_and!; [exact Hnew| |].
  - intros t Hreach.
    assert (nodeId t ∈ detectedSVGs (this (foldl (runCallback sub) w' notified)))
      as Hseen.
    { assert (∀ l w0, shrinks w' w0 → i ∈ l →
                nodeId t ∈ detectedSVGs (this (foldl (runCallback sub) w0 l)))
        as Hfold; [|by apply Hfold; [apply shrinks_refl|]].
      clear Hnew Hacc Hi. intros l. induction l as [|x l IH]; intros w0 Hsh Hx;
        [by apply elem_of_nil in Hx|].
      cbn [foldl]. apply elem_of_cons in Hx as [<-|Hx].
      - destruct (accounts_foldl (runCallback sub) l (runCallback sub w0 i))
          as (_ & Hsub & _).
        { intros. apply runCallback_accounts. }
        apply Hsub. unfold runCallback.
        destruct (Hsh i o Ho) as (o' & -> & Hcb' & _). rewrite Hcb', Hcb.
        by apply checkNodeForSVG_sees.
      - apply IH; [|done]. eapply shrinks_trans; [exact Hsh|].
        apply runCallback_shrinks. }
    apply (Hacc ltac:(by cbn; rewrite Hon) _ Hseen).
  - intros Hplayer. split.
    + assert (extends (λ info, type info = lottie) w'
                (foldl (runCallback sub) w' notified))
        as [_ (new' & Hnew' & _ & Hall)].
      { apply extends_foldl. intros. by apply runCallback_player. }
      rewrite Hnew in Hnew'. apply app_inv_head in Hnew' as ->.
      eapply Forall_impl; [exact Hall|]. by intros c (? & _).
    + intros w0. rewrite checkNodeForSVG_player by done.
      unfold observeLottieContainer. cbn. by destruct (shadowRoot sub).
Qed.

Lemma heard_insertion_reports_covered_svgs_witness :
  let w := run (load emptyPage ∅) [Start 1] in
  let o := MutationObserver AddedNodes [3] in
  let sub := Node 60 "div" None [svg15] in
  let player := Node 30 "lottie-player" None [svg31] in
  (registry w !! 0 = Some o
   ∧ callback o = AddedNodes
   ∧ hears (appendChild 3 sub (document w)) 3 o = true
   ∧ onSVGDetected (this w) = Some 1
   ∧ reachedByHandler sub svg15
   ∧ reported (insert 3 sub w) = [15]
   ∧ ∃ new,
       calls (insert 3 sub w) = calls w ++ new
       ∧ (∀ t, reachedByHandler sub t →
            nodeId t ∈ detectedSVGs (this w) ∨ nodeId t ∈ reportedNode <$> new)
       ∧ (animationPlayer sub = true →
          Forall (λ c, type (snd c) = lottie) new
          ∧ ∀ w0, calls (checkNodeForSVG sub w0) = calls w0
                  ∧ detectedSVGs (this (checkNodeForSVG sub w0))
                    = detectedSVGs (this w0)))
  ∧ (hears (appendChild 3 player (document w)) 3 o = true
     ∧ animationPlayer player = true
     ∧ reported (insert 3 player w) = []
     ∧ ∃ new,
         calls (insert 3 player w) = calls w ++ new
         ∧ (∀ t, reachedByHandler player t →
              nodeId t ∈ detectedSVGs (this w)
              ∨ nodeId t ∈ reportedNode <$> new)
         ∧ (animationPlayer player = true →
            Forall (λ c, type (snd c) = lottie) new
            ∧ ∀ w0, calls (checkNodeForSVG player w0) = calls w0
                    ∧ detectedSVGs (this (checkNodeForSVG player w0))
                      = detectedSVGs (this w0))).
Proof.
  cbv zeta.
  assert (reachedByHandler (Node 60 "div" None [svg15]) svg15) as Hreach.
  { split; [reflexivity|]. left. left. }
  split.
  - split_and!; [reflexivity..|exact Hreach|reflexivity|].
    apply (heard_insertion_reports_covered_svgs
             (run (load emptyPage ∅) [Start 1]) 0
             (MutationObserver AddedNodes [3]) 3
             (Node 60 "div" None [svg15]) 1); reflexivity.
  - split_and!; [reflexivity..|].
    apply (heard_insertion_reports_covered_svgs
             (run (load emptyPage ∅) [Start 1]) 0
             (MutationObserver AddedNodes [3]) 3
             (Node 30 "lottie-player" None [svg31]) 1); reflexivity.
Defined.

End HandlerFacts.

(** ** ShinyStorage *)

Module StorageFacts.
Import Storage.

Lemma withDefaults_lookup stored k :
  withDefaults stored !! k =
    match default ∅ stored !! k with
    | Some v => Some v
    | None => defaultSettings !! k
    end.
Proof.
  unfold withDefaults. rewrite lookup_union.
  destruct (default ∅ stored !! k), (defaultSettings !! k); done.
Qed.

Lemma get_cases c :
  ∃ stored, get c = withDefaults stored.
Proof.
  unfold get. destruct (getRejects (sync c)), (getRejects (local c));
    try by eexists.
  exists None. unfold withDefaults. cbn. by rewrite (left_id_L ∅ (∪)).
Qed.

(** X9. [get()] always answers with a complete settings object: every key of
    [defaultSettings] is present whatever the two areas hold and whether
    or not they can be read, and when both reject the answer is
    [defaultSettings]. *)
Theorem get_always_complete c held held' accepts accepts' :
  dom defaultSettings ⊆ dom (get c)
  ∧ get (Chrome (Area held true accepts) (Area held' true accepts'))
    = defaultSettings.
Proof.
  split; [|done].
  destruct (get_cases c) as [stored ->]. unfold withDefaults.
  rewrite dom_union. apply union_subseteq_r.
Qed.

(** X10. What [set] wrote is what [get] reads, completed by the defaults, when
    the sync area accepts both calls; an object with every key of the
    defaults is read back as it was written. *)
Theorem set_then_get s c :
  setRejects (sync c) = false → getRejects (sync c) = false →
  ∃ c',
    set s c = Resolved c'
    ∧ (∀ k, get c' !! k = match s !! k with
                          | Some v => Some v
                          | None => defaultSettings !! k
                          end)
    ∧ (dom defaultSettings ⊆ dom s → get c' = s).
Proof.
  intros Hset Hget. unfold set. rewrite Hset. eexists. split; [done|].
  assert (get (Chrome (store s (sync c)) (local c)) = withDefaults (Some s)) as ->.
  { unfold get. cbn [sync store getRejects settingsItem]. by rewrite Hget. }
  split.
  - intros k. by rewrite withDefaults_lookup.
  - intros Hdom. unfold withDefaults. change (default ∅ (Some s)) with s.
    apply map_eq. intros k.
    rewrite lookup_union. destruct (s !! k) as [v|] eqn:Hk.
    + by destruct (defaultSettings !! k).
    + destruct (defaultSettings !! k) as [v|] eqn:Hd; [|done].
      exfalso. apply not_elem_of_dom in Hk. apply Hk, Hdom.
      apply elem_of_dom. by eexists.
Qed.

Lemma set_then_get_witness :
  let c := Chrome (Area None false false) (Area None false false) in
  let s := <["enabled" := Bool false]> defaultSettings in
  setRejects (sync c) = false ∧ getRejects (sync c) = false
  ∧ ∃ c',
      set s c = Resolved c'
      ∧ (∀ k, get c' !! k = match s !! k with
                            | Some v => Some v
                            | None => defaultSettings !! k
                            end)
      ∧ (dom defaultSettings ⊆ dom s → get c' = s).
Proof.
  cbv zeta. split_and!; [reflexivity..|].
  apply set_then_get; reflexivity.
Defined.

(** X11. When the sync area rejects the write but still answers reads, [set]
    stores the object in the local area and [get] does not see it: it
    goes on answering from the sync area. *)
Theorem fallback_write_is_not_read_back s c :
  setRejects (sync c) = true → setRejects (local c) = false →
  getRejects (sync c) = false →
  ∃ c',
    set s c = Resolved c'
    ∧ settingsItem (local c') = Some s
    ∧ get c' = get c.
Proof.
  intros Hset Hloc Hget. unfold set. rewrite Hset, Hloc. eexists.
  split_and!; [done..|]. unfold get. cbn [sync store getRejects settingsItem].
  by rewrite Hget.
Qed.

Lemma fallback_write_is_not_read_back_witness :
  let c := Chrome (Area None false true) (Area None false false) in
  let s := <["enabled" := Bool false]> defaultSettings in
  setRejects (sync c) = true ∧ setRejects (local c) = false
  ∧ getRejects (sync c) = false
  ∧ ∃ c',
      set s c = Resolved c'
      ∧ settingsItem (local c') = Some s
      ∧ get c' = get c.
Proof.
  cbv zeta. split_and!; [reflexivity..|].
  apply fallback_write_is_not_read_back; reflexivity.
Defined.

Lemma withDefaults_defaults : withDefaults (Some defaultSettings) = defaultSettings.
Proof. apply (bool_decide_unpack _). vm_compute. exact I. Qed.

Lemma withDefaults_installed : withDefaults (Some installedSettings) = defaultSettings.
Proof. apply (bool_decide_unpack _). vm_compute. exact I. Qed.

(** X12. After [reset()], and after the installation of the extension, [get()]
    answers with [defaultSettings] when the sync area accepts the calls:
    the object written on installation has no image-treatment key, and
    the defaults supply them. *)
Theorem reset_and_install_read_as_defaults c :
  setRejects (sync c) = false → getRejects (sync c) = false →
  (∃ c', reset c = Resolved c' ∧ get c' = defaultSettings)
  ∧ (∃ c', onInstalled "install" c = Resolved c' ∧ get c' = defaultSettings
           ∧ settingsItem (sync c') = Some installedSettings
           ∧ installedSettings !! "imageHdrEnabled" = None).
Proof.
  intros Hset Hget. split.
  - unfold reset, set. rewrite Hset. eexists. split; [done|].
    unfold get. cbn [sync store getRejects settingsItem]. rewrite Hget.
    apply withDefaults_defaults.
  - unfold onInstalled. cbn [String.eqb]. rewrite Hset.
    replace (String.eqb "install" "install") with true by (by vm_compute).
    eexists. split_and!; [done| |done|by vm_compute].
    unfold get. cbn [sync store getRejects settingsItem]. rewrite Hget.
    apply withDefaults_installed.
Qed.

Lemma reset_and_install_read_as_defaults_witness :
  let c := Chrome (Area (Some ∅) false false) (Area None true true) in
  setRejects (sync c) = false ∧ getRejects (sync c) = false
  ∧ (∃ c', reset c = Resolved c' ∧ get c' = defaultSettings)
  ∧ (∃ c', onInstalled "install" c = Resolved c' ∧ get c' = defaultSettings
           ∧ settingsItem (sync c') = Some installedSettings
           ∧ installedSettings !! "imageHdrEnabled" = None).
Proof.
  cbv zeta. split_and!; [reflexivity..| |];
    apply reset_and_install_read_as_defaults; reflexivity.
Defined.

End StorageFacts.

(** ** Treatments *)

Module TreatmentFacts.
Import Dom Enhancer Records Scenarios Cases EnhancerFacts.

Lemma update_update i (f g : elem → elem) (h : heap) :
  update i g (update i f h) = update i (λ e, g (f e)) h.
Proof.
  unfold update. rewrite lookup_total_insert_eq. apply insert_insert_eq.
Qed.

Lemma imgTreatment_absorbs c v1 v2 e :
  classAdd c (setStyle "filter" v2 (classAdd c (setStyle "filter" v1 e)))
  = classAdd c (setStyle "filter" v2 e).
Proof.
  destruct e as [a st cl]. unfold classAdd, setStyle. cbn. f_equal.
  - destruct (Str.truthy v2), (Str.truthy v1);
      by rewrite ?insert_insert_eq, ?insert_delete_eq, ?delete_insert_eq,
                 ?delete_delete_eq.
  - by rewrite (assoc_L (∪)), (idemp_L (∪)).
Qed.

Lemma imgTreatment_idemp c v e :
  classAdd c (assignFilter v (classAdd c (assignFilter v e)))
  = classAdd c (assignFilter v e).
Proof.
  destruct v as [v|]; cbn [assignFilter]; [apply imgTreatment_absorbs|].
  destruct e as [a st cl]. unfold classAdd. cbn. f_equal.
  by rewrite (assoc_L (∪)), (idemp_L (∪)).
Qed.

(** X13. The filter-only treatment is idempotent: calling [enhanceImgSVG]
    twice with the same settings leaves the element and the records as
    calling it once does. The record is made by the first call only. *)
Theorem enhanceImgSVG_twice_is_once s el st :
  enhanceImgSVG s el (enhanceImgSVG s el st) = enhanceImgSVG s el st.
Proof.
  unfold enhanceImgSVG.
  destruct (enhancedElements st !! nodeId el) as [r|] eqn:Hr;
    unfold with_dom; cbn [dom enhancedElements];
    rewrite ?Hr, ?lookup_insert_eq; cbn [dom enhancedElements];
    rewrite update_update; unfold update; do 2 f_equal;
    apply imgTreatment_idemp.
Qed.

Lemma recordOf_start st svg :
  let st0 :=
    match enhancedElements st !! nodeId svg with
    | Some _ => st
    | None =>
        State (dom st)
              (<[nodeId svg :=
                   Stored (getStyle "filter" (dom st !!! nodeId svg)) (Some [])]>
                 (enhancedElements st))
    end in
  dom st0 = dom st
  ∧ enhancedElements st0 = <[nodeId svg := recordOf st svg]> (enhancedElements st).
Proof.
  cbv zeta. unfold recordOf.
  destruct (enhancedElements st !! nodeId svg) as [r|] eqn:Hr; [|done].
  split; [done|]. by rewrite insert_id.
Qed.

(** [enhanceInlineSVG] on a graphic whose record, if any, was made by the
    inline treatment. *)
Lemma enhanceInlineSVG_spec B root s svg st f l :
  distinctIds svg → recordOf st svg = Stored f (Some l) →
  ∃ st' l',
    enhanceInlineSVG B root s svg st = Normal st'
    ∧ enhancedElements st'
      = <[nodeId svg := Stored f (Some l')]> (enhancedElements st)
    ∧ (∀ d, d ∈ descendants svg →
         dom st' !!! nodeId d
         = layersView B s d
             (outlineStage root s d (occurrences (nodeId d) l)
                           (dom st !!! nodeId d)))
    ∧ dom st' !!! nodeId svg
      = classAdd cls_enhanced
          (assignFilter (rootFilter s f)
             (if outlineEnabled s then dom st !!! nodeId svg
              else Nat.iter (occurrences (nodeId svg) l) restoreShape
                            (dom st !!! nodeId svg)))
    ∧ (∀ k, k ∉ nodeId <$> subtrees svg →
         dom st' !!! k
         = if outlineEnabled s then dom st !!! k
           else Nat.iter (occurrences k l) restoreShape (dom st !!! k)).
Proof.
  intros Hids Hrec. unfold enhanceInlineSVG.
  destruct (recordOf_start st svg) as [Hdom0 Hees0].
  set (st0 := match enhancedElements st !! nodeId svg with
              | Some _ => st | None => _ end) in *.
  rewrite Hrec in Hees0.
  assert (enhancedElements st0 !! nodeId svg = Some (Stored f (Some l))) as Hrec0.
  { rewrite Hees0. apply lookup_insert_eq. }
  pose proof Hids as Hids'.
  apply distinctIds_descendants in Hids' as [Hnd Hroot].
  assert (∃ st1 l',
            (if outlineEnabled s then addOutlines root s svg st0
             else removeOutlines (nodeId svg) st0) = Normal st1
            ∧ enhancedElements st1
              = <[nodeId svg := Stored f (Some l')]> (enhancedElements st)
            ∧ (∀ d, d ∈ descendants svg →
                 dom st1 !!! nodeId d
                 = outlineStage root s d (occurrences (nodeId d) l)
                                (dom st !!! nodeId d))
            ∧ dom st1 !!! nodeId svg
              = (if outlineEnabled s then dom st !!! nodeId svg
                 else Nat.iter (occurrences (nodeId svg) l) restoreShape
                               (dom st !!! nodeId svg))
            ∧ (∀ k, k ∉ nodeId <$> subtrees svg →
                 dom st1 !!! k
                 = if outlineEnabled s then dom st !!! k
                   else Nat.iter (occurrences k l) restoreShape (dom st !!! k)))
    as (st1 & l' & -> & Hees1 & Hin1 & Hroot1 & Hout1).
  { unfold outlineStage. destruct (outlineEnabled s).
    - destruct (addOutlines_spec root s svg Hids st0 f l Hrec0)
        as (st1 & Hrun & Hees & Hin & Hout).
      exists st1. eexists. split_and!; [done| | | |].
      + rewrite Hees, Hees0. apply insert_insert_eq.
      + intros d Hd. rewrite Hin by done. by rewrite Hdom0.
      + rewrite Hout by done. by rewrite Hdom0.
      + intros k Hk. rewrite subtrees_unfold, fmap_cons, not_elem_of_cons in Hk.
        rewrite Hout by tauto. by rewrite Hdom0.
    - destruct (removeOutlines_spec (nodeId svg) st0 f l Hrec0)
        as (st1 & Hrun & Hees & Hdom).
      exists st1, l. split_and!; [done| | | |].
      + rewrite Hees, Hees0. done.
      + intros d Hd. by rewrite Hdom, Hdom0.
      + by rewrite Hdom, Hdom0.
      + intros k Hk. by rewrite Hdom, Hdom0. }
  assert (enhancedElements st1 !! nodeId svg = Some (Stored f (Some l'))) as Hrec1.
  { rewrite Hees1. apply lookup_insert_eq. }
  exists (inlineLayers B s svg st1), l'. split_and!; [done| | | |].
  - by rewrite inlineLayers_records.
  - intros d Hd. rewrite inlineLayers_inside by done. by rewrite Hin1.
  - rewrite (inlineLayers_root B s svg Hids st1 _ Hrec1). cbn [originalFilter].
    by rewrite Hroot1.
  - intros k Hk. rewrite inlineLayers_outside by done. by apply Hout1.
Qed.

Lemma restoreShape_iter_frame n e :
  obsFocus (Nat.iter n restoreShape e) = obsFocus e
  ∧ obsHighlight (Nat.iter n restoreShape e) = obsHighlight e
  ∧ obsRoot (Nat.iter n restoreShape e) = obsRoot e.
Proof.
  induction n as [|n (IH1 & IH2 & IH3)]; [done|].
  change (Nat.iter (S n) restoreShape e)
    with (restoreShape (Nat.iter n restoreShape e)).
  destruct (restoreShape_frame (Nat.iter n restoreShape e)) as (-> & -> & ->).
  done.
Qed.

Lemma outlineStage_frame root s d n e :
  obsFocus (outlineStage root s d n e) = obsFocus e
  ∧ obsHighlight (outlineStage root s d n e) = obsHighlight e
  ∧ obsRoot (outlineStage root s d n e) = obsRoot e.
Proof.
  unfold outlineStage. destruct (outlineEnabled s).
  - destruct (_ && _); [apply outlineLocal_frame|done].
  - apply restoreShape_iter_frame.
Qed.


Lemma focus_keeps_tabindex B s d e v :
  getAttribute "tabindex" e = Some v →
  getAttribute data_added_tabindex e = None →
  getAttribute "tabindex" (layersView B s d e) = Some v.
Proof.
  intros Ht Hd. unfold layersView.
  set (e2 := if highlightEnabled s then _ else _).
  assert (obsFocus e2 = obsFocus e) as He2.
  { unfold e2. destruct (highlightEnabled s).
    - apply highlightView_frame.
    - apply unhighlightView_frame. }
  unfold obsFocus in He2. injection He2 as Ht2 Hd2 _.
  rewrite <- Ht2 in Ht. rewrite <- Hd2 in Hd. clearbody e2.
  destruct (focusIndicators s).
  - unfold focusView. destruct (sel_focusable _ _); [|done].
    unfold markFocusable. dom_norm. rewrite Ht. cbn. by dom_norm.
  - unfold unfocusView. destruct (classContains cls_focusable e2); [|done].
    unfold unmarkFocusable. dom_norm. rewrite Hd. cbn. by dom_norm.
Qed.

(** X15. No enhancement changes a [tabindex] that the page has set: on every
    element of the graphic that has the attribute, and not the flag by
    which the engine marks the ones it added, the attribute keeps its
    value, whatever the settings. *)
Theorem enhance_keeps_page_tabindex B root s svg st f l d v :
  distinctIds svg → recordOf st svg = Stored f (Some l) →
  d ∈ subtrees svg →
  getAttribute "tabindex" (dom st !!! nodeId d) = Some v →
  getAttribute data_added_tabindex (dom st !!! nodeId d) = None →
  ∃ st',
    enhanceInlineSVG B root s svg st = Normal st'
    ∧ getAttribute "tabindex" (dom st' !!! nodeId d) = Some v.
Proof.
  intros Hids Hrec Hd Ht Hflag.
  destruct (enhanceInlineSVG_spec B root s svg st f l Hids Hrec)
    as (st' & l' & Hrun & _ & Hin & Hroot & _).
  exists st'. split; [done|].
  rewrite subtrees_unfold in Hd. apply elem_of_cons in Hd as [->|Hd].
  - rewrite Hroot. dom_norm. destruct (outlineEnabled s); [done|].
    destruct (restoreShape_iter_frame (occurrences (nodeId svg) l)
                (dom st !!! nodeId svg)) as (Hf & _).
    unfold obsFocus in Hf. injection Hf as -> _ _. done.
  - rewrite Hin by done.
    destruct (outlineStage_frame root s d (occurrences (nodeId d) l)
                (dom st !!! nodeId d)) as (Hf & _).
    unfold obsFocus in Hf. injection Hf as Hf1 Hf2 _.
    apply focus_keeps_tabindex; congruence.
Qed.

(** X16. An enhancement writes to the graphic and to nothing else: an element
    that is neither the root nor one of its light descendants, nor listed
    in the record, is left as it was. *)
Theorem enhance_touches_only_the_graphic B root s svg st f l k :
  distinctIds svg → recordOf st svg = Stored f (Some l) →
  k ∉ nodeId <$> subtrees svg → k ∉ l →
  ∃ st',
    enhanceInlineSVG B root s svg st = Normal st'
    ∧ dom st' !!! k = dom st !!! k.
Proof.
  intros Hids Hrec Hk Hl.
  destruct (enhanceInlineSVG_spec B root s svg st f l Hids Hrec)
    as (st' & l' & Hrun & _ & _ & _ & Hout).
  exists st'. split; [done|]. rewrite Hout by done.
  destruct (outlineEnabled s); [done|]. by rewrite occurrences_not_in.
Qed.


Lemma distinctIds_check t :
  bool_decide (NoDup (nodeId <$> subtrees t)) = true → distinctIds t.
Proof. apply bool_decide_eq_true_1. Qed.

(** X17. With outlines enabled, an element of the graphic that the outline
    layer does not select (it is no shape, or it lies inside a
    [clipPath], a [mask] or a [defs]) keeps its stroke, its stroke width,
    its paint order and its classes of the outline layer, and gets no
    record of originals. *)
Theorem unselected_elements_keep_their_stroke B root s svg st f l d :
  distinctIds svg → recordOf st svg = Stored f (Some l) →
  d ∈ descendants svg → outlineEnabled s = true →
  outlines root s (dom st) d = false →
  ∃ st',
    enhanceInlineSVG B root s svg st = Normal st'
    ∧ obsOutline (dom st' !!! nodeId d) = obsOutline (dom st !!! nodeId d).
Proof.
  intros Hids Hrec Hd Hon Hsel.
  destruct (enhanceInlineSVG_spec B root s svg st f l Hids Hrec)
    as (st' & l' & Hrun & _ & Hin & _).
  exists st'. split; [done|]. rewrite Hin by done.
  destruct (layersView_frame B s d
              (outlineStage root s d (occurrences (nodeId d) l)
                            (dom st !!! nodeId d))) as [-> _].
  unfold outlineStage. rewrite Hon. unfold outlines in Hsel.
  rewrite Hon in Hsel. cbn [andb] in Hsel. by rewrite Hsel.
Qed.

Lemma unselected_elements_keep_their_stroke_witness :
  let d := Node 3 "rect" None [] in
  distinctIds clippedSvg
  ∧ recordOf (fresh ∅) clippedSvg = Stored "" (Some [])
  ∧ d ∈ descendants clippedSvg
  ∧ outlineEnabled blueOutline = true
  ∧ outlines clippedSvg blueOutline (dom (fresh ∅)) d = false
  ∧ ∃ st',
      enhanceInlineSVG plainBrowser clippedSvg blueOutline clippedSvg (fresh ∅)
      = Normal st'
      ∧ obsOutline (dom st' !!! nodeId d) = obsOutline (dom (fresh ∅) !!! nodeId d).
Proof.
  cbv zeta.
  assert (distinctIds clippedSvg) as Hids by (by apply distinctIds_check).
  assert (Node 3 "rect" None [] ∈ descendants clippedSvg) as Hin.
  { vm_compute. right. left. }
  split_and!; [exact Hids|reflexivity|exact Hin|reflexivity|reflexivity|].
  apply (unselected_elements_keep_their_stroke plainBrowser clippedSvg blueOutline
           clippedSvg (fresh ∅) "" [] _ Hids); [reflexivity|exact Hin|reflexivity..].
Defined.


Lemma enhance_keeps_page_tabindex_witness :
  distinctIds linkSvg
  ∧ recordOf (fresh linkDom) linkSvg = Stored "" (Some [])
  ∧ Node 2 "a" None [] ∈ subtrees linkSvg
  ∧ getAttribute "tabindex" (dom (fresh linkDom) !!! 2) = Some "3"
  ∧ getAttribute data_added_tabindex (dom (fresh linkDom) !!! 2) = None
  ∧ ∃ st',
      enhanceInlineSVG plainBrowser linkSvg noOutline linkSvg (fresh linkDom)
      = Normal st'
      ∧ getAttribute "tabindex" (dom st' !!! 2) = Some "3".
Proof.
  assert (distinctIds linkSvg) as Hids by (by apply distinctIds_check).
  assert (Node 2 "a" None [] ∈ subtrees linkSvg) as Hin.
  { vm_compute. right. left. }
  split_and!; [exact Hids|reflexivity|exact Hin|reflexivity|reflexivity|].
  apply (enhance_keeps_page_tabindex plainBrowser linkSvg noOutline linkSvg
           (fresh linkDom) "" [] (Node 2 "a" None []) "3" Hids);
    [reflexivity|exact Hin|reflexivity|reflexivity].
Defined.

Lemma enhance_touches_only_the_graphic_witness :
  distinctIds redPathSvg
  ∧ recordOf enhancedOnce redPathSvg = Stored "" (Some [2])
  ∧ (7 ∉ nodeId <$> subtrees redPathSvg)
  ∧ (7 ∉ [2])
  ∧ ∃ st',
      enhanceInlineSVG plainBrowser redPathSvg noOutline redPathSvg enhancedOnce
      = Normal st'
      ∧ dom st' !!! 7 = dom enhancedOnce !!! 7.
Proof.
  assert (distinctIds redPathSvg) as Hids by (by apply distinctIds_check).
  assert (7 ∉ nodeId <$> subtrees redPathSvg) as H1.
  { apply (bool_decide_unpack _). vm_compute. exact I. }
  assert (7 ∉ [2]) as H2.
  { apply (bool_decide_unpack _). vm_compute. exact I. }
  split_and!; [exact Hids|reflexivity|exact H1|exact H2|].
  apply (enhance_touches_only_the_graphic plainBrowser redPathSvg noOutline
           redPathSvg enhancedOnce "" [2] 7 Hids); [reflexivity|exact H1|exact H2].
Defined.

End TreatmentFacts.

(** ** Restoring *)

Module RestoreFacts.
Import Dom Enhancer Records Content Scenarios Cases EnhancerFacts.

(** A test for [inlineRecords] on a given list of nodes. *)
Lemma inlineRecords_check (nodes : list tree) (m : gmap nat stored) :
  forallb (λ d, negb (String.eqb (tagName d) "svg")
                || match m !! nodeId d with
                   | Some r => bool_decide (is_Some (modifiedShapes r))
                   | None => true
                   end) nodes = true →
  inlineRecords nodes m.
Proof.
  rewrite forallb_forall. intros Hall d r Hd Htag Hr.
  apply list_elem_of_In in Hd. specialize (Hall d Hd).
  rewrite Htag, Hr in Hall. cbn in Hall.
  apply bool_decide_eq_true in Hall as [l Hl]. by rewrite Hl.
Qed.

Lemma classesShrink_refl h : classesShrink h h.
Proof. by intros k c. Qed.

Lemma classesShrink_trans h1 h2 h3 :
  classesShrink h1 h2 → classesShrink h2 h3 → classesShrink h1 h3.
Proof. intros H12 H23 k c H. by apply H12, H23. Qed.

Lemma update_classesShrink i f h :
  (∀ e c, classContains c (f e) = true → classContains c e = true) →
  classesShrink h (update i f h).
Proof.
  intros Hf k c. rewrite update_lookup. case_decide as Hk; [|done].
  subst k. apply Hf.
Qed.

Lemma foldl_update_classesShrink {A} (key : A → nat) f (l : list A) h :
  (∀ e c, classContains c (f e) = true → classContains c e = true) →
  classesShrink h (foldl (λ h x, update (key x) f h) h l).
Proof.
  intros Hf. revert h. induction l as [|x l IH]; intros h; [apply classesShrink_refl|].
  cbn [foldl]. eapply classesShrink_trans; [|apply IH].
  by apply update_classesShrink.
Qed.

Lemma restoreShape_shrinks e c :
  classContains c (restoreShape e) = true → classContains c e = true.
Proof.
  unfold restoreShape. dom_norm. repeat case_match; dom_norm;
    intros Hc; try done; by apply andb_true_iff in Hc as [_ ?].
Qed.

Lemma unmarkHighlight_shrinks e c :
  classContains c (unmarkHighlight e) = true → classContains c e = true.
Proof.
  unfold unmarkHighlight. dom_norm. intros H. by apply andb_true_iff in H as [_ ?].
Qed.

Lemma unmarkFocusable_shrinks e c :
  classContains c (unmarkFocusable e) = true → classContains c e = true.
Proof.
  unfold unmarkFocusable. dom_norm. case_match; dom_norm;
    intros Hc; by apply andb_true_iff in Hc as [_ ?].
Qed.

Lemma classRemove_shrinks b e c :
  classContains c (classRemove b e) = true → classContains c e = true.
Proof. dom_norm. intros H. by apply andb_true_iff in H as [_ ?]. Qed.

Lemma setStyle_shrinks p v e c :
  classContains c (setStyle p v e) = true → classContains c e = true.
Proof. by dom_norm. Qed.

(** One [restore] that finds a record. *)
Lemma restore_found el st r :
  enhancedElements st !! nodeId el = Some r →
  (tagName el = "svg" → modifiedShapes r ≠ None) →
  ∃ st1,
    restore el st = Normal st1
    ∧ enhancedElements st1 = delete (nodeId el) (enhancedElements st)
    ∧ classesShrink (dom st) (dom st1)
    ∧ classContains (ownMarker el) (dom st1 !!! nodeId el) = false.
Proof.
  intros Hr Hinline. unfold restore, ownMarker. rewrite Hr.
  destruct (String.eqb (tagName el) "svg") eqn:Htag.
  - apply String.eqb_eq in Htag. specialize (Hinline Htag).
    destruct r as [f [l|]]; [|done]. cbn [originalFilter].
    unfold removeOutlines. cbn [with_dom enhancedElements]. rewrite Hr.
    eexists. split_and!; [done|done| |].
    + cbn [with_dom dom].
      eapply classesShrink_trans;
        [|apply update_classesShrink, classRemove_shrinks].
      eapply classesShrink_trans;
        [|apply foldl_update_classesShrink, unmarkFocusable_shrinks].
      eapply classesShrink_trans;
        [|apply foldl_update_classesShrink, unmarkHighlight_shrinks].
      eapply classesShrink_trans;
        [|apply (foldl_update_classesShrink id), restoreShape_shrinks].
      apply update_classesShrink, setStyle_shrinks.
    + cbn [with_dom dom]. rewrite update_lookup, decide_True by done.
      by dom_norm.
  - cbn [originalFilter]. eexists. split_and!; [done|done| |].
    + cbn [with_dom dom].
      eapply classesShrink_trans;
        [|apply update_classesShrink, classRemove_shrinks].
      apply update_classesShrink, setStyle_shrinks.
    + cbn [with_dom dom]. rewrite update_lookup, decide_True by done.
      by dom_norm.
Qed.

Lemma restore_missing el st :
  enhancedElements st !! nodeId el = None → restore el st = Normal st.
Proof. intros Hr. unfold restore. by rewrite Hr. Qed.

Lemma forEach_restore (l : list tree) :
  ∀ st,
  inlineRecords l (enhancedElements st) →
  ∃ st',
    forEach (λ st el, restore el st) l st = Normal st'
    ∧ (∀ k, enhancedElements st' !! k
            = if decide (k ∈ nodeId <$> l) then None
              else enhancedElements st !! k)
    ∧ classesShrink (dom st) (dom st')
    ∧ (NoDup (nodeId <$> l) →
       ∀ el, el ∈ l → is_Some (enhancedElements st !! nodeId el) →
         classContains (ownMarker el) (dom st' !!! nodeId el) = false).
Proof.
  induction l as [|x l IH]; intros st Hinv.
  { exists st. split_and!; [done| |apply classesShrink_refl|].
    - intros k. by rewrite fmap_nil, decide_False by apply not_elem_of_nil.
    - intros _ el Hel. by apply elem_of_nil in Hel. }
  cbn [forEach].
  assert (∃ st1,
            restore x st = Normal st1
            ∧ enhancedElements st1 = delete (nodeId x) (enhancedElements st)
            ∧ classesShrink (dom st) (dom st1)
            ∧ (is_Some (enhancedElements st !! nodeId x) →
               classContains (ownMarker x) (dom st1 !!! nodeId x) = false))
    as (st1 & -> & Hees1 & Hshr1 & Hroot1).
  { destruct (enhancedElements st !! nodeId x) as [r|] eqn:Hr.
    - destruct (restore_found x st r Hr) as (st1 & ? & ? & ? & ?).
      { intros Htag. eapply (Hinv x r); [left|done..]. }
      exists st1. by split_and!.
    - exists st. split_and!; [by apply restore_missing| |apply classesShrink_refl|].
      + by rewrite delete_id.
      + by intros [? ?]. }
  destruct (IH st1) as (st' & Hrun & Hees & Hshr & Hroot).
  { intros d r Hd Htag Hrec. rewrite Hees1 in Hrec.
    apply lookup_delete_Some in Hrec as [_ Hrec].
    eapply (Hinv d r); [by right|done..]. }
  exists st'. split_and!; [done| | |].
  - intros k. rewrite Hees, Hees1, fmap_cons.
    destruct (decide (k = nodeId x)) as [->|Hne].
    + rewrite (decide_True (P := nodeId x ∈ _ :: _)) by left.
      rewrite lookup_delete_eq. by case_decide.
    + rewrite lookup_delete_ne by done.
      destruct (decide (k ∈ nodeId <$> l)).
      * by rewrite decide_True by (by right).
      * rewrite decide_False; [done|]. rewrite elem_of_cons. tauto.
  - by eapply classesShrink_trans.
  - rewrite fmap_cons. intros [Hx Hnd]%NoDup_cons el Hel Hsome.
    apply elem_of_cons in Hel as [->|Hel].
    + destruct (classContains (ownMarker x) (dom st' !!! nodeId x)) eqn:Hc; [|done].
      apply Hshr in Hc. by rewrite Hroot1 in Hc.
    + apply Hroot; [done..|]. rewrite Hees1, lookup_delete_ne; [done|].
      intros Heq. apply Hx. rewrite Heq. by apply list_elem_of_fmap_2.
Qed.

Lemma marked_descendants h doc el : el ∈ marked h doc → el ∈ descendants doc.
Proof. unfold marked, querySelectorAll. by intros [_ ?]%list_elem_of_filter. Qed.

(** X18. [restoreAll] visits the elements of the document's light tree that
    carry one of the two marker classes. When the records of the [<svg>]
    elements there were made by the inline treatment it ends normally,
    the records of the visited elements are gone, every other record is
    kept, and no element has gained a class. A graphic inside a shadow
    tree or inside the document of an [<object>] keeps its record. *)
Theorem restoreAll_visits_light_tree_only doc st :
  inlineRecords (descendants doc) (enhancedElements st) →
  ∃ st',
    restoreAll doc st = Normal st'
    ∧ (∀ k, enhancedElements st' !! k
            = if decide (k ∈ nodeId <$> marked (dom st) doc) then None
              else enhancedElements st !! k)
    ∧ classesShrink (dom st) (dom st').
Proof.
  intros Hinv.
  destruct (forEach_restore (marked (dom st) doc) st)
    as (st' & Hrun & Hees & Hshr & _).
  { intros d r Hd. apply Hinv. by eapply marked_descendants. }
  exists st'. by split_and!.
Qed.

(** X19. After [restoreAll] on a document with distinct nodes, an element of
    the light tree that had a record and carried the marker class of its
    kind carries it no more. *)
Theorem restoreAll_clears_markers doc st el :
  distinctIds doc →
  inlineRecords (descendants doc) (enhancedElements st) →
  el ∈ descendants doc →
  is_Some (enhancedElements st !! nodeId el) →
  classContains (ownMarker el) (dom st !!! nodeId el) = true →
  ∃ st',
    restoreAll doc st = Normal st'
    ∧ enhancedElements st' !! nodeId el = None
    ∧ classContains (ownMarker el) (dom st' !!! nodeId el) = false.
Proof.
  intros Hids Hinv Hel Hsome Hmark.
  destruct (forEach_restore (marked (dom st) doc) st)
    as (st' & Hrun & Hees & Hshr & Hroot).
  { intros d r Hd. apply Hinv. by eapply marked_descendants. }
  assert (el ∈ marked (dom st) doc) as Hin.
  { unfold marked, querySelectorAll. apply list_elem_of_filter. split; [|done].
    unfold matches, sel_or, sel_class. cbn [existsb].
    unfold ownMarker in Hmark.
    destruct (String.eqb (tagName el) "svg"); rewrite Hmark;
      by rewrite ?orb_true_r. }
  exists st'. split_and!; [done| |].
  - rewrite Hees. rewrite decide_True; [done|]. by apply list_elem_of_fmap_2.
  - apply Hroot; [|done..].
    apply distinctIds_descendants in Hids as [Hnd _].
    unfold marked, querySelectorAll. by apply NoDup_fmap_filter.
Qed.


Lemma restoreAll_visits_light_tree_only_witness :
  inlineRecords (descendants mediaPage) (enhancedElements mediaEnhanced)
  ∧ ∃ st',
      restoreAll mediaPage mediaEnhanced = Normal st'
      ∧ (∀ k, enhancedElements st' !! k
              = if decide (k ∈ nodeId <$> marked (dom mediaEnhanced) mediaPage)
                then None else enhancedElements mediaEnhanced !! k)
      ∧ classesShrink (dom mediaEnhanced) (dom st').
Proof.
  assert (inlineRecords (descendants mediaPage) (enhancedElements mediaEnhanced))
    as Hinv by (apply inlineRecords_check; vm_compute; reflexivity).
  split; [exact Hinv|].
  exact (restoreAll_visits_light_tree_only mediaPage mediaEnhanced Hinv).
Defined.

Lemma restoreAll_clears_markers_witness :
  let el := Node 51 "img" None [] in
  distinctIds mediaPage
  ∧ inlineRecords (descendants mediaPage) (enhancedElements mediaEnhanced)
  ∧ el ∈ descendants mediaPage
  ∧ is_Some (enhancedElements mediaEnhanced !! nodeId el)
  ∧ classContains (ownMarker el) (dom mediaEnhanced !!! nodeId el) = true
  ∧ ∃ st',
      restoreAll mediaPage mediaEnhanced = Normal st'
      ∧ enhancedElements st' !! nodeId el = None
      ∧ classContains (ownMarker el) (dom st' !!! nodeId el) = false.
Proof.
  cbv zeta.
  assert (distinctIds mediaPage) as Hids.
  { apply (bool_decide_unpack _). vm_compute. exact I. }
  assert (inlineRecords (descendants mediaPage) (enhancedElements mediaEnhanced))
    as Hinv by (apply inlineRecords_check; vm_compute; reflexivity).
  assert (Node 51 "img" None [] ∈ descendants mediaPage) as Hin.
  { vm_compute. do 4 right. left. }
  assert (is_Some (enhancedElements mediaEnhanced !! 51)) as Hsome.
  { apply (bool_decide_unpack _). vm_compute. exact I. }
  split_and!; [exact Hids|exact Hinv|exact Hin|exact Hsome|reflexivity|].
  apply (restoreAll_clears_markers mediaPage mediaEnhanced _ Hids Hinv Hin Hsome).
  reflexivity.
Defined.

End RestoreFacts.

(** ** The image treatment, element by element *)

Module ImageFacts.
Import Dom Enhancer Records Content Scenarios EnhancerFacts TreatmentFacts.

Ltac by_membership :=
  apply set_eq; intros ?;
  repeat (rewrite elem_of_union || rewrite elem_of_difference
          || rewrite elem_of_singleton);
  repeat match goal with
    | H : _ ∉ _ |- _ => revert H
    | H : _ = _ |- _ => revert H
    end;
  try tauto; intuition congruence.

Lemma clearHdr_classes e :
  classList (clearHdr e)
  = classList e ∖ {[cls_hdr]} ∖ {["shiny-hdr-low"]} ∖ {["shiny-hdr-medium"]}
      ∖ {["shiny-hdr-high"]}.
Proof. done. Qed.

Lemma clearHdr_rest e :
  attributes (clearHdr e) = attributes e ∧ style (clearHdr e) = style e.
Proof. done. Qed.

Lemma elem_eq (e1 e2 : elem) :
  attributes e1 = attributes e2 → style e1 = style e2 →
  classList e1 = classList e2 → e1 = e2.
Proof. destruct e1, e2. cbn. by intros -> -> ->. Qed.

Lemma hdrView_idemp s e : hdrView s (hdrView s e) = hdrView s e.
Proof.
  apply elem_eq; [done..|]. unfold hdrView, classAdd, clearHdr, classRemove.
  cbn. by_membership.
Qed.

Lemma clearHdr_idemp e : clearHdr (clearHdr e) = clearHdr e.
Proof.
  apply elem_eq; [done..|]. rewrite !clearHdr_classes. by_membership.
Qed.

Lemma classContains_clearHdr c e :
  classContains c (clearHdr e)
  = negb (bool_decide (c ∈ hdrTokens)) && classContains c e.
Proof.
  unfold clearHdr, hdrTokens. cbn [foldl]. rewrite !classContains_classRemove.
  destruct (bool_decide (c ∈ _)) eqn:Hin;
    [apply bool_decide_eq_true in Hin|apply bool_decide_eq_false in Hin].
  - rewrite !elem_of_cons in Hin.
    destruct Hin as [->|[->|[->|[->|Hin]]]]; [..|by apply elem_of_nil in Hin];
      rewrite String.eqb_refl; cbn [negb andb]; by rewrite ?andb_false_r.
  - rewrite !not_elem_of_cons in Hin. destruct Hin as (H1 & H2 & H3 & H4 & _).
    by rewrite !(proj2 (String.eqb_neq _ _)) by done.
Qed.

Lemma classContains_hdrView c s e :
  classContains c (hdrView s e)
  = String.eqb (intensityToken s) c || String.eqb cls_hdr c
    || negb (bool_decide (c ∈ hdrTokens)) && classContains c e.
Proof.
  unfold hdrView. rewrite !classContains_classAdd, classContains_clearHdr.
  by rewrite orb_assoc.
Qed.

Lemma querySelectorAll_spec h sel root t :
  t ∈ querySelectorAll h sel root ↔ matches h sel t = true ∧ t ∈ descendants root.
Proof. unfold querySelectorAll. by rewrite list_elem_of_filter. Qed.

(** A loop whose body runs [f] on the elements [sel] picks. *)
Lemma forEach_update (g : state → tree → completion) (f : elem → elem)
    (sel : tree → bool) (l : list tree) :
  (∀ st el, g st el
            = Normal (if sel el then with_dom (update (nodeId el) f) st else st)) →
  (∀ e, f (f e) = f e) →
  ∀ st, ∃ st',
    forEach g l st = Normal st'
    ∧ enhancedElements st' = enhancedElements st
    ∧ ∀ k, dom st' !!! k
           = if decide (k ∈ nodeId <$> filter (λ el, sel el = true) l)
             then f (dom st !!! k) else dom st !!! k.
Proof.
  intros Hg Hf. induction l as [|x l IH]; intros st.
  { exists st. split_and!; [done..|]. intros k.
    by rewrite filter_nil, fmap_nil, decide_False by apply not_elem_of_nil. }
  cbn [forEach]. rewrite Hg.
  destruct (IH (if sel x then with_dom (update (nodeId x) f) st else st))
    as (st' & Hrun & Hees & Hdom).
  exists st'. split_and!; [done| |].
  - rewrite Hees. by destruct (sel x).
  - intros k. rewrite Hdom. rewrite filter_cons.
    destruct (sel x) eqn:Hx.
    + rewrite (decide_True (P := true = true)) by done.
      rewrite fmap_cons. cbn [with_dom dom].
      rewrite update_lookup.
      destruct (decide (k = nodeId x)) as [->|Hne].
      * rewrite (decide_True (P := nodeId x ∈ _ :: _)) by left.
        case_decide; [apply Hf|done].
      * destruct (decide (k ∈ nodeId <$> filter (λ el, sel el = true) l)).
        -- by rewrite decide_True by (by right).
        -- rewrite decide_False; [done|]. rewrite elem_of_cons. tauto.
    + by rewrite (decide_False (P := false = true)) by done.
Qed.

Lemma markHdr_valid s el st :
  validToken (intensityToken s) = true →
  markHdr s el st = Normal (with_dom (update (nodeId el) (hdrView s)) st).
Proof.
  intros Hv. unfold markHdr. rewrite Hv. unfold with_dom. cbn [dom enhancedElements].
  by rewrite update_update.
Qed.

Lemma applyHdrBelow_spec P S s node st :
  hdrActive S = Some s → validToken (intensityToken s) = true →
  ∃ st',
    applyHdrBelow P S node st = Normal st'
    ∧ enhancedElements st' = enhancedElements st
    ∧ ∀ k, dom st' !!! k
           = if decide (k ∈ hdrTargets P node) then hdrView s (dom st !!! k)
             else dom st !!! k.
Proof.
  intros Hact Hv. unfold applyHdrBelow.
  destruct (forEach_update (applyHdrToImage P S) (hdrView s)
              (λ el, negb (svgSource (src P (nodeId el))))
              (querySelectorAll (dom st) (sel_tag "img") node))
    with (st := st) as (st1 & -> & Hees1 & Hdom1).
  { intros st0 el. unfold applyHdrToImage. rewrite Hact.
    destruct (svgSource _); [done|]. by apply markHdr_valid. }
  { apply hdrView_idemp. }
  destruct (forEach_update (applyHdrToVideo S) (hdrView s) (λ _, true)
              (querySelectorAll (dom st1) (sel_tag "video") node))
    with (st := st1) as (st2 & -> & Hees2 & Hdom2).
  { intros st0 el. unfold applyHdrToVideo. rewrite Hact. by apply markHdr_valid. }
  { apply hdrView_idemp. }
  exists st2. split_and!; [done|congruence|].
  intros k. rewrite Hdom2, Hdom1.
  set (imgs := nodeId <$> filter _ (querySelectorAll (dom st) _ node)).
  set (videos := nodeId <$> filter _ (querySelectorAll (dom st1) _ node)).
  assert (k ∈ imgs ↔ ∃ d, k = nodeId d ∧ d ∈ descendants node
                          ∧ tagName d = "img"
                          ∧ svgSource (src P (nodeId d)) = false) as Himgs.
  { unfold imgs. rewrite list_elem_of_fmap. apply exist_proper. intros d.
    rewrite list_elem_of_filter, querySelectorAll_spec.
    unfold matches, sel_tag. rewrite String.eqb_eq, negb_true_iff. tauto. }
  assert (k ∈ videos ↔ ∃ d, k = nodeId d ∧ d ∈ descendants node
                            ∧ tagName d = "video") as Hvideos.
  { unfold videos. rewrite list_elem_of_fmap. apply exist_proper. intros d.
    rewrite list_elem_of_filter, querySelectorAll_spec.
    unfold matches, sel_tag. rewrite String.eqb_eq. tauto. }
  assert (k ∈ hdrTargets P node ↔ k ∈ imgs ∨ k ∈ videos) as Hboth.
  { rewrite Himgs, Hvideos. unfold hdrTargets. rewrite list_elem_of_fmap. split.
    - intros (d & -> & Hd). apply list_elem_of_filter in Hd as [[[Ht Hs]|Ht] Hd].
      + left. by exists d.
      + right. by exists d.
    - intros [(d & -> & Hd & Ht & Hs)|(d & -> & Hd & Ht)]; exists d;
        (split; [done|]); apply list_elem_of_filter; (split; [|done]).
      + by left.
      + by right. }
  destruct (decide (k ∈ hdrTargets P node)) as [Hb|Hb]; rewrite Hboth in Hb.
  - destruct Hb as [Hb|Hb].
    + rewrite (decide_True (P := k ∈ imgs)) by done.
      destruct (decide (k ∈ videos)); [apply hdrView_idemp|done].
    + rewrite (decide_True (P := k ∈ videos)) by done.
      destruct (decide (k ∈ imgs)); [apply hdrView_idemp|done].
  - rewrite (decide_False (P := k ∈ imgs)) by tauto.
    by rewrite (decide_False (P := k ∈ videos)) by tauto.
Qed.

End ImageFacts.

(** ** The image treatment *)

Module HdrFacts.
Import Dom Enhancer Records Content Scenarios Cases EnhancerFacts TreatmentFacts
  ImageFacts.

Lemma hdrView_tokens s e c :
  c ∈ hdrTokens →
  classContains c (hdrView s e)
  = bool_decide (c = cls_hdr ∨ c = intensityToken s).
Proof.
  intros Hc. rewrite classContains_hdrView.
  rewrite (bool_decide_eq_true_2 (c ∈ hdrTokens)) by done.
  cbn [negb andb]. rewrite orb_false_r.
  destruct (String.eqb_spec (intensityToken s) c) as [<-|Hn1].
  { symmetry. apply bool_decide_eq_true_2. by right. }
  destruct (String.eqb_spec cls_hdr c) as [<-|Hn2].
  { symmetry. apply bool_decide_eq_true_2. by left. }
  symmetry. apply bool_decide_eq_false_2. intros [?|?]; congruence.
Qed.

(** X20. With the image treatment enabled and an intensity that makes a valid
    class token, [applyImageHdr] ends normally and marks the images of the
    light tree whose address is not an SVG file, and the videos: each of
    them ends with [shiny-hdr] and the class of the intensity, and with no
    other of the four classes of the treatment. Every other element, an
    image with an SVG address and an element inside a shadow tree
    included, is left as it was, and so are the records of the enhancer. *)
Theorem image_treatment_marks_images_and_videos P S s st :
  hdrActive S = Some s → validToken (intensityToken s) = true →
  ∃ st',
    applyImageHdr P S st = Normal st'
    ∧ enhancedElements st' = enhancedElements st
    ∧ (∀ k, k ∈ hdrTargets P (document P) →
         dom st' !!! k = hdrView s (dom st !!! k)
         ∧ ∀ c, c ∈ hdrTokens →
             classContains c (dom st' !!! k)
             = bool_decide (c = cls_hdr ∨ c = intensityToken s))
    ∧ (∀ k, k ∉ hdrTargets P (document P) → dom st' !!! k = dom st !!! k).
Proof.
  intros Hact Hv. unfold applyImageHdr. rewrite Hact.
  destruct (applyHdrBelow_spec P S s (document P) st Hact Hv)
    as (st' & Hrun & Hees & Hdom).
  exists st'. split_and!; [done..| |].
  - intros k Hk. rewrite Hdom, decide_True by done. split; [done|].
    intros c Hc. by apply hdrView_tokens.
  - intros k Hk. by rewrite Hdom, decide_False.
Qed.

Lemma removeImageHdr_lookup P st k :
  dom (removeImageHdr P st) !!! k
  = if decide (k ∈ nodeId <$> querySelectorAll (dom st) (sel_class cls_hdr)
                                               (document P))
    then clearHdr (dom st !!! k) else dom st !!! k.
Proof.
  unfold removeImageHdr. cbn [with_dom dom].
  rewrite <- (foldl_fmap (λ h j, update j clearHdr h) (dom st) _ nodeId).
  apply (foldl_local_idemp _ (λ _, clearHdr)); [apply local_update|].
  intros _ e. apply clearHdr_idemp.
Qed.

Lemma removeImageHdr_selected P st d :
  d ∈ descendants (document P) →
  nodeId d ∈ nodeId <$> querySelectorAll (dom st) (sel_class cls_hdr)
                                         (document P)
  ↔ classContains cls_hdr (dom st !!! nodeId d) = true.
Proof.
  intros Hd. rewrite list_elem_of_fmap. split.
  - intros (d' & Heq & Hd'). apply querySelectorAll_spec in Hd' as [Hm _].
    unfold matches, sel_class in Hm. by rewrite Heq.
  - intros Hc. exists d. split; [done|]. by apply querySelectorAll_spec.
Qed.

Lemma removeImageHdr_light P st d :
  d ∈ descendants (document P) →
  classContains cls_hdr (dom (removeImageHdr P st) !!! nodeId d) = false.
Proof.
  intros Hd. rewrite removeImageHdr_lookup. case_decide as Hin.
  - rewrite classContains_clearHdr.
    rewrite (bool_decide_eq_true_2 (cls_hdr ∈ hdrTokens)) by left. done.
  - rewrite removeImageHdr_selected in Hin by done.
    by destruct (classContains cls_hdr _).
Qed.

Lemma removeImageHdr_others P st k c :
  c ∉ hdrTokens →
  classContains c (dom (removeImageHdr P st) !!! k)
  = classContains c (dom st !!! k).
Proof.
  intros Hc. rewrite removeImageHdr_lookup. case_decide; [|done].
  rewrite classContains_clearHdr.
  by rewrite (bool_decide_eq_false_2 (c ∈ hdrTokens)) by done.
Qed.

(** X21. [removeImageHdr] takes the four classes of the image treatment from
    every element of the light tree that carries [shiny-hdr], and leaves
    every other class, every element outside the light tree and the
    records of the enhancer as they were. Afterwards no element of the
    light tree carries [shiny-hdr]. *)
Theorem removeImageHdr_clears_light_tree P st :
  enhancedElements (removeImageHdr P st) = enhancedElements st
  ∧ (∀ d, d ∈ descendants (document P) →
       classContains cls_hdr (dom (removeImageHdr P st) !!! nodeId d) = false)
  ∧ (∀ d c, d ∈ descendants (document P) →
       classContains cls_hdr (dom st !!! nodeId d) = true → c ∈ hdrTokens →
       classContains c (dom (removeImageHdr P st) !!! nodeId d) = false)
  ∧ (∀ k, k ∉ nodeId <$> descendants (document P) →
       dom (removeImageHdr P st) !!! k = dom st !!! k)
  ∧ (∀ k c, c ∉ hdrTokens →
       classContains c (dom (removeImageHdr P st) !!! k)
       = classContains c (dom st !!! k)).
Proof.
  split_and!; [done| | | |].
  - intros d Hd. by apply removeImageHdr_light.
  - intros d c Hd Hhdr Hc. rewrite removeImageHdr_lookup.
    rewrite decide_True by (by apply removeImageHdr_selected).
    rewrite classContains_clearHdr.
    by rewrite (bool_decide_eq_true_2 (c ∈ hdrTokens)) by done.
  - intros k Hk. rewrite removeImageHdr_lookup. rewrite decide_False; [done|].
    intros Hin. apply Hk. apply list_elem_of_fmap in Hin as (d & -> & Hd).
    apply list_elem_of_fmap_2. by apply querySelectorAll_spec in Hd as [_ ?].
  - intros k c Hc. by apply removeImageHdr_others.
Qed.





(** A loop whose body raises on the elements [sel] picks and does nothing
    on the others stops at the first one picked. *)
Lemma forEach_first_raise (g : state → tree → completion)
    (F : tree → state → state) (sel : tree → bool) (l : list tree) st :
  (∀ st el, g st el = if sel el then Thrown (F el st) else Normal st) →
  forEach g l st
  = match List.find sel l with
    | Some el => Thrown (F el st)
    | None => Normal st
    end.
Proof.
  intros Hg. induction l as [|x l IH]; [done|].
  cbn [forEach List.find]. rewrite Hg. by destruct (sel x).
Qed.

Lemma find_head_filter (sel : tree → bool) (Q : tree → Prop)
    `{!∀ x, Decision (Q x)} (l : list tree) :
  (∀ x, sel x = true ↔ Q x) → List.find sel l = head (filter Q l).
Proof.
  intros Hsel. induction l as [|x l IH]; [done|].
  cbn [List.find]. rewrite filter_cons.
  destruct (sel x) eqn:Hx.
  - rewrite decide_True by (by apply Hsel). done.
  - rewrite decide_False; [done|]. rewrite <- Hsel. by rewrite Hx.
Qed.

(** The first element a loop of [applyImageHdr] stops at, read from the
    light tree. *)
Lemma find_selected h (tag : string) (sel : tree → bool) (Q : tree → Prop)
    `{!∀ x, Decision (Q x)} (node : tree) :
  (∀ d, tagName d = tag ∧ sel d = true ↔ Q d) →
  List.find sel (querySelectorAll h (sel_tag tag) node)
  = head (filter Q (descendants node)).
Proof.
  intros HQ. unfold querySelectorAll.
  rewrite (find_head_filter sel (λ d, sel d = true)) by done.
  rewrite list_filter_filter. f_equal. apply list_filter_iff. intros d.
  rewrite <- HQ. unfold matches, sel_tag. rewrite String.eqb_eq. tauto.
Qed.

(** X24. With an intensity that does not make a valid class token (it holds
    white space), [applyImageHdr] raises at the first element it would
    mark: the first image of the light tree, in document order, whose
    address is not an SVG file, and when there is no such image the first
    video. The four classes of the treatment are taken from that element
    and nothing else is changed, so that no class is added anywhere. With
    no such image and no video the call returns and leaves the page as it
    was. *)
Theorem invalid_intensity_raises P S s st :
  hdrActive S = Some s → validToken (intensityToken s) = false →
  applyImageHdr P S st
  = match hdrOrder P (document P) with
    | el :: _ => Thrown (with_dom (update (nodeId el) clearHdr) st)
    | [] => Normal st
    end
  ∧ classesShrink (dom st) (dom (stateOf (applyImageHdr P S st))).
Proof.
  intros Hact Hv.
  assert (applyImageHdr P S st
          = match hdrOrder P (document P) with
            | el :: _ => Thrown (with_dom (update (nodeId el) clearHdr) st)
            | [] => Normal st
            end) as Hrun.
  { unfold applyImageHdr, applyHdrBelow, hdrOrder. rewrite Hact.
    set (F := λ (el : tree) (st : state),
                with_dom (update (nodeId el) clearHdr) st).
    rewrite (forEach_first_raise (applyHdrToImage P S) F
               (λ el, negb (svgSource (src P (nodeId el))))).
    2:{ intros st0 el. unfold applyHdrToImage, markHdr. rewrite Hact, Hv.
        by destruct (svgSource _). }
    rewrite (find_selected (dom st) "img" _
               (λ d, tagName d = "img" ∧ svgSource (src P (nodeId d)) = false))
      by (intros d; by rewrite negb_true_iff).
    destruct (filter _ (descendants (document P))) as [|el imgs]; [|done].
    cbn [head app].
    rewrite (forEach_first_raise (applyHdrToVideo S) F (λ _, true)).
    2:{ intros st0 el. unfold applyHdrToVideo, markHdr. by rewrite Hact, Hv. }
    rewrite (find_selected (dom st) "video" _ (λ d, tagName d = "video"))
      by (intros d; tauto).
    by destruct (filter _ (descendants (document P))). }
  split; [exact Hrun|]. rewrite Hrun.
  destruct (hdrOrder P (document P)) as [|el rest]; [by intros k c|].
  intros k c. cbn [stateOf with_dom dom]. rewrite update_lookup.
  destruct (decide (k = nodeId el)) as [->|]; [|done].
  rewrite classContains_clearHdr. by intros [_ ?]%andb_true_iff.
Qed.

Lemma invalid_intensity_raises_witness :
  let s := Snapshot blueOutline true "very high" in
  hdrActive (Some s) = Some s
  ∧ validToken (intensityToken s) = false
  ∧ hdrOrder media (document media)
    = [Node 50 "img" None []; Node 52 "video" None []]
  ∧ applyImageHdr media (Some s) (fresh mediaDom)
    = Thrown (with_dom (update 50 clearHdr) (fresh mediaDom))
  ∧ classesShrink (dom (fresh mediaDom))
      (dom (stateOf (applyImageHdr media (Some s) (fresh mediaDom)))).
Proof.
  cbv zeta. split_and!; [reflexivity..| |].
  - refine (proj1 (invalid_intensity_raises media _
                     (Snapshot blueOutline true "very high") (fresh mediaDom)
                     _ _)); reflexivity.
  - refine (proj2 (invalid_intensity_raises media _
                     (Snapshot blueOutline true "very high") (fresh mediaDom)
                     _ _)); reflexivity.
Defined.

(** X23. The image observer marks an added image or video as [applyImageHdr]
    marks the ones of the page, and an added element of another kind
    through its light descendants. Nothing else is touched: the images
    inside an added video are not looked at, and an added image with an
    SVG address is left alone. *)
Theorem inserted_media_are_marked P S s node st :
  hdrActive S = Some s → validToken (intensityToken s) = true →
  ∃ st',
    imageAdded P S node st = Normal st'
    ∧ enhancedElements st' = enhancedElements st
    ∧ ∀ k, dom st' !!! k
           = if decide (k ∈ insertedTargets P node)
             then hdrView s (dom st !!! k) else dom st !!! k.
Proof.
  intros Hact Hv. unfold imageAdded, insertedTargets.
  destruct (String.eqb (tagName node) "img").
  { unfold applyHdrToImage. rewrite Hact.
    destruct (svgSource _).
    - exists st. split_and!; [done..|]. intros k.
      by rewrite decide_False by apply not_elem_of_nil.
    - rewrite markHdr_valid by done. eexists. split_and!; [done..|].
      intros k. cbn [with_dom dom]. rewrite update_lookup.
      destruct (decide (k = nodeId node)) as [->|Hne].
      + by rewrite decide_True by left.
      + rewrite decide_False; [done|]. by intros ?%list_elem_of_singleton. }
  destruct (String.eqb (tagName node) "video").
  { unfold applyHdrToVideo. rewrite Hact.
    rewrite markHdr_valid by done. eexists. split_and!; [done..|].
    intros k. cbn [with_dom dom]. rewrite update_lookup.
    destruct (decide (k = nodeId node)) as [->|Hne].
    - by rewrite decide_True by left.
    - rewrite decide_False; [done|]. by intros ?%list_elem_of_singleton. }
  by apply applyHdrBelow_spec.
Qed.

Lemma inserted_media_are_marked_witness :
  let clip := Node 70 "video" None [Node 71 "img" None []] in
  hdrActive (Some hdrLow) = Some hdrLow
  ∧ validToken (intensityToken hdrLow) = true
  ∧ ∃ st',
      imageAdded media (Some hdrLow) clip (fresh mediaDom) = Normal st'
      ∧ enhancedElements st' = enhancedElements (fresh mediaDom)
      ∧ ∀ k, dom st' !!! k
             = if decide (k ∈ insertedTargets media clip)
               then hdrView hdrLow (dom (fresh mediaDom) !!! k)
               else dom (fresh mediaDom) !!! k.
Proof.
  cbv zeta. split_and!; [reflexivity..|].
  apply inserted_media_are_marked; reflexivity.
Defined.

Lemma image_treatment_marks_images_and_videos_witness :
  hdrActive (Some hdrLow) = Some hdrLow
  ∧ validToken (intensityToken hdrLow) = true
  ∧ ∃ st',
      applyImageHdr media (Some hdrLow) (fresh mediaDom) = Normal st'
      ∧ enhancedElements st' = enhancedElements (fresh mediaDom)
      ∧ (∀ k, k ∈ hdrTargets media (document media) →
           dom st' !!! k = hdrView hdrLow (dom (fresh mediaDom) !!! k)
           ∧ ∀ c, c ∈ hdrTokens →
               classContains c (dom st' !!! k)
               = bool_decide (c = cls_hdr ∨ c = intensityToken hdrLow))
      ∧ (∀ k, k ∉ hdrTargets media (document media) →
           dom st' !!! k = dom (fresh mediaDom) !!! k).
Proof.
  split_and!; [reflexivity..|].
  apply image_treatment_marks_images_and_videos; reflexivity.
Defined.


End HdrFacts.

(** ** What the content script cannot raise *)

Module SafetyFacts.
Import Dom Enhancer Records Composed Content Scenarios Cases.
Import EnhancerFacts TreatmentFacts RestoreFacts ImageFacts HdrFacts WalkerFacts.

Lemma inlineStep_refl i m : inlineStep i m m.
Proof. by left. Qed.

Lemma inlineStep_trans i m1 m2 m3 :
  inlineStep i m1 m2 → inlineStep i m2 m3 → inlineStep i m1 m3.
Proof.
  intros [->|(f & l & ->)] [->|(f' & l' & ->)]; [by left|right..].
  - by exists f', l'.
  - by exists f, l.
  - exists f', l'. apply insert_insert_eq.
Qed.

Lemma outlineShape_store root s svg st x :
  inlineStep svg (enhancedElements st)
             (enhancedElements (stateOf (outlineShape root s svg st x))).
Proof.
  unfold outlineShape. destruct (skipped root x); [apply inlineStep_refl|].
  destruct (negb _); [|apply inlineStep_refl].
  cbn [with_dom enhancedElements].
  destruct (enhancedElements st !! svg) as [[f [l|]]|]; try apply inlineStep_refl.
  right. by eexists _, _.
Qed.

Lemma forEach_outlineShape_store root s svg l :
  ∀ st, inlineStep svg (enhancedElements st)
          (enhancedElements (stateOf (forEach (outlineShape root s svg) l st))).
Proof.
  induction l as [|x l IH]; intros st; [apply inlineStep_refl|].
  cbn [forEach]. pose proof (outlineShape_store root s svg st x) as Hx.
  destruct (outlineShape root s svg st x) as [st1|st1]; cbn [stateOf] in Hx |- *.
  - eapply inlineStep_trans; [exact Hx|apply IH].
  - exact Hx.
Qed.

Lemma enhanceInlineSVG_store B root s svg st :
  inlineStep (nodeId svg) (enhancedElements st)
    (enhancedElements (stateOf (enhanceInlineSVG B root s svg st))).
Proof.
  unfold enhanceInlineSVG.
  set (st0 := match enhancedElements st !! nodeId svg with
              | Some _ => st | None => _ end).
  assert (inlineStep (nodeId svg) (enhancedElements st) (enhancedElements st0)) as H0.
  { unfold st0. destruct (enhancedElements st !! nodeId svg);
      [apply inlineStep_refl|]. right. by eexists _, _. }
  assert (inlineStep (nodeId svg) (enhancedElements st0)
            (enhancedElements (stateOf
               (if outlineEnabled s then addOutlines root s svg st0
                else removeOutlines (nodeId svg) st0)))) as H1.
  { destruct (outlineEnabled s).
    - apply forEach_outlineShape_store.
    - unfold removeOutlines.
      destruct (enhancedElements st0 !! nodeId svg) as [[f [l|]]|];
        apply inlineStep_refl. }
  destruct (if outlineEnabled s then _ else _) as [st1|st1]; cbn [stateOf] in *.
  - rewrite inlineLayers_records. by eapply inlineStep_trans.
  - by eapply inlineStep_trans.
Qed.

Section Universe.
Context (U : list tree) (Hnd : NoDup (nodeId <$> U)).

Lemma same_node d el : d ∈ U → el ∈ U → nodeId d = nodeId el → d = el.
Proof.
  intros Hd Hel Heq. clear -Hnd Hd Hel Heq.
  induction U as [|x l IH]; [by apply elem_of_nil in Hd|].
  rewrite fmap_cons in Hnd. apply NoDup_cons in Hnd as [Hx Hnd'].
  apply elem_of_cons in Hd as [->|Hd]; apply elem_of_cons in Hel as [->|Hel];
    auto.
  - exfalso. apply Hx. rewrite Heq. by apply list_elem_of_fmap_2.
  - exfalso. apply Hx. rewrite <- Heq. by apply list_elem_of_fmap_2.
Qed.

Lemma inlineRecords_step i m m' :
  inlineStep i m m' → inlineRecords U m → inlineRecords U m'.
Proof.
  intros [->|(f & l & ->)] Hinv; [done|].
  intros d r Hd Htag Hr. destruct (decide (nodeId d = i)) as [<-|Hne].
  - rewrite lookup_insert_eq in Hr. by injection Hr as <-.
  - rewrite lookup_insert_ne in Hr by done. by eapply Hinv.
Qed.

Lemma inlineRecords_delete i m :
  inlineRecords U m → inlineRecords U (delete i m).
Proof.
  intros Hinv d r Hd Htag Hr. apply lookup_delete_Some in Hr as [_ Hr].
  by eapply Hinv.
Qed.

Lemma inlineRecords_other el r m :
  el ∈ U → tagName el ≠ "svg" →
  inlineRecords U m → inlineRecords U (<[nodeId el := r]> m).
Proof.
  intros Hel Htag Hinv d r' Hd Hsvg Hr.
  destruct (decide (nodeId d = nodeId el)) as [Heq|Hne].
  - apply same_node in Heq; [|done..]. congruence.
  - rewrite lookup_insert_ne in Hr by done. by eapply Hinv.
Qed.

Lemma enhanceImgSVG_safe s el st :
  el ∈ U → tagName el ≠ "svg" →
  inlineRecords U (enhancedElements st) →
  inlineRecords U (enhancedElements (enhanceImgSVG s el st)).
Proof.
  intros Hel Htag Hinv. unfold enhanceImgSVG. cbn [with_dom enhancedElements].
  destruct (enhancedElements st !! nodeId el); [done|].
  cbn [enhancedElements]. by apply inlineRecords_other.
Qed.

Lemma restore_safe el st :
  el ∈ U → inlineRecords U (enhancedElements st) →
  ∃ st', restore el st = Normal st'
         ∧ inlineRecords U (enhancedElements st').
Proof.
  intros Hel Hinv.
  destruct (enhancedElements st !! nodeId el) as [r|] eqn:Hr.
  - destruct (restore_found el st r Hr) as (st' & Hrun & Hees & _).
    { intros Htag. by eapply Hinv. }
    exists st'. split; [done|]. rewrite Hees. by apply inlineRecords_delete.
  - exists st. split; [by apply restore_missing|done].
Qed.

(** An enhancement asked by a report that fits its element. *)
Lemma enhance_safe B root info s st :
  element info ∈ U → fitsKind info →
  inlineRecords U (enhancedElements st) →
  ∃ st', enhance B root info s st = Normal st'
         ∧ inlineRecords U (enhancedElements st').
Proof.
  intros Hel Hfit Hinv. unfold enhance.
  destruct (enabled s); cbn [negb]; [|by apply restore_safe].
  assert (type info = inline ∨ type info = lottie →
          ∃ st', enhanceInlineSVG B root s (element info) st = Normal st'
                 ∧ inlineRecords U (enhancedElements st')) as Hinline.
  { intros Hkind. assert (tagName (element info) = "svg") as Htag.
    { unfold fitsKind in Hfit. by destruct Hkind as [Hk|Hk]; rewrite Hk in Hfit. }
    destruct (enhanceInlineSVG_ready B root s (element info) st) as [st' Hrun].
    { unfold inlineReady, recordOf.
      destruct (enhancedElements st !! nodeId (element info)) as [r|] eqn:Hr;
        [|done].
      specialize (Hinv _ r Hel Htag Hr). by destruct (modifiedShapes r). }
    exists st'. split; [done|].
    pose proof (enhanceInlineSVG_store B root s (element info) st) as Hstep.
    rewrite Hrun in Hstep. by eapply inlineRecords_step. }
  assert (tagName (element info) ≠ "svg" →
          ∃ st', enhanceEmbeddedSVG B s (element info) st = Normal st'
                 ∧ inlineRecords U (enhancedElements st')) as Hembedded.
  { intros Htag. unfold enhanceEmbeddedSVG.
    destruct (svgDocument B (nodeId (element info))) as [| |doc];
      try (eexists; split; [done|]; by apply enhanceImgSVG_safe).
    destruct (querySelector (dom st) sel_svg doc) as [svg|];
      [|eexists; split; [done|]; by apply enhanceImgSVG_safe].
    pose proof (enhanceInlineSVG_store B doc s svg st) as Hstep.
    destruct (enhanceInlineSVG B doc s svg st) as [st1|st1]; cbn [stateOf] in Hstep.
    - eexists. split; [done|]. by eapply inlineRecords_step.
    - eexists. split; [done|]. apply enhanceImgSVG_safe; [done..|].
      by eapply inlineRecords_step. }
  unfold fitsKind in Hfit.
  destruct (type info) eqn:Hkind; auto.
  eexists. split; [done|]. by apply enhanceImgSVG_safe.
Qed.

Lemma forEach_safe {A} (g : state → A → completion) (l : list A) st :
  (∀ st x, x ∈ l → inlineRecords U (enhancedElements st) →
     ∃ st', g st x = Normal st' ∧ inlineRecords U (enhancedElements st')) →
  inlineRecords U (enhancedElements st) →
  ∃ st', forEach g l st = Normal st' ∧ inlineRecords U (enhancedElements st').
Proof.
  revert st. induction l as [|x l IH]; intros st Hg Hinv; [by exists st|].
  cbn [forEach]. destruct (Hg st x) as (st1 & -> & Hinv1); [left|done|].
  apply IH; [|done]. intros st2 y Hy. apply Hg. by right.
Qed.

End Universe.

Lemma descendants_composed root d :
  d ∈ descendants root → d ∈ composedDescendants root.
Proof.
  intros Hd. unfold composedDescendants.
  apply (proj2 (inclusive_reached root)). by left.
Qed.

Section Page.
Context (P : page).
Context (Hnd : NoDup (nodeId <$> composedDescendants (document P))).


Lemma reenhanceAll_safe s st :
  inlineRecords (composedDescendants (document P)) (enhancedElements st) →
  ∃ st', reenhanceAll P s st = Normal st'
         ∧ inlineRecords (composedDescendants (document P))
                         (enhancedElements st').
Proof.
  intros Hinv. unfold reenhanceAll.
  set (U := composedDescendants (document P)) in *.
  destruct (forEach_safe U
              (λ st el, enhance (agent P) (document P) (SvgInfo inline el None) s st)
              (querySelectorAll (dom st) sel_svg (document P)) st)
    as (st1 & -> & Hinv1); [|done|].
  { intros st0 el Hel Hinv0. apply querySelectorAll_spec in Hel as [Hm Hd].
    apply (enhance_safe U Hnd); [by apply descendants_composed| |done].
    unfold fitsKind. cbn. by apply String.eqb_eq. }
  destruct (forEach_safe U
              (λ st el, enhance (agent P) (document P) (SvgInfo img el None) s st)
              (querySelectorAll (dom st1) Detector.sel_img_svg (document P)) st1)
    as (st2 & -> & Hinv2); [|done|].
  { intros st0 el Hel Hinv0. apply querySelectorAll_spec in Hel as [Hm Hd].
    apply (enhance_safe U Hnd); [by apply descendants_composed| |done].
    unfold fitsKind. cbn.
    unfold matches, Detector.sel_img_svg, sel_and, sel_tag in Hm.
    apply andb_true_iff in Hm as [Hm _]. apply String.eqb_eq in Hm.
    by rewrite Hm. }
  apply (forEach_safe U); [|done].
  intros st0 el Hel Hinv0. apply querySelectorAll_spec in Hel as [Hm Hd].
  apply (enhance_safe U Hnd); [by apply descendants_composed| |done].
  unfold fitsKind. cbn.
  unfold matches, Detector.sel_object_svg, sel_and, sel_tag in Hm.
  apply andb_true_iff in Hm as [Hm _]. apply String.eqb_eq in Hm.
  by rewrite Hm.
Qed.

Lemma restoreAll_safe st :
  inlineRecords (composedDescendants (document P)) (enhancedElements st) →
  ∃ st', restoreAll (document P) st = Normal st'
         ∧ inlineRecords (composedDescendants (document P))
                         (enhancedElements st').
Proof.
  intros Hinv. unfold restoreAll.
  apply (forEach_safe (composedDescendants (document P))); [|done].
  intros st0 el Hel Hinv0. apply querySelectorAll_spec in Hel as [_ Hd].
  apply restore_safe; [by apply descendants_composed|done].
Qed.

End Page.

(** X25. On a page whose elements are distinct and whose records of [<svg>]
    elements were made by the inline treatment, no report that fits its
    element makes [onSVGDetected] raise, and the records stay of that
    form: the [TypeError] that the enhancer raises on a record without
    shape list cannot be reached from the detector. *)
Theorem onSVGDetected_never_raises P info sh :
  NoDup (nodeId <$> composedDescendants (document P)) →
  inlineRecords (composedDescendants (document P))
                (enhancedElements (enhancer sh)) →
  element info ∈ composedDescendants (document P) → fitsKind info →
  ∃ sh',
    onSVGDetected P info sh = Returned sh'
    ∧ settings sh' = settings sh
    ∧ inlineRecords (composedDescendants (document P))
                    (enhancedElements (enhancer sh')).
Proof.
  intros Hnd Hinv Hel Hfit. unfold onSVGDetected.
  destruct (settings sh) as [s|] eqn:Hs; [|exists sh; by rewrite Hs].
  destruct (enabled (graphics s)); [|exists sh; by rewrite Hs].
  destruct (enhance_safe _ Hnd (agent P) (document P) info (graphics s)
              (enhancer sh) Hel Hfit Hinv) as (st' & -> & Hinv').
  by eexists.
Qed.

(** X26. On such a page a change of settings never raises either, as long as
    the intensity of the image treatment makes a valid class token; the
    new settings are in place afterwards and the records keep their
    form. *)
Theorem onSettingsChanged_never_raises P newSettings sh :
  NoDup (nodeId <$> composedDescendants (document P)) →
  inlineRecords (composedDescendants (document P))
                (enhancedElements (enhancer sh)) →
  validToken (intensityToken newSettings) = true →
  ∃ sh',
    onSettingsChanged P newSettings sh = Returned sh'
    ∧ settings sh' = Some newSettings
    ∧ inlineRecords (composedDescendants (document P))
                    (enhancedElements (enhancer sh')).
Proof.
  intros Hnd Hinv Hv. unfold onSettingsChanged.
  destruct (negb (enabled (graphics newSettings)) && _) eqn:Hoff.
  { destruct (restoreAll_safe P (enhancer sh) Hinv) as (st1 & -> & Hinv1).
    by eexists. }
  destruct (enabled (graphics newSettings)) eqn:Hon; [|by eexists].
  destruct (reenhanceAll_safe P Hnd (graphics newSettings) (enhancer sh) Hinv)
    as (st1 & -> & Hinv1).
  destruct (imageHdrEnabled newSettings) eqn:Hhdr.
  - assert (hdrActive (Some newSettings) = Some newSettings) as Hact.
    { unfold hdrActive. by rewrite Hon, Hhdr. }
    unfold applyImageHdr. rewrite Hact.
    destruct (applyHdrBelow_spec P (Some newSettings) newSettings (document P)
                (removeImageHdr P st1) Hact Hv) as (st2 & -> & Hees & _).
    eexists. split_and!; [done..|]. cbn [enhancer lift]. by rewrite Hees.
  - destruct (match settings sh with Some s => imageHdrEnabled s | None => false end);
      eexists; (split_and!; [done..|]); done.
Qed.


Lemma NoDup_check (l : list nat) : bool_decide (NoDup l) = true → NoDup l.
Proof. apply bool_decide_eq_true_1. Qed.

Lemma onSVGDetected_never_raises_witness :
  let sh := Shiny (Some hdrLow) mediaEnhanced in
  NoDup (nodeId <$> composedDescendants (document media))
  ∧ inlineRecords (composedDescendants (document media))
                  (enhancedElements (enhancer sh))
  ∧ element mediaGraphic ∈ composedDescendants (document media)
  ∧ fitsKind mediaGraphic
  ∧ ∃ sh',
      onSVGDetected media mediaGraphic sh = Returned sh'
      ∧ settings sh' = settings sh
      ∧ inlineRecords (composedDescendants (document media))
                      (enhancedElements (enhancer sh')).
Proof.
  cbv zeta.
  assert (NoDup (nodeId <$> composedDescendants (document media))) as Hnd
    by (by apply NoDup_check).
  assert (inlineRecords (composedDescendants (document media))
            (enhancedElements mediaEnhanced)) as Hinv
    by (apply inlineRecords_check; vm_compute; reflexivity).
  assert (element mediaGraphic ∈ composedDescendants (document media)) as Hin.
  { vm_compute. do 6 right. left. }
  assert (fitsKind mediaGraphic) as Hfit by reflexivity.
  split_and!; [exact Hnd|exact Hinv|exact Hin|exact Hfit|].
  exact (onSVGDetected_never_raises media mediaGraphic
           (Shiny (Some hdrLow) mediaEnhanced) Hnd Hinv Hin Hfit).
Defined.

Lemma onSettingsChanged_never_raises_witness :
  NoDup (nodeId <$> composedDescendants (document media))
  ∧ inlineRecords (composedDescendants (document media))
                  (enhancedElements (enhancer running))
  ∧ validToken (intensityToken hdrHigh) = true
  ∧ ∃ sh',
      onSettingsChanged media hdrHigh running = Returned sh'
      ∧ settings sh' = Some hdrHigh
      ∧ inlineRecords (composedDescendants (document media))
                      (enhancedElements (enhancer sh')).
Proof.
  assert (NoDup (nodeId <$> composedDescendants (document media))) as Hnd
    by (by apply NoDup_check).
  assert (inlineRecords (composedDescendants (document media))
            (enhancedElements (enhancer running))) as Hinv
    by (apply inlineRecords_check; vm_compute; reflexivity).
  split_and!; [exact Hnd|exact Hinv|reflexivity|].
  apply (onSettingsChanged_never_raises media hdrHigh running Hnd Hinv).
  reflexivity.
Defined.

End SafetyFacts.

(** ** Changes of settings *)

Module SettingsFacts.
Import Dom Enhancer Records Composed Content Scenarios Cases.
Import EnhancerFacts TreatmentFacts RestoreFacts ImageFacts HdrFacts SafetyFacts.

Lemma clearHdr_shrinks e c :
  classContains c (clearHdr e) = true → classContains c e = true.
Proof.
  rewrite classContains_clearHdr. intros Hc. by apply andb_true_iff in Hc as [_ ?].
Qed.

Lemma removeImageHdr_classesShrink P st :
  classesShrink (dom st) (dom (removeImageHdr P st)).
Proof.
  unfold removeImageHdr. cbn [with_dom dom].
  apply foldl_update_classesShrink, clearHdr_shrinks.
Qed.

(** X27. Turning the extension off restores the light tree: when the settings
    go from enabled to disabled, [onSettingsChanged] returns, the records
    of the marked elements of the light tree are gone and the others
    kept, no element of the light tree carries [shiny-hdr], and no
    element has gained a class. *)
Theorem disabling_restores_light_tree P old newSettings sh :
  settings sh = Some old → enabled (graphics old) = true →
  enabled (graphics newSettings) = false →
  inlineRecords (descendants (document P)) (enhancedElements (enhancer sh)) →
  ∃ sh',
    onSettingsChanged P newSettings sh = Returned sh'
    ∧ settings sh' = Some newSettings
    ∧ (∀ k, enhancedElements (enhancer sh') !! k
            = if decide (k ∈ nodeId <$> marked (dom (enhancer sh)) (document P))
              then None else enhancedElements (enhancer sh) !! k)
    ∧ (∀ d, d ∈ descendants (document P) →
         classContains cls_hdr (dom (enhancer sh') !!! nodeId d) = false)
    ∧ classesShrink (dom (enhancer sh)) (dom (enhancer sh')).
Proof.
  intros Hold Hwas Hoff Hinv. unfold onSettingsChanged.
  rewrite Hold, Hwas, Hoff. cbn [negb andb].
  destruct (forEach_restore (marked (dom (enhancer sh)) (document P)) (enhancer sh))
    as (st1 & Hrun & Hees & Hshr & _).
  { intros d r Hd. apply Hinv. by eapply marked_descendants. }
  unfold restoreAll. fold (marked (dom (enhancer sh)) (document P)). rewrite Hrun.
  eexists. split_and!; [done|done| | |]; cbn [enhancer].
  - done.
  - intros d Hd. by apply removeImageHdr_light.
  - eapply classesShrink_trans; [exact Hshr|apply removeImageHdr_classesShrink].
Qed.

(** X28. After a change to settings with the extension and the image
    treatment enabled, every image of the light tree whose address is not
    an SVG file and every video carries [shiny-hdr] and the class of the
    new intensity, and no other of the four classes of the treatment,
    whatever it carried before. *)
Theorem settings_change_sets_one_intensity P newSettings sh k c :
  NoDup (nodeId <$> composedDescendants (document P)) →
  inlineRecords (composedDescendants (document P))
                (enhancedElements (enhancer sh)) →
  enabled (graphics newSettings) = true →
  imageHdrEnabled newSettings = true →
  validToken (intensityToken newSettings) = true →
  k ∈ hdrTargets P (document P) → c ∈ hdrTokens →
  ∃ sh',
    onSettingsChanged P newSettings sh = Returned sh'
    ∧ classContains (intensityToken newSettings) (dom (enhancer sh') !!! k) = true
    ∧ classContains c (dom (enhancer sh') !!! k)
      = bool_decide (c = cls_hdr ∨ c = intensityToken newSettings).
Proof.
  intros Hnd Hinv Hon Hhdr Hv Hk Hc. unfold onSettingsChanged.
  rewrite Hon, Hhdr. cbn [negb andb].
  destruct (reenhanceAll_safe P Hnd (graphics newSettings) (enhancer sh) Hinv)
    as (st1 & -> & Hinv1).
  assert (hdrActive (Some newSettings) = Some newSettings) as Hact.
  { unfold hdrActive. by rewrite Hon, Hhdr. }
  unfold applyImageHdr. rewrite Hact.
  destruct (applyHdrBelow_spec P (Some newSettings) newSettings (document P)
              (removeImageHdr P st1) Hact Hv) as (st2 & -> & Hees & Hdom).
  eexists. split; [done|]. cbn [lift enhancer].
  rewrite Hdom, decide_True by done. split.
  - rewrite classContains_hdrView. by rewrite String.eqb_refl.
  - by apply hdrView_tokens.
Qed.


Lemma disabling_restores_light_tree_witness :
  settings running = Some hdrLow
  ∧ enabled (graphics hdrLow) = true
  ∧ enabled (graphics turnedOff) = false
  ∧ inlineRecords (descendants (document media))
                  (enhancedElements (enhancer running))
  ∧ ∃ sh',
      onSettingsChanged media turnedOff running = Returned sh'
      ∧ settings sh' = Some turnedOff
      ∧ (∀ k, enhancedElements (enhancer sh') !! k
              = if decide (k ∈ nodeId <$> marked (dom (enhancer running))
                                                   (document media))
                then None else enhancedElements (enhancer running) !! k)
      ∧ (∀ d, d ∈ descendants (document media) →
           classContains cls_hdr (dom (enhancer sh') !!! nodeId d) = false)
      ∧ classesShrink (dom (enhancer running)) (dom (enhancer sh')).
Proof.
  assert (inlineRecords (descendants (document media))
            (enhancedElements (enhancer running))) as Hinv
    by (apply inlineRecords_check; vm_compute; reflexivity).
  split_and!; [reflexivity..|exact Hinv|].
  apply (disabling_restores_light_tree media hdrLow turnedOff running);
    [reflexivity..|exact Hinv].
Defined.

Lemma settings_change_sets_one_intensity_witness :
  NoDup (nodeId <$> composedDescendants (document media))
  ∧ inlineRecords (composedDescendants (document media))
                  (enhancedElements (enhancer running))
  ∧ enabled (graphics hdrHigh) = true
  ∧ imageHdrEnabled hdrHigh = true
  ∧ validToken (intensityToken hdrHigh) = true
  ∧ 50 ∈ hdrTargets media (document media)
  ∧ "shiny-hdr-low" ∈ hdrTokens
  ∧ ∃ sh',
      onSettingsChanged media hdrHigh running = Returned sh'
      ∧ classContains (intensityToken hdrHigh) (dom (enhancer sh') !!! 50) = true
      ∧ classContains "shiny-hdr-low" (dom (enhancer sh') !!! 50)
        = bool_decide ("shiny-hdr-low" = cls_hdr
                       ∨ "shiny-hdr-low" = intensityToken hdrHigh).
Proof.
  assert (NoDup (nodeId <$> composedDescendants (document media))) as Hnd
    by (by apply NoDup_check).
  assert (inlineRecords (composedDescendants (document media))
            (enhancedElements (enhancer running))) as Hinv
    by (apply inlineRecords_check; vm_compute; reflexivity).
  assert (50 ∈ hdrTargets media (document media)) as Hk by (vm_compute; left).
  assert ("shiny-hdr-low" ∈ hdrTokens) as Hc by (right; left).
  split_and!; [exact Hnd|exact Hinv|reflexivity..|exact Hk|exact Hc|].
  apply (settings_change_sets_one_intensity media hdrHigh running 50
           "shiny-hdr-low" Hnd Hinv); [reflexivity..|exact Hk|exact Hc].
Defined.

End SettingsFacts.
